(** * Block Search: the document section splitter

    A shallow embedding of the splitting subsystem of [BlockSearch-Mac.py]
    (classes [Section], [StyleProcessor], [FilenameManager] and
    [DocxSplitter]) and the properties of its specification, with the
    worker thread of [DocSplitterDialog] and the file search of
    [JSONToWordConverter].

    Conventions of the embedding.
    - Python [str] is [string]; every [ascii] stands for the code point of
      the same number (0..255).
    - Python [int] is [Z] where it can be negative (heading levels,
      indices), [nat] for loop counters and list positions.
    - A [dict] is a [gmap], a [set] a [gset], a [list] a [list].
    - A function that can raise returns [option]; [None] is the uncaught
      exception. *)

From Stdlib Require Import ZArith List Ascii String Lia.
From Stdlib Require Import Floats.SpecFloat.
From stdpp Require Import base decidable option list gmap sets strings pretty sorting.

Local Open Scope Z_scope.
Local Open Scope nat_scope.

(** ** Strings as sequences of code points *)

Module Str.

Definition chars (s : string) : list ascii := list_ascii_of_string s.
Definition of_chars (l : list ascii) : string := string_of_list_ascii l.

(** [str.isspace] on one code point below 256 (the test behind [\s] of
    [re] and behind [str.strip()] without argument): TAB..CR, FS..US,
    space, NEL and NBSP. *)
Definition is_space (c : ascii) : bool :=
  let n := nat_of_ascii c in
  ((9 <=? n) && (n <=? 13)) || ((28 <=? n) && (n <=? 32))
  || (n =? 133) || (n =? 160).

(** [s.lstrip(cs)], [s.rstrip(cs)] and [s.strip(cs)], the character set
    given as a test. *)
Fixpoint lstrip (p : ascii → bool) (l : list ascii) : list ascii :=
  match l with
  | [] => []
  | c :: l' => if p c then lstrip p l' else l
  end.

Fixpoint rstrip (p : ascii → bool) (l : list ascii) : list ascii :=
  match l with
  | [] => []
  | c :: l' =>
      match rstrip p l' with
      | [] => if p c then [] else [c]
      | r => c :: r
      end
  end.

Definition strip (p : ascii → bool) (l : list ascii) : list ascii :=
  rstrip p (lstrip p l).

(** [re.sub(p+, r, s)] for a one-character class [p] and a one-character
    replacement [r]: every maximal run of [p] characters becomes one [r].
    [in_run] tells that the previous character belonged to a run. *)
Fixpoint sub_runs (p : ascii → bool) (r : ascii) (in_run : bool)
    (l : list ascii) : list ascii :=
  match l with
  | [] => []
  | c :: l' =>
      if p c then
        if in_run then sub_runs p r true l' else r :: sub_runs p r true l'
      else c :: sub_runs p r false l'
  end.

(** [re.sub(p, '', s)] for a one-character class [p]. *)
Definition delete_chars (p : ascii → bool) (l : list ascii) : list ascii :=
  List.filter (λ c, negb (p c)) l.

(** [s[:n]] for a Python integer [n]: a negative [n] counts from the
    end. *)
Definition slice_to (n : Z) (l : list ascii) : list ascii :=
  if (n <? 0)%Z then take (length l - Z.to_nat (- n)) l
  else take (Z.to_nat n) l.

(** [not s.strip()]: the text is empty or whitespace only. *)
Definition blank (s : string) : bool :=
  match strip is_space (chars s) with
  | [] => true
  | _ :: _ => false
  end.

(** No two neighbours of the list are both [p] characters. *)
Fixpoint no_adj (p : ascii → bool) (l : list ascii) : Prop :=
  match l with
  | c :: l' =>
      match l' with
      | d :: _ => ¬ (p c = true ∧ p d = true)
      | [] => True
      end ∧ no_adj p l'
  | [] => True
  end.

(** The first, the last character of the list is no [p] character. *)
Definition head_free (p : ascii → bool) (l : list ascii) : Prop :=
  ∀ c, head l = Some c → p c = false.

Definition last_free (p : ascii → bool) (l : list ascii) : Prop :=
  ∀ c, last l = Some c → p c = false.

End Str.

(** ** FilenameManager *)

Definition dquote : ascii := "034"%char.
Definition backslash : ascii := "092"%char.

(** The character class of the first substitution: less-than,
    greater-than, colon, double quote, slash, backslash, bar, question
    mark and star. *)
Definition invalid_chars : list ascii :=
  ["<"; ">"; ":"; dquote; "/"; backslash; "|"; "?"; "*"]%char.

Definition invalid_char (c : ascii) : bool :=
  existsb (Ascii.eqb c) invalid_chars.

Definition is_dot (c : ascii) : bool := Ascii.eqb c "."%char.

(** The argument ['._'] of the final [strip]. *)
Definition edge_char (c : ascii) : bool :=
  Ascii.eqb c "."%char || Ascii.eqb c "_"%char.

Definition sanitize_chars (max_length : Z) (l : list ascii) : list ascii :=
  let safe := Str.delete_chars invalid_char l in
  let safe := Str.sub_runs Str.is_space "_"%char false safe in
  let safe := Str.sub_runs is_dot "."%char false safe in
  let safe := Str.slice_to max_length safe in
  Str.strip edge_char safe.

Definition sanitize_filename_len (title : string) (max_length : Z) : string :=
  Str.of_chars (sanitize_chars max_length (Str.chars title)).

(** [sanitize_filename(title)] with the default [max_length = 240]. *)
Definition sanitize_filename (title : string) : string :=
  sanitize_filename_len title 240%Z.

(** What every result of [sanitize_chars] satisfies when [max_length] is
    the natural number [n]. *)
Record sanitized (n : nat) (l : list ascii) : Prop := {
  sanitized_valid : Forall (λ c, invalid_char c = false) l;
  sanitized_no_space : Forall (λ c, Str.is_space c = false) l;
  sanitized_dots : Str.no_adj is_dot l;
  sanitized_length : length l ≤ n;
  sanitized_head : Str.head_free edge_char l;
  sanitized_last : Str.last_free edge_char l
}.

(** [base.rsplit('.', 1)]: the text before and after the last [sep], when
    there is one. *)
Fixpoint rsplit_last (sep : ascii) (l : list ascii)
    : option (list ascii * list ascii) :=
  match l with
  | [] => None
  | c :: l' =>
      match rsplit_last sep l' with
      | Some (h, t) => Some (c :: h, t)
      | None => if Ascii.eqb c sep then Some ([], l') else None
      end
  end.

Definition rsplit1 (sep : ascii) (s : string) : list string :=
  match rsplit_last sep (Str.chars s) with
  | Some (h, t) => [Str.of_chars h; Str.of_chars t]
  | None => [s]
  end.

(** The name tried by [ensure_unique] at the given value of [counter]. *)
Definition candidate (base : string) (counter : nat) : string :=
  match rsplit1 "."%char base with
  | [stem; ext] => stem +:+ "_" +:+ pretty counter +:+ "." +:+ ext
  | _ => base +:+ "_" +:+ pretty counter
  end.

(** The [while filename in used_names] loop; [fuel] bounds the number of
    iterations ([ensure_unique_loop_total] shows that [S (size used)]
    is always enough). *)
Fixpoint ensure_unique_loop (fuel : nat) (base : string) (counter : nat)
    (filename : string) (used_names : gset string) : option string :=
  if decide (filename ∈ used_names) then
    match fuel with
    | O => None
    | S fuel' =>
        ensure_unique_loop fuel' base (S counter) (candidate base counter)
          used_names
    end
  else Some filename.

(** [ensure_unique(filename, used_names)]: the name returned and the set
    after [used_names.add]. *)
Definition ensure_unique (filename : string) (used_names : gset string)
    : option (string * gset string) :=
  name ← ensure_unique_loop (S (size used_names)) filename 1 filename
            used_names;
  Some (name, {[name]} ∪ used_names).

(** [n] successive calls with the same name on one shared set. *)
Fixpoint ensure_unique_calls (n : nat) (filename : string)
    (used_names : gset string) : option (list string * gset string) :=
  match n with
  | O => Some ([], used_names)
  | S n' =>
      '(name, used1) ← ensure_unique filename used_names;
      '(names, used2) ← ensure_unique_calls n' filename used1;
      Some (name :: names, used2)
  end.

(** The set after one call with [base] on the empty set and [k] more
    calls. *)
Definition used_after (base : string) (k : nat) : gset string :=
  {[base]} ∪ list_to_set (candidate base <$> seq 1 k).

(** Successive calls of [ensure_unique] with the names [filenames], in
    order, on one shared set. *)
Fixpoint ensure_unique_all (filenames : list string)
    (used_names : gset string) : option (list string * gset string) :=
  match filenames with
  | [] => Some ([], used_names)
  | filename :: rest =>
      '(name, used1) ← ensure_unique filename used_names;
      '(names, used2) ← ensure_unique_all rest used1;
      Some (name :: names, used2)
  end.

(** ** StyleProcessor *)

(** [s.split()]: the maximal runs of non-whitespace characters. [cur] is
    the token being read, if any. *)
Fixpoint split_go (cur : option (list ascii)) (l : list ascii)
    : list (list ascii) :=
  match l with
  | [] => match cur with Some w => [w] | None => [] end
  | c :: l' =>
      if Str.is_space c then
        match cur with
        | Some w => w :: split_go None l'
        | None => split_go None l'
        end
      else split_go (Some (default [] cur ++ [c])) l'
  end.

Definition split (s : string) : list string :=
  Str.of_chars <$> split_go None (Str.chars s).

Definition digit_value (c : ascii) : option Z :=
  let n := nat_of_ascii c in
  if (48 <=? n) && (n <=? 57) then Some (Z.of_nat (n - 48)) else None.

(** The digits of an [int] literal: decimal digits, single underscores
    allowed between two digits. [after_digit] tells that the previous
    character was a digit. *)
Fixpoint int_digits (acc : Z) (after_digit : bool) (l : list ascii)
    : option Z :=
  match l with
  | [] => if after_digit then Some acc else None
  | c :: l' =>
      match digit_value c with
      | Some d => int_digits (10 * acc + d) true l'
      | None =>
          if Ascii.eqb c "_"%char && after_digit
          then int_digits acc false l'
          else None
      end
  end.

(** [int(s)] in base 10; [None] is [ValueError]. *)
Definition int (s : string) : option Z :=
  match Str.strip Str.is_space (Str.chars s) with
  | c :: l =>
      if Ascii.eqb c "-"%char then Z.opp <$> int_digits 0 false l
      else if Ascii.eqb c "+"%char then int_digits 0 false l
      else int_digits 0 false (c :: l)
  | [] => None
  end.

Inductive WD_STYLE_TYPE := CHARACTER | LIST | PARAGRAPH | TABLE.

Global Instance WD_STYLE_TYPE_eq_dec : EqDecision WD_STYLE_TYPE.
Proof. solve_decision. Defined.

(** A style of [doc.styles]: its name, its type and the name of its base
    style, when it has one. *)
Record Style := {
  style_name : string;
  style_type : WD_STYLE_TYPE;
  base_style : option string
}.

(** [int(name.split()[-1])], the [try] body of both branches. *)
Definition trailing_level (name : string) : option Z :=
  last (split name) ≫= int.

(** One iteration of the loop of [_process_styles]. *)
Definition process_style (heading_levels : gmap string Z) (style : Style)
    : gmap string Z :=
  if decide (style_type style ≠ PARAGRAPH) then heading_levels
  else if String.prefix "Heading " (style_name style) then
    match trailing_level (style_name style) with
    | Some level => <[style_name style := level]> heading_levels
    | None => heading_levels
    end
  else
    match base_style style with
    | Some base_name =>
        if String.prefix "Heading " base_name then
          match trailing_level base_name with
          | Some level => <[style_name style := level]> heading_levels
          | None => heading_levels
          end
        else heading_levels
    | None => heading_levels
    end.

Definition _process_styles (styles : list Style) : gmap string Z :=
  foldl process_style ∅ styles.

(** Two documents' worth of styles used as examples: a built-in heading
    and a custom style based on it, under a plain name and under a name
    that begins with [Heading ]. *)
Definition heading2 : Style :=
  {| style_name := "Heading 2"; style_type := PARAGRAPH;
     base_style := None |}.

Definition block_title : Style :=
  {| style_name := "Block Title"; style_type := PARAGRAPH;
     base_style := Some "Heading 2" |}.

Definition heading_a : Style :=
  {| style_name := "Heading A"; style_type := PARAGRAPH;
     base_style := Some "Heading 2" |}.

(** A custom style based on another custom style, and a heading style
    with a word between [Heading] and its number. *)
Definition sub_block : Style :=
  {| style_name := "Sub Block"; style_type := PARAGRAPH;
     base_style := Some "Block Title" |}.

Definition heading_sub4 : Style :=
  {| style_name := "Heading Sub 4"; style_type := PARAGRAPH;
     base_style := Some "Heading 2" |}.

(** The character style that Word links to a built-in heading. *)
Definition heading2_char : Style :=
  {| style_name := "Heading 2 Char"; style_type := CHARACTER;
     base_style := None |}.

(** ** The document *)

(** A paragraph: the name of its style ([None] when the paragraph has no
    style or the style no name) and its text. *)
Record Paragraph := {
  para_style : option string;
  text : string
}.

Global Instance Paragraph_eq_dec : EqDecision Paragraph.
Proof. solve_decision. Defined.

Definition get_heading_level (heading_levels : gmap string Z)
    (paragraph : Paragraph) : option Z :=
  match para_style paragraph with
  | None => None
  | Some name =>
      if decide (name = "") then None else heading_levels !! name
  end.

Record Section := {
  title : string;
  safe_title : string;
  level : Z;
  content : list Paragraph;
  start_index : Z;
  end_index : option Z
}.

Definition set_end_index (e : Z) (s : Section) : Section :=
  {| title := title s; safe_title := safe_title s; level := level s;
     content := content s; start_index := start_index s;
     end_index := Some e |}.

Definition append_content (p : Paragraph) (s : Section) : Section :=
  {| title := title s; safe_title := safe_title s; level := level s;
     content := content s ++ [p]; start_index := start_index s;
     end_index := end_index s |}.

(** ** DocxSplitter: state, callbacks and environment *)

(** The messages given to [status_callback]. *)
Inductive status :=
  | Cancellation_requested
  | Parsing_sections (target_level : Z)
  | Canceled_during_cleaning
  | Canceled_during_parsing
  | Operation_canceled
  | Found_sections (n : nat) (target_level : Z)
  | Canceled_by_user
  | Processed_section (idx total : nat) (name : string)
  | Error_processing (name : string)
  | Canceled_creating_archive
  | Created_archive (path : string)
  | Canceled_saving_files
  | Saved_documents (total : nat) (dir : string).

Inductive event :=
  | Status (msg : status)
  | Progress (percent : Z).

(** The document built for one section: its heading (text and level) and
    the paragraphs copied after it. *)
Record OutDoc := {
  out_heading : string * Z;
  out_body : list Paragraph
}.

Inductive File :=
  | DocxFile (d : OutDoc)
  | ZipFile (entries : list (string * OutDoc)).

(** The splitter object and the world it acts on. [heap] holds the
    [Section] objects ever created, addressed by position; [sections] is
    [self.sections], a list of references into [heap]. *)
Record DocxSplitter := {
  input_stem : string;
  doc : list Paragraph;
  heading_levels : gmap string Z;
  heap : list Section;
  sections : list nat;
  cancel_requested : bool;
  files : gmap string File;
  dirs : gset string;
  log : list event
}.

Definition set_doc (d : list Paragraph) (st : DocxSplitter) : DocxSplitter :=
  {| input_stem := input_stem st; doc := d;
     heading_levels := heading_levels st; heap := heap st;
     sections := sections st; cancel_requested := cancel_requested st;
     files := files st; dirs := dirs st; log := log st |}.

Definition set_heap (h : list Section) (st : DocxSplitter) : DocxSplitter :=
  {| input_stem := input_stem st; doc := doc st;
     heading_levels := heading_levels st; heap := h;
     sections := sections st; cancel_requested := cancel_requested st;
     files := files st; dirs := dirs st; log := log st |}.

Definition set_sections (l : list nat) (st : DocxSplitter) : DocxSplitter :=
  {| input_stem := input_stem st; doc := doc st;
     heading_levels := heading_levels st; heap := heap st;
     sections := l; cancel_requested := cancel_requested st;
     files := files st; dirs := dirs st; log := log st |}.

Definition set_files (f : gmap string File) (st : DocxSplitter)
    : DocxSplitter :=
  {| input_stem := input_stem st; doc := doc st;
     heading_levels := heading_levels st; heap := heap st;
     sections := sections st; cancel_requested := cancel_requested st;
     files := f; dirs := dirs st; log := log st |}.

Definition set_dirs (d : gset string) (st : DocxSplitter) : DocxSplitter :=
  {| input_stem := input_stem st; doc := doc st;
     heading_levels := heading_levels st; heap := heap st;
     sections := sections st; cancel_requested := cancel_requested st;
     files := files st; dirs := d; log := log st |}.

Definition emit (e : event) (st : DocxSplitter) : DocxSplitter :=
  {| input_stem := input_stem st; doc := doc st;
     heading_levels := heading_levels st; heap := heap st;
     sections := sections st; cancel_requested := cancel_requested st;
     files := files st; dirs := dirs st; log := log st ++ [e] |}.

Definition status_callback (m : status) : DocxSplitter → DocxSplitter :=
  emit (Status m).

Definition progress_callback (p : Z) : DocxSplitter → DocxSplitter :=
  emit (Progress p).

(** [cancel()], called from the other thread. *)
Definition cancel (st : DocxSplitter) : DocxSplitter :=
  status_callback Cancellation_requested
    {| input_stem := input_stem st; doc := doc st;
       heading_levels := heading_levels st; heap := heap st;
       sections := sections st; cancel_requested := true;
       files := files st; dirs := dirs st; log := log st |}.

(** The section objects [self.sections] refers to, in order. *)
Definition section_list (st : DocxSplitter) : list Section :=
  omap (λ r, heap st !! r) (sections st).

(** What the worker thread cannot decide: at which of its reads of
    [self.cancel_requested] a call of [cancel()] by the other thread has
    arrived since the previous read, and for which sections the [try]
    block of the packaging loops raises. Paragraph checkpoints are named by
    the paragraph index, packaging checkpoints by the 1-based section
    index. *)
Record Env := {
  cancel_at_clean : nat → bool;
  cancel_at_parse : nat → bool;
  cancel_at_parse_end : bool;
  cancel_at_process : bool;
  cancel_at_package : nat → bool;
  cancel_at_package_end : bool;
  section_raises : nat → bool
}.

(** A read of the flag: a pending [cancel()] takes effect first. *)
Definition poll (arrived : bool) (st : DocxSplitter) : DocxSplitter :=
  if arrived then cancel st else st.

(** The environment in which nobody cancels and nothing raises. *)
Definition quiet : Env :=
  {| cancel_at_clean := λ _, false; cancel_at_parse := λ _, false;
     cancel_at_parse_end := false; cancel_at_process := false;
     cancel_at_package := λ _, false; cancel_at_package_end := false;
     section_raises := λ _, false |}.

Definition no_cancel (env : Env) : Prop :=
  (∀ i, cancel_at_clean env i = false) ∧
  (∀ i, cancel_at_parse env i = false) ∧
  cancel_at_parse_end env = false ∧
  cancel_at_process env = false ∧
  (∀ i, cancel_at_package env i = false) ∧
  cancel_at_package_end env = false.

(** ** DocxSplitter._clean_document *)

(** The test of the [if] that marks a heading. *)
Definition marked_heading (target_level : Z) (level : Z) (para : Paragraph)
    : bool :=
  ((level <? target_level)%Z && negb (level =? target_level)%Z)
  || Str.blank (text para).

(** The marks one paragraph adds to [paragraphs_to_remove]. *)
Definition marks (heading_levels : gmap string Z) (target_level : Z)
    (paragraphs : list Paragraph) (idx : nat) (para : Paragraph)
    : list nat :=
  match get_heading_level heading_levels para with
  | Some level =>
      if marked_heading target_level level para then
        idx ::
        match paragraphs !! (idx + 1) with
        | Some next => if Str.blank (text next) then [idx + 1] else []
        | None => []
        end
      else []
  | None => []
  end.

(** The scanning loop from paragraph [idx] on; [None] for the list of
    marks is the early [return doc] of a cancellation. *)
Fixpoint clean_scan (env : Env) (target_level : Z)
    (paragraphs : list Paragraph) (idx : nat) (rest : list Paragraph)
    (paragraphs_to_remove : list nat) (st : DocxSplitter)
    : DocxSplitter * option (list nat) :=
  match rest with
  | [] => (st, Some paragraphs_to_remove)
  | para :: rest' =>
      let st := if idx mod 100 =? 0
                then poll (cancel_at_clean env idx) st else st in
      if (idx mod 100 =? 0) && cancel_requested st then
        (status_callback Canceled_during_cleaning st, None)
      else
        clean_scan env target_level paragraphs (S idx) rest'
          (paragraphs_to_remove
             ++ marks (heading_levels st) target_level paragraphs idx para)
          st
  end.

(** One iteration of the removal loop, with its safety check. *)
Definition remove_paragraph (paragraphs : list Paragraph) (idx : nat)
    : list Paragraph :=
  if idx <? length paragraphs then delete idx paragraphs else paragraphs.

Definition remove_marked (paragraphs : list Paragraph)
    (paragraphs_to_remove : list nat) : list Paragraph :=
  foldl remove_paragraph paragraphs
    (merge_sort (flip (≤)) paragraphs_to_remove).

Definition _clean_document (env : Env) (target_level : Z)
    (st : DocxSplitter) : DocxSplitter :=
  match clean_scan env target_level (doc st) 0 (doc st) [] st with
  | (st', None) => st'
  | (st', Some paragraphs_to_remove) =>
      set_doc (remove_marked (doc st') paragraphs_to_remove) st'
  end.

(** The marked set as the specification words it: a heading strictly
    above the target level or with blank text, and the blank paragraph
    right after such a heading. *)
Definition spec_marked (heading_levels : gmap string Z) (target_level : Z)
    (paragraphs : list Paragraph) (idx : nat) : bool :=
  let is_marked_heading i :=
    match paragraphs !! i with
    | Some para =>
        match get_heading_level heading_levels para with
        | Some level =>
            (level <? target_level)%Z || Str.blank (text para)
        | None => false
        end
    | None => false
    end in
  is_marked_heading idx
  || match idx with
     | O => false
     | S i =>
         is_marked_heading i
         && match paragraphs !! idx with
            | Some para => Str.blank (text para)
            | None => false
            end
     end.

(** The document that keeps exactly the paragraphs outside the marked
    set. *)
Definition spec_clean (heading_levels : gmap string Z) (target_level : Z)
    (paragraphs : list Paragraph) : list Paragraph :=
  List.map snd
    (List.filter
       (λ ip : nat * Paragraph,
          negb (spec_marked heading_levels target_level paragraphs ip.1))
       (imap (λ i p, (i, p)) paragraphs)).

(** ** DocxSplitter.parse_sections *)

(** The local variables of [parse_sections]. *)
Record Locals := {
  current_section : option nat;
  used_titles : gset string
}.

(** [any(p.text.strip() for p in section.content)]. *)
Definition has_content (s : Section) : bool :=
  existsb (λ p, negb (Str.blank (text p))) (content s).

(** [l.remove(x)] on a list of references: the first occurrence is
    removed; [None] is the [ValueError] raised when there is none. *)
Fixpoint list_remove (x : nat) (l : list nat) : option (list nat) :=
  match l with
  | [] => None
  | y :: l' =>
      if decide (x = y) then Some l' else cons y <$> list_remove x l'
  end.

(** Closing the section object [cur]: the end index is set, and the
    object is removed from [self.sections] when it has no content.
    [list.remove] raises [ValueError] when the object is not in the
    list. *)
Definition close_section (e : Z) (cur : nat) (st : DocxSplitter)
    : option DocxSplitter :=
  s ← heap st !! cur;
  let st := set_heap (<[cur := set_end_index e s]> (heap st)) st in
  if has_content s then Some st
  else
    sections' ← list_remove cur (sections st);
    Some (set_sections sections' st).

Definition close_current (e : Z) (loc : Locals) (st : DocxSplitter)
    : option DocxSplitter :=
  match current_section loc with
  | Some cur => close_section e cur st
  | None => Some st
  end.

(** The body of the loop below its cancellation check. *)
Definition parse_step (target_level : Z) (idx : nat) (para : Paragraph)
    (st : DocxSplitter) (loc : Locals) : option (DocxSplitter * Locals) :=
  if decide (get_heading_level (heading_levels st) para = Some target_level)
  then
    st ← close_current (Z.of_nat idx - 1) loc st;
    if negb (Str.blank (text para)) then
      let safe := sanitize_filename (text para) in
      '(unique_title, used) ← ensure_unique safe (used_titles loc);
      let new_section :=
        {| title := text para; safe_title := unique_title;
           level := target_level; content := [];
           start_index := Z.of_nat idx; end_index := None |} in
      let ref := length (heap st) in
      Some (set_sections (sections st ++ [ref])
              (set_heap (heap st ++ [new_section]) st),
            {| current_section := Some ref; used_titles := used |})
    else Some (st, loc)
  else
    match current_section loc with
    | Some cur =>
        s ← heap st !! cur;
        Some (set_heap (<[cur := append_content para s]> (heap st)) st, loc)
    | None => Some (st, loc)
    end.

(** The loop from paragraph [idx] on. The result has no locals when the
    loop was left by the [return] of a cancellation. *)
Fixpoint parse_loop (env : Env) (target_level : Z) (idx : nat)
    (rest : list Paragraph) (st : DocxSplitter) (loc : Locals)
    : option (DocxSplitter * option Locals) :=
  match rest with
  | [] => Some (st, Some loc)
  | para :: rest' =>
      let st := if idx mod 50 =? 0
                then poll (cancel_at_parse env idx) st else st in
      if (idx mod 50 =? 0) && cancel_requested st then
        Some (set_sections [] (status_callback Canceled_during_parsing st),
              None)
      else
        '(st, loc) ← parse_step target_level idx para st loc;
        parse_loop env target_level (S idx) rest' st loc
  end.

Definition fresh_locals : Locals :=
  {| current_section := None; used_titles := ∅ |}.

(** What follows the loop when it ran to its end. *)
Definition parse_finish (env : Env) (target_level : Z) (st : DocxSplitter)
    (loc : Locals) : option DocxSplitter :=
  st ← close_current (Z.of_nat (length (doc st)) - 1) loc st;
  let st := poll (cancel_at_parse_end env) st in
  if cancel_requested st then
    Some (set_sections [] (status_callback Operation_canceled st))
  else
    Some (status_callback
            (Found_sections (length (sections st)) target_level) st).

(** [parse_sections] up to the end of its loop. *)
Definition parse_scan (env : Env) (target_level : Z) (st : DocxSplitter)
    : option (DocxSplitter * option Locals) :=
  let st := status_callback (Parsing_sections target_level) st in
  let st := _clean_document env target_level st in
  parse_loop env target_level 0 (doc st) st fresh_locals.

Definition parse_sections (env : Env) (target_level : Z) (st : DocxSplitter)
    : option DocxSplitter :=
  '(st, oloc) ← parse_scan env target_level st;
  match oloc with
  | None => Some st
  | Some loc => parse_finish env target_level st loc
  end.

(** ** Packaging *)

(** Python floats are IEEE 754 binary64 numbers. *)
Definition float_of_int (z : Z) : spec_float :=
  binary_normalize 53 1024 z 0 false.

(** [a / b] on two integers that binary64 represents exactly. *)
Definition true_divide (a b : Z) : spec_float :=
  SFdiv 53 1024 (float_of_int a) (float_of_int b).

Definition float_mul (x y : spec_float) : spec_float := SFmul 53 1024 x y.

(** [int(x)]: truncation towards zero. [int] raises on infinities and
    NaN, which [idx / total] with [0 < idx <= total] never gives; they are
    sent to 0 here. *)
Definition int_of_float (x : spec_float) : Z :=
  match x with
  | S754_finite s m e =>
      let a := match e with
               | Z0 => Zpos m
               | Zpos p => (Zpos m * 2 ^ Zpos p)%Z
               | Zneg p => (Zpos m / 2 ^ Zpos p)%Z
               end in
      if s then (- a)%Z else a
  | _ => 0%Z
  end.

(** [round(x)]: the nearest integer, ties to the even one (same
    convention for infinities and NaN). *)
Definition round_float (x : spec_float) : Z :=
  match x with
  | S754_finite s m e =>
      let a := match e with
               | Z0 => Zpos m
               | Zpos p => (Zpos m * 2 ^ Zpos p)%Z
               | Zneg p =>
                   let d := (2 ^ Zpos p)%Z in
                   let q := (Zpos m / d)%Z in
                   let r := (Zpos m mod d)%Z in
                   if (2 * r <? d)%Z then q
                   else if (d <? 2 * r)%Z then (q + 1)%Z
                   else if Z.even q then q else (q + 1)%Z
               end in
      if s then (- a)%Z else a
  | _ => 0%Z
  end.

(** [int((idx / total_sections) * 100)]. *)
Definition percent_complete (idx total_sections : nat) : Z :=
  int_of_float
    (float_mul (true_divide (Z.of_nat idx) (Z.of_nat total_sections))
       (float_of_int 100)).

(** The progress value as the specification words it:
    [round(index / total * 100)]. *)
Definition spec_percent (index total : nat) : Z :=
  round_float
    (float_mul (true_divide (Z.of_nat index) (Z.of_nat total))
       (float_of_int 100)).

(** The heading and the copied paragraphs of [_create_section_document]
    (run and paragraph formatting is not modelled). *)
Definition _create_section_document (section : Section) : OutDoc :=
  {| out_heading := (title section, level section);
     out_body :=
       List.filter
         (λ para, negb (String.eqb (text para) (title section))
                  && negb (Str.blank (text para)))
         (content section) |}.

(** [output_dir / name]. *)
Definition path_join (dir name : string) : string := dir +:+ "/" +:+ name.

Definition zip_path (output_dir : string) (st : DocxSplitter) : string :=
  path_join output_dir (input_stem st +:+ "_sections.zip").

(** [archive.write(temp_file, temp_file.name)]: the archive was opened on
    its final path, and every entry goes to that file. *)
Definition archive_write (path : string) (entry : string * OutDoc)
    (st : DocxSplitter) : DocxSplitter :=
  match files st !! path with
  | Some (ZipFile entries) =>
      set_files (<[path := ZipFile (entries ++ [entry])]> (files st)) st
  | _ => st
  end.

(** The loop of [_create_zip_archive] from the section of index [idx] on;
    the boolean tells that the loop was left by [return None]. The
    documents saved in the temporary directory disappear with it and are
    not part of [files]. *)
Fixpoint zip_loop (env : Env) (path : string) (total_sections : nat)
    (idx : nat) (rest : list Section) (st : DocxSplitter)
    : DocxSplitter * bool :=
  match rest with
  | [] => (st, false)
  | section :: rest' =>
      let st := poll (cancel_at_package env idx) st in
      if cancel_requested st then (status_callback Canceled_by_user st, true)
      else
        let st :=
          if section_raises env idx then
            status_callback (Error_processing (safe_title section)) st
          else
            let d := _create_section_document section in
            let st :=
              archive_write path (safe_title section +:+ ".docx", d) st in
            let st :=
              progress_callback (percent_complete idx total_sections) st in
            status_callback
              (Processed_section idx total_sections (safe_title section)) st
        in
        zip_loop env path total_sections (S idx) rest' st
  end.

(** [_create_zip_archive(output_dir)]: the state and the value returned
    ([None] or the path of the archive). [zipfile.ZipFile(zip_path, 'w')]
    creates or truncates the file when the [with] block is entered. *)
Definition _create_zip_archive (env : Env) (output_dir : string)
    (st : DocxSplitter) : DocxSplitter * option string :=
  let path := zip_path output_dir st in
  let all := section_list st in
  let st := set_files (<[path := ZipFile []]> (files st)) st in
  match zip_loop env path (length all) 1 all st with
  | (st, true) => (st, None)
  | (st, false) =>
      let st := poll (cancel_at_package_end env) st in
      if cancel_requested st then
        (status_callback Canceled_creating_archive st, None)
      else (status_callback (Created_archive path) st, Some path)
  end.

Fixpoint save_loop (env : Env) (output_dir : string) (total_sections : nat)
    (idx : nat) (rest : list Section) (st : DocxSplitter)
    : DocxSplitter * bool :=
  match rest with
  | [] => (st, false)
  | section :: rest' =>
      let st := poll (cancel_at_package env idx) st in
      if cancel_requested st then (status_callback Canceled_by_user st, true)
      else
        let st :=
          if section_raises env idx then
            status_callback (Error_processing (safe_title section)) st
          else
            let d := _create_section_document section in
            let output_file :=
              path_join output_dir (safe_title section +:+ ".docx") in
            let st := set_files (<[output_file := DocxFile d]> (files st)) st in
            let st :=
              progress_callback (percent_complete idx total_sections) st in
            status_callback
              (Processed_section idx total_sections (safe_title section)) st
        in
        save_loop env output_dir total_sections (S idx) rest' st
  end.

Definition _save_individual_files (env : Env) (output_dir : string)
    (st : DocxSplitter) : DocxSplitter * option string :=
  let all := section_list st in
  match save_loop env output_dir (length all) 1 all st with
  | (st, true) => (st, None)
  | (st, false) =>
      let st := poll (cancel_at_package_end env) st in
      if cancel_requested st then
        (status_callback Canceled_saving_files st, None)
      else
        (status_callback (Saved_documents (length all) output_dir) st,
         Some output_dir)
  end.

(** ** DocxSplitter.process_document *)

(** [None] is an exception that comes out of [parse_sections]. The file
    system is taken to accept [output_dir.mkdir] and the creation of the
    archive: runs in which these raise are not described. *)
Definition process_document (env : Env) (output_dir : string)
    (target_level : Z) (create_zip : bool) (st : DocxSplitter)
    : option (DocxSplitter * option string) :=
  st ← match sections st with
       | [] => parse_sections env target_level st
       | _ :: _ => Some st
       end;
  let st := poll (cancel_at_process env) st in
  if cancel_requested st || bool_decide (sections st = []) then
    Some (st, None)
  else
    let st := set_dirs ({[output_dir]} ∪ dirs st) st in
    Some (if create_zip then _create_zip_archive env output_dir st
          else _save_individual_files env output_dir st).

(** The progress values reported so far. *)
Definition progress_values (l : list event) : list Z :=
  omap (λ e, match e with Progress p => Some p | Status _ => None end) l.

(** A fresh splitter on a loaded document. *)
Definition new_splitter (stem : string) (styles : list Style)
    (paragraphs : list Paragraph) : DocxSplitter :=
  {| input_stem := stem; doc := paragraphs;
     heading_levels := _process_styles styles; heap := []; sections := [];
     cancel_requested := false; files := ∅; dirs := ∅; log := [] |}.

(** ** JSONToWordConverter.search_files *)

Module JSONToWordConverter.

(** [str.lower()] on one code point below 256: the letters A..Z and the
    capital letters of Latin-1 (192..222 without the multiplication sign
    215) move up by 32. *)
Definition lower_char (c : ascii) : ascii :=
  let n := nat_of_ascii c in
  if ((65 <=? n) && (n <=? 90))
     || ((192 <=? n) && (n <=? 222) && negb (n =? 215))
  then ascii_of_nat (n + 32) else c.

Definition lower (s : string) : string :=
  Str.of_chars (lower_char <$> Str.chars s).

(** [s.endswith(suffix)]. *)
Definition endswith (s suffix : string) : bool :=
  bool_decide (Str.chars suffix `suffix_of` Str.chars s).

(** [sub in s]: [sub] occurs in [s] as a substring. *)
Fixpoint contains_chars (sub l : list ascii) : bool :=
  bool_decide (sub `prefix_of` l)
  || match l with
     | [] => false
     | _ :: l' => contains_chars sub l'
     end.

Definition contains (sub s : string) : bool :=
  contains_chars (Str.chars sub) (Str.chars s).

(** [[term.lower() for term in search_string.split() if term]], where
    [search_string] is [self.search_var.get().strip()]. *)
Definition search_terms (search_var : string) : list string :=
  let search_string :=
    Str.of_chars (Str.strip Str.is_space (Str.chars search_var)) in
  lower
    <$> List.filter (λ term, negb (String.eqb term "")) (split search_string).

(** [is_match] for a file name already in lower case. *)
Definition is_match (search_terms : list string) (filename_lower : string)
    : bool :=
  match search_terms with
  | [] => true
  | _ :: _ => forallb (λ term, contains term filename_lower) search_terms
  end.

(** The two tests a file name passes to be listed. *)
Definition shown (search_var filename : string) : bool :=
  endswith (lower filename) ".json"
  && is_match (search_terms search_var) (lower filename).



End JSONToWordConverter.

(** ** DocSplitterDialog *)

Module DocSplitterDialog.

(** [get_heading_level()] on the text selected in the combobox:
    [int(heading_text.split()[-1])], and 3 when that raises. *)
Definition get_heading_level (heading_text : string) : Z :=
  default 3%Z (trailing_level heading_text).

(** What the worker thread hands to the main thread when it ends. *)
Inductive ui_call :=
  | _cleanup_canceled_operation
  | update_progress (percent : Z)
  | _show_completion_message (result_path : string) (section_count : nat)
      (heading_level : Z)
  | _show_error.

(** [_process_document_thread()]. [loaded] is the document that
    [DocxSplitter(...)] loads, [None] when the constructor raises; the
    status and progress callbacks of the splitter are its [log]. *)
Definition _process_document_thread (env : Env) (level_var : string)
    (zip_var : bool) (output_dir : string)
    (loaded : option (string * list Style * list Paragraph))
    : list ui_call :=
  let heading_level := get_heading_level level_var in
  match loaded with
  | None => [_show_error]
  | Some (stem, styles, paragraphs) =>
      let splitter := new_splitter stem styles paragraphs in
      match
        process_document env output_dir heading_level zip_var splitter
      with
      | None => [_show_error]
      | Some (_, None) => [_cleanup_canceled_operation]
      | Some (splitter, Some result_path) =>
          [update_progress 100;
           _show_completion_message result_path
             (length (sections splitter)) heading_level]
      end
  end.

End DocSplitterDialog.

(** ** Auxiliary notions of the proofs *)

(** The marks of a scan that nobody cancels. *)
Fixpoint scan_marks (heading_levels : gmap string Z) (target_level : Z)
    (paragraphs : list Paragraph) (idx : nat) (rest : list Paragraph)
    : list nat :=
  match rest with
  | [] => []
  | para :: rest' =>
      marks heading_levels target_level paragraphs idx para
      ++ scan_marks heading_levels target_level paragraphs (S idx) rest'
  end.

(** The paragraphs of [paragraphs], numbered from [k], whose number is
    not in [l]. *)
Fixpoint without (l : list nat) (k : nat) (paragraphs : list Paragraph)
    : list Paragraph :=
  match paragraphs with
  | [] => []
  | para :: rest =>
      if bool_decide (k ∈ l) then without l (S k) rest
      else para :: without l (S k) rest
  end.

(** The iterations of the partition loop when nobody cancels. *)
Fixpoint parse_steps (target_level : Z) (idx : nat) (rest : list Paragraph)
    (st : DocxSplitter) (loc : Locals) : option (DocxSplitter * Locals) :=
  match rest with
  | [] => Some (st, loc)
  | para :: rest' =>
      '(st, loc) ← parse_step target_level idx para st loc;
      parse_steps target_level (S idx) rest' st loc
  end.

(** The entries the archive loop writes for the sections [l], numbered
    from [idx]. *)
Fixpoint written (env : Env) (idx : nat) (l : list Section)
    : list (string * OutDoc) :=
  match l with
  | [] => []
  | section :: l' =>
      (if section_raises env idx then []
       else [(safe_title section +:+ ".docx",
              _create_section_document section)])
      ++ written env (S idx) l'
  end.

(** The files after the documents [entries] have been saved in the
    output directory, in order. *)
Definition saved (output_dir : string) (entries : list (string * OutDoc))
    (files : gmap string File) : gmap string File :=
  foldl (λ f e, <[path_join output_dir e.1 := DocxFile e.2]> f) files
    entries.

(** The section after the paragraphs [l] have gone to its content. *)
Definition extend_content (l : list Paragraph) (s : Section) : Section :=
  {| title := title s; safe_title := safe_title s; level := level s;
     content := content s ++ l; start_index := start_index s;
     end_index := end_index s |}.

(** What parsing never touches. *)
Definition frame (st st' : DocxSplitter) : Prop :=
  input_stem st' = input_stem st
  ∧ heading_levels st' = heading_levels st
  ∧ files st' = files st
  ∧ dirs st' = dirs st.

(** What one closing, one iteration of the partition loop keep. *)
Definition kept (st st' : DocxSplitter) : Prop :=
  frame st st' ∧ cancel_requested st' = cancel_requested st
  ∧ doc st' = doc st ∧ log st' = log st.

(** Every section object ever created, retained or discarded, has its
    name in the set of used names, and no two of them share a name. *)
Definition names_used (st : DocxSplitter) (loc : Locals) : Prop :=
  (∀ s, s ∈ heap st → safe_title s ∈ used_titles loc)
  ∧ NoDup (safe_title <$> heap st).

(** The flag is set before the partition loop reaches its first
    checkpoint: it is set when cleaning has ended, or a [cancel()] arrives
    before the first read of the flag that follows (the check of paragraph
    0, or the check after the loop when the cleaned document is empty). *)
Definition cancelled_before_partition (env : Env) (target_level : Z)
    (st : DocxSplitter) : Prop :=
  let st1 :=
    _clean_document env target_level
      (status_callback (Parsing_sections target_level) st) in
  cancel_requested st1 = true
  ∨ match doc st1 with
    | [] => cancel_at_parse_end env
    | _ :: _ => cancel_at_parse env 0
    end = true.

(** A paragraph of body text: no heading style, some text. *)
Definition is_body (heading_levels : gmap string Z) (para : Paragraph)
    : Prop :=
  get_heading_level heading_levels para = None
  ∧ Str.blank (text para) = false.

(** A blank paragraph without heading style. *)
Definition is_blank_body (heading_levels : gmap string Z) (para : Paragraph)
    : Prop :=
  get_heading_level heading_levels para = None
  ∧ Str.blank (text para) = true.

(** The open section of the partition loop is one of [self.sections] and
    a section object. *)
Definition open_listed (st : DocxSplitter) (loc : Locals) : Prop :=
  ∀ cur, current_section loc = Some cur →
    cur ∈ sections st ∧ is_Some (heap st !! cur).

(** A section of the partition of [paragraphs] at [target_level]: it has
    the target level; its title is the text, not blank, of a heading of
    the target level in the document; its name is the sanitized title or
    a candidate of it; and its content is made of paragraphs of the
    document that are no headings of the target level. *)
Definition section_of (heading_levels : gmap string Z) (target_level : Z)
    (paragraphs : list Paragraph) (s : Section) : Prop :=
  level s = target_level
  ∧ Str.blank (title s) = false
  ∧ (∃ para, para ∈ paragraphs
             ∧ get_heading_level heading_levels para = Some target_level
             ∧ text para = title s)
  ∧ (safe_title s = sanitize_filename (title s)
     ∨ ∃ j, 1 ≤ j
            ∧ safe_title s = candidate (sanitize_filename (title s)) j)
  ∧ Forall (λ para, para ∈ paragraphs
                    ∧ get_heading_level heading_levels para
                      ≠ Some target_level)
      (content s).

(** A section that was closed and kept: its end is set and its content
    has text. *)
Definition closed (s : Section) : Prop :=
  has_content s = true ∧ is_Some (end_index s).

(** [self.sections] while the partition loop runs: distinct references
    to sections of the partition, all closed but the open one, which is
    in the list. *)
Definition partitioned (heading_levels : gmap string Z) (target_level : Z)
    (paragraphs : list Paragraph) (st : DocxSplitter) (loc : Locals)
    : Prop :=
  NoDup (sections st)
  ∧ (∀ cur, current_section loc = Some cur → cur ∈ sections st)
  ∧ ∀ r, r ∈ sections st →
      ∃ s, heap st !! r = Some s
           ∧ section_of heading_levels target_level paragraphs s
           ∧ (current_section loc ≠ Some r → closed s).

(** ** Example documents *)

Definition normal_style : Style :=
  {| style_name := "Normal"; style_type := PARAGRAPH; base_style := None |}.

Definition heading3_style : Style :=
  {| style_name := "Heading 3"; style_type := PARAGRAPH;
     base_style := Some "Normal" |}.

Definition heading3 (t : string) : Paragraph :=
  {| para_style := Some "Heading 3"; text := t |}.

Definition normal (t : string) : Paragraph :=
  {| para_style := Some "Normal"; text := t |}.

Definition example_splitter (paragraphs : list Paragraph) : DocxSplitter :=
  new_splitter "input" [normal_style; heading3_style] paragraphs.

(** Two empty headings and a line of text. *)
Definition two_empty_headings : DocxSplitter :=
  example_splitter [heading3 ""; heading3 ""; normal "X"].

(** Headings A, blank, B, each followed by a line of text. *)
Definition a_blank_b : DocxSplitter :=
  example_splitter
    [heading3 "A"; normal "a"; heading3 " "; normal "e"; heading3 "B";
     normal "b"].

(** Two sections under the same title. *)
Definition same_title_twice : DocxSplitter :=
  example_splitter [heading3 "A"; normal "x"; heading3 "A"; normal "y"].

(** The same document after the other thread has called [cancel()]. *)
Definition cancelled_a_blank_b : DocxSplitter := cancel a_blank_b.

(** The blank heading right after a heading above the target level. *)
Definition heading1_style : Style :=
  {| style_name := "Heading 1"; style_type := PARAGRAPH;
     base_style := None |}.

Definition part_before_blank : DocxSplitter :=
  new_splitter "input" [normal_style; heading1_style; heading3_style]
    [heading3 "A"; normal "a";
     {| para_style := Some "Heading 1"; text := "Part" |};
     heading3 " "; normal "e"; heading3 "B"; normal "b"].

(** A document without headings. *)
Definition no_headings : DocxSplitter := example_splitter [normal "x"].

(** A splitter whose three sections are already parsed. *)
Definition three_sections : DocxSplitter :=
  let section t :=
    {| title := t; safe_title := t; level := 3; content := [normal "x"];
       start_index := 0; end_index := Some 1%Z |} in
  set_sections [0; 1; 2]
    (set_heap [section "A"; section "B"; section "C"] (example_splitter [])).

(** The other thread cancels between the first and the second section. *)
Definition cancel_at_second : Env :=
  {| cancel_at_clean := λ _, false; cancel_at_parse := λ _, false;
     cancel_at_parse_end := false; cancel_at_process := false;
     cancel_at_package := λ i, i =? 2; cancel_at_package_end := false;
     section_raises := λ _, false |}.


(** The other thread cancels right after the splitter is created. *)
Definition cancel_at_once : Env :=
  {| cancel_at_clean := λ _, true; cancel_at_parse := λ _, true;
     cancel_at_parse_end := true; cancel_at_process := true;
     cancel_at_package := λ _, true; cancel_at_package_end := true;
     section_raises := λ _, false |}.

(** * Properties *)

#[local] Arguments Nat.modulo : simpl never.

(** ** Strings *)

Lemma chars_of_chars l : Str.chars (Str.of_chars l) = l.
Proof. apply list_ascii_of_string_of_list_ascii. Qed.

Lemma of_chars_chars s : Str.of_chars (Str.chars s) = s.
Proof. apply string_of_list_ascii_of_string. Qed.

Lemma chars_app s t : Str.chars (s +:+ t) = Str.chars s ++ Str.chars t.
Proof. induction s as [|c s IH]; simpl; [done | by rewrite IH]. Qed.

Lemma chars_inj s t : Str.chars s = Str.chars t → s = t.
Proof.
  intros H. by rewrite <- (of_chars_chars s), <- (of_chars_chars t), H.
Qed.


Section strip_facts.
Variables p q : ascii → bool.
Local Abbreviation no_adj := (Str.no_adj q).
Local Abbreviation head_free := (Str.head_free p).
Local Abbreviation last_free := (Str.last_free p).

Lemma no_adj_tail c l : no_adj (c :: l) → no_adj l.
Proof. simpl. tauto. Qed.

Lemma no_adj_take n l : no_adj l → no_adj (take n l).
Proof.
  revert n. induction l as [|c l IH]; intros [|n] H; simpl; try done.
  destruct H as [H1 H2]. split; [|by apply IH].
  destruct l as [|d l]; destruct n; simpl; done.
Qed.

Lemma lstrip_Forall (Q : ascii → Prop) l :
  Forall Q l → Forall Q (Str.lstrip p l).
Proof.
  induction 1 as [|c l Hc Hl IH]; simpl; [done|].
  destruct (p c); [done | by constructor].
Qed.

Lemma lstrip_no_adj l : no_adj l → no_adj (Str.lstrip p l).
Proof.
  induction l as [|c l IH]; intros H; [done|]. simpl Str.lstrip.
  destruct (p c); [apply IH; by eapply no_adj_tail | done].
Qed.

Lemma lstrip_length l : length (Str.lstrip p l) ≤ length l.
Proof.
  induction l as [|c l IH]; simpl; [done|]. destruct (p c); simpl; lia.
Qed.

Lemma lstrip_head l : head_free (Str.lstrip p l).
Proof.
  induction l as [|c l IH]; intros d; simpl; [done|].
  destruct (p c) eqn:Hc; [apply IH|]. simpl. by intros [= <-].
Qed.

Lemma lstrip_id l : head_free l → Str.lstrip p l = l.
Proof.
  destruct l as [|c l]; [done|]. intros H. simpl.
  by rewrite (H c eq_refl).
Qed.

Lemma rstrip_cons c l :
  Str.rstrip p (c :: l) = [] ∨ Str.rstrip p (c :: l) = c :: Str.rstrip p l.
Proof.
  simpl. destruct (Str.rstrip p l); [|by right].
  destruct (p c); [by left | by right].
Qed.

Lemma rstrip_Forall (Q : ascii → Prop) l :
  Forall Q l → Forall Q (Str.rstrip p l).
Proof.
  induction 1 as [|c l Hc Hl IH]; [done|].
  destruct (rstrip_cons c l) as [-> | ->]; [done | by constructor].
Qed.

Lemma rstrip_head l c : head (Str.rstrip p l) = Some c → head l = Some c.
Proof.
  destruct l as [|d l]; [done|].
  by destruct (rstrip_cons d l) as [-> | ->].
Qed.

Lemma rstrip_no_adj l : no_adj l → no_adj (Str.rstrip p l).
Proof.
  induction l as [|c l IH]; intros H; [done|].
  destruct (rstrip_cons c l) as [-> | ->]; [done|].
  destruct H as [H1 H2]. split; [|by apply IH].
  destruct (Str.rstrip p l) as [|d r] eqn:Hr; [done|].
  assert (head l = Some d) as Hd by (apply rstrip_head; by rewrite Hr).
  destruct l as [|d' l']; simplify_eq/=. done.
Qed.

Lemma rstrip_length l : length (Str.rstrip p l) ≤ length l.
Proof.
  induction l as [|c l IH]; [done|].
  destruct (rstrip_cons c l) as [-> | ->]; simpl; lia.
Qed.

Lemma rstrip_last l : last_free (Str.rstrip p l).
Proof.
  induction l as [|c l IH]; intros d; [done|]. simpl.
  destruct (Str.rstrip p l) as [|e r] eqn:Hr.
  - destruct (p c) eqn:Hc; [done|]. simpl. by intros [= <-].
  - intros H. apply IH. by rewrite last_cons_cons in H.
Qed.

Lemma rstrip_id l : last_free l → Str.rstrip p l = l.
Proof.
  induction l as [|c l IH]; intros H; [done|]. simpl.
  destruct l as [|d l].
  - simpl. by rewrite (H c eq_refl).
  - rewrite IH; [done|]. intros e He. apply H. by rewrite last_cons_cons.
Qed.

Lemma strip_head l : head_free (Str.strip p l).
Proof. intros c Hc. eapply lstrip_head, rstrip_head, Hc. Qed.

Lemma strip_id l : head_free l → last_free l → Str.strip p l = l.
Proof. intros H1 H2. unfold Str.strip. by rewrite lstrip_id, rstrip_id. Qed.
End strip_facts.

Section sub_runs_facts.
Variables (p : ascii → bool) (r : ascii).

Lemma sub_runs_Forall (Q : ascii → Prop) b l :
  Q r → Forall Q l → Forall Q (Str.sub_runs p r b l).
Proof.
  intros Hr H. revert b. induction H as [|c l Hc Hl IH]; intros b; [done|].
  simpl. destruct (p c), b; auto.
Qed.

Lemma sub_runs_free b l :
  p r = false → Forall (λ c, p c = false) (Str.sub_runs p r b l).
Proof.
  intros Hr. revert b. induction l as [|c l IH]; intros b; [done|].
  simpl. destruct (p c) eqn:Hc, b; auto.
Qed.

Lemma sub_runs_id b l :
  Forall (λ c, p c = false) l → Str.sub_runs p r b l = l.
Proof.
  intros H. revert b. induction H as [|c l Hc Hl IH]; intros b; [done|].
  simpl. by rewrite Hc, IH.
Qed.

Lemma sub_runs_no_adj l :
  (Str.no_adj p (Str.sub_runs p r true l)
   ∧ Str.head_free p (Str.sub_runs p r true l))
  ∧ Str.no_adj p (Str.sub_runs p r false l).
Proof.
  induction l as [|c l [[IH1 IH2] IH3]]; [by repeat split|].
  simpl. destruct (p c) eqn:Hc.
  - repeat split; try done.
    destruct (Str.sub_runs p r true l) as [|d k] eqn:Hk; [done|].
    intros [_ Hd]. by rewrite (IH2 d eq_refl) in Hd.
  - assert (Str.no_adj p (c :: Str.sub_runs p r false l)) as H.
    { split; [|done]. destruct (Str.sub_runs p r false l); [done|].
      intros [? _]; congruence. }
    repeat split; try apply H. by intros d [= <-].
Qed.

Lemma sub_runs_id_no_adj l :
  (∀ c, p c = true → c = r) → Str.no_adj p l →
  (Str.head_free p l → Str.sub_runs p r true l = l)
  ∧ Str.sub_runs p r false l = l.
Proof.
  intros Hp. induction l as [|c l IH]; intros H; [done|].
  destruct H as [H1 H2]. destruct (IH H2) as [IHt IHf]. simpl.
  destruct (p c) eqn:Hc.
  - split; [intros Hh; by rewrite (Hh c eq_refl) in Hc|].
    rewrite (Hp c Hc). f_equal. apply IHt.
    intros d Hd. destruct l as [|d' l]; simplify_eq/=.
    destruct (p d) eqn:Hpd; [|done]. by destruct H1.
  - by rewrite IHf.
Qed.
End sub_runs_facts.

Lemma delete_chars_free p l :
  Forall (λ c, p c = false) (Str.delete_chars p l).
Proof.
  induction l as [|c l IH]; simpl; [done|].
  destruct (p c) eqn:Hc; simpl; [done | by constructor].
Qed.

Lemma delete_chars_id p l :
  Forall (λ c, p c = false) l → Str.delete_chars p l = l.
Proof.
  induction 1 as [|c l Hc Hl IH]; simpl; [done|]. by rewrite Hc, IH.
Qed.

(** ** FilenameManager.sanitize_filename *)

Lemma slice_to_nat (n : nat) l : Str.slice_to (Z.of_nat n) l = take n l.
Proof.
  unfold Str.slice_to. rewrite (proj2 (Z.ltb_ge _ _)) by lia.
  by rewrite Nat2Z.id.
Qed.

Lemma slice_to_take (n : Z) l : ∃ k, Str.slice_to n l = take k l.
Proof. unfold Str.slice_to. case_match; by eexists. Qed.

Lemma sanitize_chars_sanitized (n : nat) l :
  sanitized n (sanitize_chars (Z.of_nat n) l).
Proof.
  unfold sanitize_chars. rewrite slice_to_nat.
  set (l1 := Str.delete_chars invalid_char l).
  set (l2 := Str.sub_runs Str.is_space "_" false l1).
  set (l3 := Str.sub_runs is_dot "." false l2).
  assert (Forall (λ c, invalid_char c = false) l3) as Hv.
  { apply sub_runs_Forall; [done|]. apply sub_runs_Forall; [done|].
    apply delete_chars_free. }
  assert (Forall (λ c, Str.is_space c = false) l3) as Hs.
  { apply sub_runs_Forall; [done|]. by apply sub_runs_free. }
  assert (Str.no_adj is_dot l3) as Hd by apply sub_runs_no_adj.
  unfold Str.strip. split.
  - by apply rstrip_Forall, lstrip_Forall, Forall_take.
  - by apply rstrip_Forall, lstrip_Forall, Forall_take.
  - by apply rstrip_no_adj, lstrip_no_adj, no_adj_take.
  - etrans; [apply rstrip_length|]. etrans; [apply lstrip_length|].
    rewrite length_take. lia.
  - apply strip_head.
  - apply rstrip_last.
Qed.

Lemma sanitize_chars_fixed (n : nat) l :
  sanitized n l → sanitize_chars (Z.of_nat n) l = l.
Proof.
  intros [Hv Hs Hd Hn Hh Hl]. unfold sanitize_chars. rewrite slice_to_nat.
  rewrite delete_chars_id by done.
  rewrite (sub_runs_id Str.is_space) by done.
  rewrite (proj2 (sub_runs_id_no_adj is_dot "." l
                    (λ c H, proj1 (Ascii.eqb_eq _ _) H) Hd)).
  rewrite take_ge by done. by apply strip_id.
Qed.

Lemma invalid_char_spec c : invalid_char c = true ↔ c ∈ invalid_chars.
Proof.
  unfold invalid_char. rewrite existsb_exists. split.
  - intros (d & Hd & Heq). apply Ascii.eqb_eq in Heq as ->.
    by apply list_elem_of_In.
  - intros H. exists c. split; [by apply list_elem_of_In|].
    apply Ascii.eqb_refl.
Qed.

Lemma edge_char_spec c :
  edge_char c = false ↔ c ≠ "."%char ∧ c ≠ "_"%char.
Proof.
  unfold edge_char. rewrite orb_false_iff, !Ascii.eqb_neq. done.
Qed.

(** C6. [sanitize_filename] (default [max_length]) is idempotent; its
    result contains none of the nine forbidden characters, and neither its
    first nor its last character is a dot or an underscore. *)
Theorem sanitize_filename_idempotent (x : string) :
  sanitize_filename (sanitize_filename x) = sanitize_filename x
  ∧ (∀ c, c ∈ invalid_chars → c ∉ Str.chars (sanitize_filename x))
  ∧ (∀ c, head (Str.chars (sanitize_filename x)) = Some c →
          c ≠ "."%char ∧ c ≠ "_"%char)
  ∧ (∀ c, last (Str.chars (sanitize_filename x)) = Some c →
          c ≠ "."%char ∧ c ≠ "_"%char).
Proof.
  unfold sanitize_filename, sanitize_filename_len.
  change 240%Z with (Z.of_nat 240). rewrite !chars_of_chars.
  pose proof (sanitize_chars_sanitized 240 (Str.chars x)) as Hs.
  split; [by rewrite sanitize_chars_fixed|].
  destruct Hs as [Hv _ _ _ Hh Hl]. split; [|split].
  - intros c Hc Hin. rewrite Forall_forall in Hv.
    apply invalid_char_spec in Hc. by rewrite (Hv c Hin) in Hc.
  - intros c Hc. by apply edge_char_spec, Hh.
  - intros c Hc. by apply edge_char_spec, Hl.
Qed.

(** ** FilenameManager.ensure_unique *)

Lemma rsplit_last_spec sep l h t :
  rsplit_last sep l = Some (h, t) → l = h ++ sep :: t.
Proof.
  revert h t. induction l as [|c l IH]; intros h t; simpl; [done|].
  destruct (rsplit_last sep l) as [[h' t']|].
  - intros [= <- <-]. simpl. f_equal. by apply IH.
  - destruct (Ascii.eqb c sep) eqn:Hc; [|done].
    apply Ascii.eqb_eq in Hc as ->. by intros [= <- <-].
Qed.

(** The characters of a candidate: a middle part is inserted into the
    name, or appended to it. *)
Lemma candidate_chars base counter :
  ∃ h t, Str.chars base = h ++ t
    ∧ Str.chars (candidate base counter)
      = h ++ "_"%char :: Str.chars (pretty counter) ++ t.
Proof.
  unfold candidate, rsplit1.
  destruct (rsplit_last "." (Str.chars base)) as [[h t]|] eqn:Hs.
  - exists h, ("."%char :: t). split; [by apply rsplit_last_spec|].
    by rewrite !chars_app, !chars_of_chars.
  - exists (Str.chars base), []. split; [by rewrite app_nil_r|].
    by rewrite !chars_app, app_nil_r.
Qed.

Lemma candidate_ne_base base counter : candidate base counter ≠ base.
Proof.
  intros Heq. destruct (candidate_chars base counter) as (h & t & H1 & H2).
  rewrite Heq, H1 in H2. apply (f_equal length) in H2.
  rewrite !length_app in H2. simpl in H2. rewrite length_app in H2. lia.
Qed.

Lemma candidate_inj base i j : candidate base i = candidate base j → i = j.
Proof.
  intros Heq.
  destruct (candidate_chars base i) as (h & t & H1 & H2).
  destruct (candidate_chars base j) as (h' & t' & H1' & H2').
  unfold candidate, rsplit1 in *.
  destruct (rsplit_last "." (Str.chars base)) as [[h0 t0]|] eqn:Hs.
  - apply (f_equal Str.chars) in Heq.
    rewrite !chars_app, !chars_of_chars in Heq.
    apply app_inv_head in Heq. injection Heq as Heq.
    apply app_inv_tail in Heq. by apply chars_inj, (inj pretty) in Heq.
  - apply (f_equal Str.chars) in Heq. rewrite !chars_app in Heq.
    apply app_inv_head in Heq. injection Heq as Heq.
    by apply chars_inj, (inj pretty) in Heq.
Qed.

(** The loop ends: [T] collects the names tried so far, all of them in
    [used]. *)
Lemma ensure_unique_loop_total_aux base used fuel :
  ∀ counter filename (T : gset string),
    T ⊆ used → filename ∉ T →
    (∀ j, counter ≤ j → candidate base j ∉ T) →
    (∀ j, counter ≤ j → candidate base j ≠ filename) →
    size used ≤ fuel + size T →
    is_Some (ensure_unique_loop fuel base counter filename used).
Proof.
  induction fuel as [|fuel IH]; intros counter filename T HT Hf Hc Hne Hsz;
    simpl; destruct (decide (filename ∈ used)) as [Hin|Hin]; try by eexists.
  - exfalso.
    assert (size ({[filename]} ∪ T) ≤ size used) as Hle
      by (apply subseteq_size; set_solver).
    rewrite size_union, size_singleton in Hle by set_solver. lia.
  - apply (IH _ _ ({[filename]} ∪ T)).
    + set_solver.
    + intros [H%elem_of_singleton|H]%elem_of_union.
      * by apply (Hne counter).
      * by apply (Hc counter).
    + intros j Hj [H%elem_of_singleton|H]%elem_of_union.
      * apply (Hne j); [lia | done].
      * apply (Hc j); [lia | done].
    + intros j Hj H%candidate_inj. lia.
    + rewrite size_union, size_singleton by set_solver. lia.
Qed.

Lemma ensure_unique_loop_total filename used :
  is_Some (ensure_unique_loop (S (size used)) filename 1 filename used).
Proof.
  apply (ensure_unique_loop_total_aux _ _ _ _ _ ∅).
  - set_solver.
  - set_solver.
  - set_solver.
  - intros j _. apply candidate_ne_base.
  - lia.
Qed.

Lemma ensure_unique_total filename used :
  is_Some (ensure_unique filename used).
Proof.
  unfold ensure_unique.
  destruct (ensure_unique_loop_total filename used) as [name ->].
  by eexists.
Qed.

(** What the loop returns: the first name of the sequence [filename],
    [candidate base counter], [candidate base (counter + 1)], ... that is
    not in [used]. *)
Lemma ensure_unique_loop_spec base used fuel :
  ∀ counter filename name,
    ensure_unique_loop fuel base counter filename used = Some name →
    name ∉ used
    ∧ (name = filename
       ∨ filename ∈ used
         ∧ ∃ j, counter ≤ j ∧ name = candidate base j
                ∧ ∀ i, counter ≤ i < j → candidate base i ∈ used).
Proof.
  induction fuel as [|fuel IH]; intros counter filename name; simpl;
    destruct (decide (filename ∈ used)) as [Hin|Hin]; try done;
    try (intros [= <-]; by auto).
  intros H. destruct (IH _ _ _ H) as [Hn [->|(Hc & j & Hj & -> & Hall)]].
  - split; [done|]. right. split; [done|]. exists counter.
    split; [lia|]. split; [done|]. intros i Hi. lia.
  - split; [done|]. right. split; [done|]. exists j.
    split; [lia|]. split; [done|]. intros i Hi.
    destruct (decide (i = counter)) as [->|]; [done|]. apply Hall. lia.
Qed.

Lemma ensure_unique_fresh filename used :
  filename ∉ used →
  ensure_unique filename used = Some (filename, {[filename]} ∪ used).
Proof.
  intros H. unfold ensure_unique. simpl.
  by destruct (decide (filename ∈ used)).
Qed.

(** The set after the first call and [k] more of them. *)
Lemma ensure_unique_next base k :
  ensure_unique base (used_after base k)
  = Some (candidate base (S k), used_after base (S k)).
Proof.
  assert (∀ i, candidate base i ∈ used_after base k ↔ 1 ≤ i ≤ k) as Hmem.
  { intros i. unfold used_after.
    rewrite elem_of_union, elem_of_singleton, elem_of_list_to_set,
      list_elem_of_fmap.
    split.
    - intros [H|(j & H%candidate_inj & Hj%elem_of_seq)].
      + by apply candidate_ne_base in H.
      + lia.
    - intros Hi. right. exists i. split; [done|]. apply elem_of_seq. lia. }
  unfold ensure_unique.
  destruct (ensure_unique_loop_total base (used_after base k)) as [name Hn].
  rewrite Hn. simpl.
  destruct (ensure_unique_loop_spec _ _ _ _ _ _ Hn)
    as [Hnot [->|(_ & j & Hj & -> & Hall)]].
  { exfalso. apply Hnot. unfold used_after. set_solver. }
  assert (j = S k) as ->.
  { destruct (decide (j ≤ k)) as [Hle|Hgt].
    - exfalso. apply Hnot, Hmem. lia.
    - destruct (decide (j = S k)) as [|Hne]; [done|]. exfalso.
      assert (candidate base (S k) ∈ used_after base k) as H
        by (apply Hall; lia).
      apply Hmem in H. lia. }
  do 2 f_equal. unfold used_after.
  rewrite seq_S, fmap_app, list_to_set_app_L. simpl. set_solver.
Qed.

Lemma ensure_unique_calls_next base n :
  ∀ k, ensure_unique_calls n base (used_after base k)
       = Some (candidate base <$> seq (S k) n, used_after base (k + n)).
Proof.
  induction n as [|n IH]; intros k; simpl.
  - by rewrite Nat.add_0_r.
  - rewrite ensure_unique_next. simpl. rewrite IH. simpl.
    by rewrite Nat.add_succ_r.
Qed.

Lemma ensure_unique_calls_first base m :
  ensure_unique_calls (S m) base ∅
  = Some (base :: (candidate base <$> seq 1 m), used_after base m).
Proof.
  simpl. rewrite ensure_unique_fresh by set_solver. simpl.
  replace ({[base]} ∪ ∅ : gset string) with (used_after base 0)
    by (unfold used_after; set_solver).
  by rewrite ensure_unique_calls_next.
Qed.

(** C7. [N >= 1] successive calls of [ensure_unique] with one name on a
    shared, initially empty set return [N] pairwise distinct names,
    exactly one of them the name itself, all of them in the set
    afterwards. *)
Theorem ensure_unique_calls_distinct (n : nat) (base : string) :
  1 ≤ n →
  ∃ names used,
    ensure_unique_calls n base ∅ = Some (names, used)
    ∧ length names = n
    ∧ NoDup names
    ∧ length (filter (λ x, x = base) names) = 1
    ∧ ∀ x, x ∈ names → x ∈ used.
Proof.
  intros Hn. destruct n as [|m]; [lia|].
  exists (base :: (candidate base <$> seq 1 m)), (used_after base m).
  split; [apply ensure_unique_calls_first|].
  assert (base ∉ candidate base <$> seq 1 m) as Hbase.
  { intros (j & H & _)%list_elem_of_fmap. symmetry in H.
    by apply candidate_ne_base in H. }
  split; [|split; [|split]].
  - simpl. by rewrite length_fmap, length_seq.
  - constructor; [done|]. apply NoDup_fmap_2_strong; [|apply NoDup_seq].
    intros i j _ _. apply candidate_inj.
  - rewrite filter_cons_True by done. simpl. f_equal.
    apply length_zero_iff_nil. induction (candidate base <$> seq 1 m)
      as [|x l IH]; [done|].
    apply not_elem_of_cons in Hbase as [Hx Hl].
    rewrite filter_cons_False by done. by apply IH.
  - intros x [->|(j & -> & Hj%elem_of_seq)%list_elem_of_fmap]%elem_of_cons;
      unfold used_after.
    + set_solver.
    + apply elem_of_union_r, elem_of_list_to_set, list_elem_of_fmap.
      exists j. split; [done|]. by apply elem_of_seq.
Qed.

Lemma ensure_unique_calls_distinct_witness :
  1 ≤ 3 ∧
  ∃ names used,
    ensure_unique_calls 3 "report.docx" ∅ = Some (names, used)
    ∧ length names = 3
    ∧ NoDup names
    ∧ length (filter (λ x, x = "report.docx") names) = 1
    ∧ ∀ x, x ∈ names → x ∈ used.
Proof.
  split; [lia|]. apply (ensure_unique_calls_distinct 3 "report.docx"). lia.
Defined.

(** ** StyleProcessor._process_styles *)

Lemma digit_value_range c d :
  digit_value c = Some d → 48 ≤ nat_of_ascii c ≤ 57.
Proof.
  unfold digit_value.
  destruct (Nat.leb_spec 48 (nat_of_ascii c)),
    (Nat.leb_spec (nat_of_ascii c) 57); simpl; intros; simplify_eq; lia.
Qed.

Lemma digit_not_space c d : digit_value c = Some d → Str.is_space c = false.
Proof.
  intros H%digit_value_range. unfold Str.is_space. cbv zeta.
  repeat match goal with
         | |- context [?a <=? ?b] => destruct (Nat.leb_spec a b)
         | |- context [?a =? ?b] => destruct (Nat.eqb_spec a b)
         end; simpl; try done; lia.
Qed.

Lemma digit_not_sign c d :
  digit_value c = Some d →
  Ascii.eqb c "-"%char = false ∧ Ascii.eqb c "+"%char = false.
Proof.
  intros H%digit_value_range.
  split; apply Ascii.eqb_neq; intros ->; vm_compute in H; lia.
Qed.

Lemma pretty_N_char_digit n :
  (n < 10)%N → digit_value (pretty_N_char n) = Some (Z.of_N n).
Proof.
  intros Hn.
  assert (n = 0 ∨ n = 1 ∨ n = 2 ∨ n = 3 ∨ n = 4 ∨ n = 5 ∨ n = 6 ∨ n = 7
          ∨ n = 8 ∨ n = 9)%N as H by lia.
  destruct_or!; subst; done.
Qed.

(** The digits [pretty_N_go] puts before [s] are read back by
    [int_digits]. *)
Lemma pretty_N_go_digits x :
  ∀ s, ∃ d,
    Str.chars (pretty_N_go x s) = d ++ Str.chars s
    ∧ Forall (λ c, is_Some (digit_value c)) d
    ∧ ((0 < x)%N → d ≠ [])
    ∧ ∀ acc b rest,
        int_digits acc b (d ++ rest)
        = int_digits (acc * 10 ^ Z.of_nat (length d) + Z.of_N x)%Z
            (match d with [] => b | _ :: _ => true end) rest.
Proof.
  induction (N.lt_wf_0 x) as [x _ IH]; intros s.
  assert (x = 0 ∨ 0 < x)%N as [->|Hx] by lia.
  { exists []. rewrite pretty_N_go_0. split; [done|]. split; [done|].
    split; [lia|]. intros acc b rest. simpl. f_equal. lia. }
  rewrite pretty_N_go_step by done.
  destruct (IH (x `div` 10)%N (N.div_lt x 10 Hx eq_refl)
              (String (pretty_N_char (x `mod` 10)) s))
    as (d & Hd & Hall & _ & Hint).
  assert (digit_value (pretty_N_char (x `mod` 10))
          = Some (Z.of_N (x `mod` 10))) as Hc
    by (apply pretty_N_char_digit, N.mod_lt; lia).
  exists (d ++ [pretty_N_char (x `mod` 10)]). split; [|split; [|split]].
  - rewrite Hd. simpl. by rewrite <- app_assoc.
  - apply Forall_app. split; [done|]. constructor; [by eexists | done].
  - intros _. by destruct d.
  - intros acc b rest. rewrite <- app_assoc. simpl. rewrite Hint. simpl.
    rewrite Hc. rewrite length_app. simpl.
    replace (Z.of_nat (length d + 1)) with (Z.succ (Z.of_nat (length d)))
      by lia.
    rewrite Z.pow_succ_r by lia.
    pose proof (N.div_mod x 10 ltac:(done)) as Hdm.
    destruct (d ++ [pretty_N_char (x `mod` 10)]) eqn:Hnil;
      [by destruct d|].
    f_equal. lia.
Qed.

Lemma pretty_positive_digits (k : positive) :
  ∃ c d, Str.chars (pretty k) = c :: d
    ∧ Forall (λ c, is_Some (digit_value c)) (c :: d)
    ∧ int_digits 0 false (c :: d) = Some (Z.pos k).
Proof.
  unfold pretty, pretty_positive, pretty, pretty_N.
  destruct (decide (N.pos k = 0%N)) as [|_]; [done|].
  destruct (pretty_N_go_digits (N.pos k) "") as (d & Hd & Hall & Hne & Hint).
  simpl in Hd. rewrite app_nil_r in Hd.
  destruct d as [|c d]; [by destruct Hne|].
  exists c, d. split; [done|]. split; [done|].
  specialize (Hint 0%Z false []). rewrite app_nil_r in Hint.
  rewrite Hint. simpl. f_equal.
Qed.

Lemma split_go_word w l :
  Forall (λ c, Str.is_space c = false) l →
  split_go (Some w) l = [w ++ l].
Proof.
  intros H. revert w. induction H as [|c l Hc Hl IH]; intros w; simpl.
  - by rewrite app_nil_r.
  - rewrite Hc, IH. by rewrite <- app_assoc.
Qed.

Lemma strip_space_id l :
  Forall (λ c, Str.is_space c = false) l → Str.strip Str.is_space l = l.
Proof.
  intros H. apply strip_id.
  - intros c Hc. destruct l; simplify_eq/=. by inversion H.
  - intros c Hc%last_Some. destruct Hc as [l' ->].
    apply Forall_app in H as [_ H]. by inversion H.
Qed.

(** [int(name.split()[-1])] on the name of a built-in heading style. *)
Lemma trailing_level_heading (k : positive) :
  trailing_level ("Heading " +:+ pretty k) = Some (Z.pos k).
Proof.
  destruct (pretty_positive_digits k) as (c & d & Hk & Hall & Hint).
  assert (Forall (λ c, Str.is_space c = false) (c :: d)) as Hsp.
  { eapply Forall_impl; [exact Hall|]. intros x [v Hv].
    by eapply digit_not_space. }
  unfold trailing_level, split. rewrite chars_app, Hk.
  assert (Str.is_space c = false) as Hc by (by inversion Hsp).
  simpl. rewrite Hc. rewrite split_go_word by (by inversion Hsp).
  simpl. unfold int.
  change (String c (Str.of_chars d)) with (Str.of_chars (c :: d)).
  rewrite chars_of_chars.
  rewrite (strip_space_id (c :: d)) by done.
  inversion Hall as [|? ? [v Hv] _]; subst.
  destruct (digit_not_sign _ _ Hv) as [-> ->]. done.
Qed.

Lemma prefix_heading s : String.prefix "Heading " ("Heading " +:+ s) = true.
Proof. simpl. by destruct s. Qed.

Lemma process_style_other heading_levels style name :
  style_name style ≠ name →
  process_style heading_levels style !! name = heading_levels !! name.
Proof.
  intros Hne. unfold process_style.
  repeat (case_match; try done); by rewrite lookup_insert_ne.
Qed.

Lemma process_styles_other styles name :
  ∀ heading_levels,
    Forall (λ s, style_name s ≠ name) styles →
    foldl process_style heading_levels styles !! name
    = heading_levels !! name.
Proof.
  induction styles as [|s styles IH]; intros m Hall; [done|].
  inversion Hall; subst. simpl. rewrite IH by done.
  by apply process_style_other.
Qed.

(** With unique style names, the entry of a style is the one its own
    iteration leaves. *)
Lemma process_styles_lookup styles style :
  NoDup (style_name <$> styles) → style ∈ styles →
  ∃ heading_levels,
    heading_levels !! style_name style = None
    ∧ _process_styles styles !! style_name style
      = process_style heading_levels style !! style_name style.
Proof.
  intros Hnd (l1 & l2 & ->)%list_elem_of_split.
  rewrite fmap_app, fmap_cons in Hnd.
  apply NoDup_app in Hnd as (_ & H1 & H2%NoDup_cons_1_1).
  assert (Forall (λ s, style_name s ≠ style_name style) l1) as Hl1.
  { apply Forall_forall. intros s Hs Heq. apply (H1 (style_name s)).
    - apply list_elem_of_fmap. by exists s.
    - rewrite Heq. left. }
  assert (Forall (λ s, style_name s ≠ style_name style) l2) as Hl2.
  { apply Forall_forall. intros s Hs Heq. apply H2.
    apply list_elem_of_fmap. by exists s. }
  exists (foldl process_style ∅ l1). split.
  - by rewrite process_styles_other.
  - unfold _process_styles. rewrite foldl_app. simpl.
    by rewrite process_styles_other.
Qed.

(** C4, as the code has it. Among styles with unique names, a paragraph
    style whose name does not begin with [Heading ] and whose base style
    is named [Heading k] gets level [k]; a paragraph style whose name
    begins with [Heading ] but does not end in an integer gets no entry,
    whatever its base style. *)
Theorem process_styles_inherits (styles : list Style) (style : Style) :
  NoDup (style_name <$> styles) → style ∈ styles →
  style_type style = PARAGRAPH →
  (∀ k : positive,
     String.prefix "Heading " (style_name style) = false →
     base_style style = Some ("Heading " +:+ pretty k) →
     _process_styles styles !! style_name style = Some (Z.pos k))
  ∧ (String.prefix "Heading " (style_name style) = true →
     trailing_level (style_name style) = None →
     _process_styles styles !! style_name style = None).
Proof.
  intros Hnd Hin Hty.
  destruct (process_styles_lookup styles style Hnd Hin) as (m & Hm & ->).
  unfold process_style. rewrite Hty.
  destruct (decide (PARAGRAPH ≠ PARAGRAPH)) as [?|_]; [done|]. split.
  - intros k -> ->. rewrite prefix_heading, trailing_level_heading.
    by rewrite lookup_insert_eq.
  - by intros -> ->.
Qed.

Lemma process_styles_inherits_witness :
  _process_styles [heading2; block_title] !! "Block Title" = Some 2%Z.
Proof.
  refine (proj1 (process_styles_inherits [heading2; block_title] block_title
                   _ _ eq_refl) 2%positive eq_refl eq_refl).
  - by apply (bool_decide_unpack _).
  - repeat constructor.
Defined.

(** C4 fails as stated: the style [Heading A] does not match
    [Heading <integer>] and its base style is [Heading 2], but it gets no
    level. *)
Lemma process_styles_heading_a_skipped :
  style_type heading_a = PARAGRAPH
  ∧ trailing_level (style_name heading_a) = None
  ∧ base_style heading_a = Some ("Heading " +:+ pretty 2%positive)
  ∧ _process_styles [heading2; heading_a] !! style_name heading_a
    ≠ Some 2%Z.
Proof. repeat split. by vm_compute. Qed.

(** ** DocxSplitter._clean_document *)

(** C3 fails on the code. In the document of two empty headings followed
    by the line X, index 1 is marked twice; the second removal at index 1
    deletes X, which is outside the marked set. *)
Lemma clean_document_removes_unmarked :
  spec_marked (heading_levels two_empty_headings) 3
    (doc two_empty_headings) 2 = false
  ∧ spec_clean (heading_levels two_empty_headings) 3
      (doc two_empty_headings) = [normal "X"]
  ∧ scan_marks (heading_levels two_empty_headings) 3
      (doc two_empty_headings) 0 (doc two_empty_headings) = [0; 1; 1]
  ∧ doc (_clean_document quiet 3 two_empty_headings) = [].
Proof. repeat split; by vm_compute. Qed.

(** ** Packaging: progress and cancellation *)

Lemma progress_values_app l k :
  progress_values (l ++ k) = progress_values l ++ progress_values k.
Proof. apply omap_app. Qed.

Lemma progress_values_poll b st :
  progress_values (log (poll b st)) = progress_values (log st).
Proof.
  destruct b; [|done]. simpl. rewrite progress_values_app. simpl.
  by rewrite app_nil_r.
Qed.

Lemma log_archive_write path entry st :
  log (archive_write path entry st) = log st.
Proof. unfold archive_write. by repeat case_match. Qed.

Lemma cancel_requested_archive_write path entry st :
  cancel_requested (archive_write path entry st) = cancel_requested st.
Proof. unfold archive_write. by repeat case_match. Qed.

Lemma zip_loop_progress env path total rest :
  ∀ idx st,
    ∃ k, k ≤ length rest
      ∧ progress_values (log (zip_loop env path total idx rest st).1)
        = progress_values (log st)
          ++ ((λ i, percent_complete i total)
                <$> filter (λ i, section_raises env i = false) (seq idx k))
      ∧ ((zip_loop env path total idx rest st).2 = false → k = length rest).
Proof.
  induction rest as [|section rest IH]; intros idx st; simpl.
  { exists 0. simpl. by rewrite app_nil_r. }
  destruct (cancel_requested (poll (cancel_at_package env idx) st)) eqn:Hc.
  { exists 0. simpl. split; [lia|]. split; [|done].
    rewrite progress_values_app, progress_values_poll. done. }
  destruct (section_raises env idx) eqn:Hraise.
  - destruct (IH (S idx)
                (status_callback (Error_processing (safe_title section))
                   (poll (cancel_at_package env idx) st)))
      as (k & Hk & Hlog & Hend).
    exists (S k). split; [lia|]. split; [|intros H; f_equal; auto].
    rewrite Hlog. cbn [seq].
    rewrite filter_cons_False by (by rewrite Hraise). simpl.
    by rewrite progress_values_app, progress_values_poll, app_nil_r.
  - match goal with
    | |- context [?loop _ _ total (S idx) _ ?st2] =>
        destruct (IH (S idx) st2) as (k & Hk & Hlog & Hend)
    end.
    exists (S k). split; [lia|]. split; [|intros H; f_equal; auto].
    rewrite Hlog. cbn [seq]. rewrite filter_cons_True by done. simpl.
    rewrite !progress_values_app, ?log_archive_write, progress_values_poll.
    simpl. by rewrite app_nil_r, <- app_assoc.
Qed.

Lemma save_loop_progress env output_dir total rest :
  ∀ idx st,
    ∃ k, k ≤ length rest
      ∧ progress_values (log (save_loop env output_dir total idx rest st).1)
        = progress_values (log st)
          ++ ((λ i, percent_complete i total)
                <$> filter (λ i, section_raises env i = false) (seq idx k))
      ∧ ((save_loop env output_dir total idx rest st).2 = false
         → k = length rest).
Proof.
  induction rest as [|section rest IH]; intros idx st; simpl.
  { exists 0. simpl. by rewrite app_nil_r. }
  destruct (cancel_requested (poll (cancel_at_package env idx) st)) eqn:Hc.
  { exists 0. simpl. split; [lia|]. split; [|done].
    rewrite progress_values_app, progress_values_poll. done. }
  destruct (section_raises env idx) eqn:Hraise.
  - destruct (IH (S idx)
                (status_callback (Error_processing (safe_title section))
                   (poll (cancel_at_package env idx) st)))
      as (k & Hk & Hlog & Hend).
    exists (S k). split; [lia|]. split; [|intros H; f_equal; auto].
    rewrite Hlog. cbn [seq].
    rewrite filter_cons_False by (by rewrite Hraise). simpl.
    by rewrite progress_values_app, progress_values_poll, app_nil_r.
  - match goal with
    | |- context [?loop _ _ total (S idx) _ ?st2] =>
        destruct (IH (S idx) st2) as (k & Hk & Hlog & Hend)
    end.
    exists (S k). split; [lia|]. split; [|intros H; f_equal; auto].
    rewrite Hlog. cbn [seq]. rewrite filter_cons_True by done. simpl.
    rewrite !progress_values_app, ?log_archive_write, progress_values_poll.
    simpl. by rewrite app_nil_r, <- app_assoc.
Qed.

(** C5, as the code has it. In both modes the progress values reported
    are [int((idx / total) * 100)], truncated and not rounded, for the
    sections that were processed without an exception, in order: those of
    the first [k] sections, with [k] the number of sections when the run
    is not cancelled. *)
Theorem progress_is_truncated_percentage (env : Env) (output_dir : string)
    (st : DocxSplitter) :
  let total := length (section_list st) in
  let reported k :=
    progress_values (log st)
    ++ ((λ i, percent_complete i total)
          <$> filter (λ i, section_raises env i = false) (seq 1 k)) in
  (∃ k, k ≤ total
     ∧ progress_values (log (_create_zip_archive env output_dir st).1)
       = reported k
     ∧ ((_create_zip_archive env output_dir st).2 ≠ None → k = total))
  ∧ (∃ k, k ≤ total
       ∧ progress_values (log (_save_individual_files env output_dir st).1)
         = reported k
       ∧ ((_save_individual_files env output_dir st).2 ≠ None → k = total)).
Proof.
  intros total reported. split.
  - unfold _create_zip_archive.
    destruct (zip_loop_progress env (zip_path output_dir st) total
                (section_list st) 1
                (set_files (<[zip_path output_dir st:=ZipFile []]> (files st))
                   st)) as (k & Hk & Hlog & Hend).
    fold total.
    destruct (zip_loop env _ total 1 (section_list st) _) as [st' c].
    simpl in Hlog, Hend. exists k. split; [done|].
    destruct c; simpl; [done|]. split; [|by auto].
    destruct (cancel_requested (poll (cancel_at_package_end env) st'));
      simpl; by rewrite progress_values_app, progress_values_poll, app_nil_r.
  - unfold _save_individual_files.
    destruct (save_loop_progress env output_dir total (section_list st) 1 st)
      as (k & Hk & Hlog & Hend).
    fold total.
    destruct (save_loop env _ total 1 (section_list st) _) as [st' c].
    simpl in Hlog, Hend. exists k. split; [done|].
    destruct c; simpl; [done|]. split; [|by auto].
    destruct (cancel_requested (poll (cancel_at_package_end env) st'));
      simpl; by rewrite progress_values_app, progress_values_poll, app_nil_r.
Qed.

(** C5 fails as stated: with three sections the value reported after the
    second one is 66 in both modes, and [round(2 / 3 * 100)] is 67. *)
Lemma progress_not_rounded :
  progress_values (log (_create_zip_archive quiet "out" three_sections).1)
  = [33; 66; 100]%Z
  ∧ progress_values (log (_save_individual_files quiet "out" three_sections).1)
    = [33; 66; 100]%Z
  ∧ spec_percent 2 3 = 67%Z
  ∧ percent_complete 2 3 ≠ spec_percent 2 3.
Proof. repeat split; by vm_compute. Qed.

Lemma poll_false st : poll false st = st.
Proof. done. Qed.

(** The archive loop up to a checkpoint that sees the flag set: the
    entries written so far stay in the file at [path]. *)
Lemma zip_loop_cancelled env path total k :
  ∀ rest idx st entries,
    files st !! path = Some (ZipFile entries) →
    cancel_requested st = false →
    (∀ i, idx ≤ i < idx + k → cancel_at_package env i = false) →
    cancel_at_package env (idx + k) = true →
    k < length rest →
    (zip_loop env path total idx rest st).2 = true
    ∧ files (zip_loop env path total idx rest st).1 !! path
      = Some (ZipFile (entries ++ written env idx (take k rest))).
Proof.
  induction k as [|k IH]; intros rest idx st entries Hf Hc Hno Hyes Hlen;
    destruct rest as [|section rest]; simpl in Hlen; try lia; simpl.
  - rewrite Nat.add_0_r in Hyes. rewrite Hyes. simpl.
    by rewrite app_nil_r.
  - rewrite (Hno idx) by lia. rewrite poll_false, Hc.
    replace (idx + S k) with (S idx + k) in Hyes by lia.
    destruct (section_raises env idx) eqn:Hraise.
    + apply IH; [done | done | | done | lia]. intros i Hi. apply Hno. lia.
    + simpl. rewrite cons_middle, app_assoc. apply IH.
      * simpl. unfold archive_write. rewrite Hf. simpl.
        by rewrite lookup_insert_eq.
      * simpl. by rewrite cancel_requested_archive_write.
      * intros i Hi. apply Hno. lia.
      * done.
      * lia.
Qed.

(** C2, as the code has it. When the flag is first seen at the checkpoint
    that follows [k] sections, archive packaging returns [None] and the
    archive file is at its final path, holding the entries written before
    that checkpoint. *)
Theorem create_zip_archive_cancelled (env : Env) (output_dir : string)
    (st : DocxSplitter) (k : nat) :
  cancel_requested st = false →
  (∀ i, 1 ≤ i ≤ k → cancel_at_package env i = false) →
  cancel_at_package env (S k) = true →
  k < length (section_list st) →
  (_create_zip_archive env output_dir st).2 = None
  ∧ files (_create_zip_archive env output_dir st).1
      !! zip_path output_dir st
    = Some (ZipFile (written env 1 (take k (section_list st)))).
Proof.
  intros Hc Hno Hyes Hlen. unfold _create_zip_archive.
  destruct (zip_loop_cancelled env (zip_path output_dir st)
              (length (section_list st)) k (section_list st) 1
              (set_files (<[zip_path output_dir st:=ZipFile []]> (files st))
                 st) [])
    as [H1 H2]; try done.
  - simpl. by rewrite lookup_insert_eq.
  - intros i Hi. apply Hno. lia.
  - destruct (zip_loop env _ _ 1 (section_list st) _) as [st' c].
    simpl in H1, H2. by subst c.
Qed.

Lemma create_zip_archive_cancelled_witness :
  (_create_zip_archive cancel_at_second "out" three_sections).2 = None
  ∧ files (_create_zip_archive cancel_at_second "out" three_sections).1
      !! zip_path "out" three_sections
    = Some (ZipFile (written cancel_at_second 1
                       (take 1 (section_list three_sections)))).
Proof.
  apply (create_zip_archive_cancelled cancel_at_second "out" three_sections 1).
  - reflexivity.
  - intros i Hi. assert (i = 1) as -> by lia. reflexivity.
  - reflexivity.
  - vm_compute. lia.
Defined.

(** C2 fails as stated: the flag is seen at the second checkpoint, after
    the section A has been written; packaging returns [None], and the
    archive with the entry A.docx is at the final path. *)
Lemma cancelled_archive_stays_at_final_path :
  (_create_zip_archive cancel_at_second "out" three_sections).2 = None
  ∧ zip_path "out" three_sections = "out/input_sections.zip"
  ∧ ∃ d, files (_create_zip_archive cancel_at_second "out" three_sections).1
           !! "out/input_sections.zip"
         = Some (ZipFile [("A.docx", d)]).
Proof. repeat split. eexists. by vm_compute. Qed.

(** ** What parsing leaves alone *)

Lemma frame_refl st : frame st st.
Proof. by repeat split. Qed.

Lemma frame_trans st1 st2 st3 : frame st1 st2 → frame st2 st3 → frame st1 st3.
Proof.
  intros (?&?&?&?) (?&?&?&?). repeat split; by etrans.
Qed.

Lemma frame_poll b st : frame st (poll b st).
Proof. destruct b; by repeat split. Qed.

Lemma poll_cancelled b st :
  cancel_requested st = true ∨ b = true →
  cancel_requested (poll b st) = true.
Proof. destruct b; simpl; [done|]. by intros [?|?]. Qed.

Lemma clean_scan_frame env target paragraphs rest :
  ∀ idx marked st,
    frame st (clean_scan env target paragraphs idx rest marked st).1.
Proof.
  induction rest as [|para rest IH]; intros idx marked st; simpl.
  { apply frame_refl. }
  destruct (idx mod 100 =? 0); simpl.
  - destruct (cancel_requested (poll (cancel_at_clean env idx) st)).
    + apply (frame_trans _ _ _ (frame_poll (cancel_at_clean env idx) st)).
      simpl. by repeat split.
    + apply (frame_trans _ _ _ (frame_poll (cancel_at_clean env idx) st)), IH.
  - apply IH.
Qed.

Lemma clean_scan_cancelled env target paragraphs rest :
  ∀ idx marked st,
    cancel_requested st = true →
    cancel_requested
      (clean_scan env target paragraphs idx rest marked st).1 = true.
Proof.
  induction rest as [|para rest IH]; intros idx marked st Hc; simpl; [done|].
  destruct (idx mod 100 =? 0); simpl.
  - rewrite poll_cancelled by auto. simpl. apply poll_cancelled. auto.
  - by apply IH.
Qed.

Lemma clean_document_frame env target st :
  frame st (_clean_document env target st).
Proof.
  unfold _clean_document.
  pose proof (clean_scan_frame env target (doc st) (doc st) 0 [] st) as H.
  destruct (clean_scan env target (doc st) 0 (doc st) [] st) as [st' [m|]];
    simpl in H; [|done].
  eapply frame_trans; [exact H|]. by repeat split.
Qed.

Lemma clean_document_cancelled env target st :
  cancel_requested st = true →
  cancel_requested (_clean_document env target st) = true.
Proof.
  intros Hc. unfold _clean_document.
  pose proof (clean_scan_cancelled env target (doc st) (doc st) 0 [] st Hc)
    as H.
  by destruct (clean_scan env target (doc st) 0 (doc st) [] st)
    as [st' [m|]].
Qed.

(** A scan that nobody cancels collects the marks and changes nothing. *)
Lemma clean_scan_quiet env target paragraphs rest :
  no_cancel env →
  ∀ idx marked st,
    cancel_requested st = false →
    clean_scan env target paragraphs idx rest marked st
    = (st, Some (marked
                 ++ scan_marks (heading_levels st) target paragraphs idx
                      rest)).
Proof.
  intros (Hclean & _). induction rest as [|para rest IH];
    intros idx marked st Hc; simpl.
  { by rewrite app_nil_r. }
  rewrite Hclean, poll_false.
  replace (if idx mod 100 =? 0 then st else st) with st by by case_match.
  rewrite Hc, andb_false_r. rewrite IH by done. by rewrite <- app_assoc.
Qed.

Lemma clean_document_quiet env target st :
  no_cancel env → cancel_requested st = false →
  _clean_document env target st
  = set_doc
      (remove_marked (doc st)
         (scan_marks (heading_levels st) target (doc st) 0 (doc st)))
      st.
Proof.
  intros Henv Hc. unfold _clean_document.
  by rewrite clean_scan_quiet.
Qed.

Lemma kept_refl st : kept st st.
Proof. split; [apply frame_refl | done]. Qed.

Lemma kept_trans st1 st2 st3 : kept st1 st2 → kept st2 st3 → kept st1 st3.
Proof.
  intros (?&?&?&?) (?&?&?&?).
  split; [by eapply frame_trans|]. repeat split; by etrans.
Qed.

Lemma close_section_kept e cur st st' :
  close_section e cur st = Some st' → kept st st'.
Proof.
  unfold close_section. intros H.
  destruct (heap st !! cur) as [s|]; simplify_eq/=.
  destruct (has_content s); simplify_eq/=; [by repeat split|].
  destruct (list_remove cur (sections st)); simplify_eq/=.
  by repeat split.
Qed.

Lemma close_current_kept e loc st st' :
  close_current e loc st = Some st' → kept st st'.
Proof.
  unfold close_current. destruct (current_section loc).
  - apply close_section_kept.
  - intros [= <-]. apply kept_refl.
Qed.

Lemma parse_step_kept target idx para st loc st' loc' :
  parse_step target idx para st loc = Some (st', loc') → kept st st'.
Proof.
  unfold parse_step. intros H.
  destruct (decide (get_heading_level (heading_levels st) para
                    = Some target)).
  - destruct (close_current (Z.of_nat idx - 1) loc st) as [st1|] eqn:Hcl;
      simplify_eq/=.
    apply close_current_kept in Hcl.
    destruct (Str.blank (text para)); simplify_eq/=; [done|].
    destruct (ensure_unique _ _) as [[u used]|]; simplify_eq/=.
    eapply kept_trans; [exact Hcl|]. by repeat split.
  - destruct (current_section loc) as [cur|]; simplify_eq/=;
      [|apply kept_refl].
    destruct (heap st !! cur); simplify_eq/=. by repeat split.
Qed.

Lemma parse_steps_kept target rest :
  ∀ idx st loc st' loc',
    parse_steps target idx rest st loc = Some (st', loc') → kept st st'.
Proof.
  induction rest as [|para rest IH]; intros idx st loc st' loc' H;
    simpl in H.
  { simplify_eq. apply kept_refl. }
  destruct (parse_step target idx para st loc) as [[st1 loc1]|] eqn:Hs;
    simplify_eq/=.
  eapply kept_trans; [by eapply parse_step_kept | by eapply IH].
Qed.

(** A partition loop that nobody cancels is the sequence of its steps. *)
Lemma parse_loop_quiet env target rest :
  no_cancel env →
  ∀ idx st loc,
    cancel_requested st = false →
    parse_loop env target idx rest st loc
    = (λ r, (r.1, Some r.2)) <$> parse_steps target idx rest st loc.
Proof.
  intros (_ & Hparse & _). induction rest as [|para rest IH];
    intros idx st loc Hc; simpl; [done|].
  rewrite Hparse, poll_false.
  replace (if idx mod 50 =? 0 then st else st) with st by by case_match.
  rewrite Hc, andb_false_r.
  destruct (parse_step target idx para st loc) as [[st1 loc1]|] eqn:Hs;
    simpl; [|done].
  apply IH. apply parse_step_kept in Hs as (_ & -> & _). done.
Qed.

Lemma parse_loop_frame env target rest :
  ∀ idx st loc st' oloc,
    parse_loop env target idx rest st loc = Some (st', oloc) → frame st st'.
Proof.
  induction rest as [|para rest IH]; intros idx st loc st' oloc H;
    simpl in H.
  { simplify_eq. apply frame_refl. }
  set (st0 := if idx mod 50 =? 0 then poll (cancel_at_parse env idx) st
              else st) in *.
  assert (frame st st0) as H0.
  { unfold st0. destruct (idx mod 50 =? 0);
      [apply frame_poll | apply frame_refl]. }
  destruct ((idx mod 50 =? 0) && cancel_requested st0).
  { simplify_eq. eapply frame_trans; [exact H0|]. by repeat split. }
  destruct (parse_step target idx para st0 loc) as [[st1 loc1]|] eqn:Hs;
    simplify_eq/=.
  eapply frame_trans; [exact H0|].
  eapply frame_trans; [by eapply parse_step_kept | by eapply IH].
Qed.

Lemma parse_finish_frame env target st loc st' :
  parse_finish env target st loc = Some st' → frame st st'.
Proof.
  unfold parse_finish. intros H.
  destruct (close_current _ loc st) as [st1|] eqn:Hcl; simplify_eq/=.
  apply close_current_kept in Hcl as [Hcl _].
  eapply frame_trans; [exact Hcl|].
  eapply frame_trans; [apply (frame_poll (cancel_at_parse_end env))|].
  destruct (cancel_requested (poll (cancel_at_parse_end env) st1));
    simplify_eq; by repeat split.
Qed.

Lemma parse_sections_frame env target st st' :
  parse_sections env target st = Some st' → frame st st'.
Proof.
  unfold parse_sections, parse_scan. intros H.
  destruct (parse_loop _ _ _ _ _ _) as [[st1 oloc]|] eqn:Hl; simplify_eq/=.
  apply parse_loop_frame in Hl.
  assert (frame st st1) as H1.
  { eapply frame_trans; [|exact Hl].
    eapply frame_trans; [|apply clean_document_frame]. by repeat split. }
  destruct oloc as [loc|]; simplify_eq; [|done].
  eapply frame_trans; [exact H1 | by eapply parse_finish_frame].
Qed.

Lemma parse_sections_quiet_flag env target st st' :
  no_cancel env → cancel_requested st = false →
  parse_sections env target st = Some st' →
  cancel_requested st' = false.
Proof.
  intros Henv Hc. unfold parse_sections, parse_scan.
  rewrite clean_document_quiet by done.
  rewrite parse_loop_quiet by done. intros H.
  destruct (parse_steps _ _ _ _ _) as [[st1 loc]|] eqn:Hs; simplify_eq/=.
  apply parse_steps_kept in Hs as (_ & Hf & _). simpl in Hf.
  unfold parse_finish in H.
  destruct (close_current _ loc st1) as [st2|] eqn:Hcl; simplify_eq/=.
  apply close_current_kept in Hcl as (_ & Hf2 & _).
  destruct Henv as (_ & _ & Hend & _). rewrite Hend, poll_false in H.
  rewrite Hf2, Hf, Hc in H. simplify_eq/=. by rewrite Hf2, Hf.
Qed.

(** When no index is marked twice, the removal loop removes the marked
    paragraphs and nothing else. *)

Lemma without_nil k paragraphs : without [] k paragraphs = paragraphs.
Proof.
  revert k. induction paragraphs as [|p ps IH]; intros k; cbn [without];
    [done|].
  rewrite bool_decide_eq_false_2 by set_solver. by rewrite IH.
Qed.

Lemma without_skip i l paragraphs :
  ∀ k, i < k → without (i :: l) k paragraphs = without l k paragraphs.
Proof.
  induction paragraphs as [|p ps IH]; intros k Hk; cbn [without]; [done|].
  rewrite (IH (S k)) by lia.
  destruct (decide (k ∈ l)) as [Hin|Hin].
  - by rewrite !bool_decide_eq_true_2 by set_solver.
  - rewrite !bool_decide_eq_false_2; [done | done |].
    intros [->|?]%elem_of_cons; [lia | done].
Qed.

Lemma remove_paragraph_without l paragraphs :
  ∀ k i, k ≤ i → (∀ j, j ∈ l → i < j) →
    remove_paragraph (without l k paragraphs) (i - k)
    = without (i :: l) k paragraphs.
Proof.
  induction paragraphs as [|p ps IH]; intros k i Hk Hl; cbn [without];
    [done|].
  assert (k ∉ l) as Hkl by (intros H%Hl; lia).
  rewrite (bool_decide_eq_false_2 (k ∈ l)) by done.
  destruct (decide (i = k)) as [->|Hne].
  - rewrite bool_decide_eq_true_2 by set_solver.
    rewrite Nat.sub_diag, without_skip by lia. done.
  - rewrite bool_decide_eq_false_2
      by (intros [->|?]%elem_of_cons; [lia | done]).
    rewrite <- (IH (S k) i) by (lia || done).
    replace (i - k) with (S (i - S k)) by lia.
    unfold remove_paragraph. cbn [length].
    change (S (i - S k) <? S (length (without l (S k) ps)))
      with (i - S k <? length (without l (S k) ps)).
    by destruct (i - S k <? length (without l (S k) ps)).
Qed.

Lemma remove_descending paragraphs l :
  StronglySorted lt l →
  foldl remove_paragraph paragraphs (reverse l) = without l 0 paragraphs.
Proof.
  induction 1 as [|i l Hl IH Hi]; simpl.
  - by rewrite without_nil.
  - rewrite reverse_cons, foldl_snoc, IH.
    rewrite <- (remove_paragraph_without l paragraphs 0 i); [|lia|].
    + by rewrite Nat.sub_0_r.
    + intros j Hj. rewrite Forall_forall in Hi. by apply Hi.
Qed.

Lemma marks_cases heading_levels target paragraphs idx para :
  marks heading_levels target paragraphs idx para = []
  ∨ marks heading_levels target paragraphs idx para = [idx]
  ∨ marks heading_levels target paragraphs idx para = [idx; idx + 1].
Proof. unfold marks. repeat case_match; auto. Qed.

Lemma scan_marks_sorted heading_levels target paragraphs rest :
  ∀ idx,
    StronglySorted le
      (scan_marks heading_levels target paragraphs idx rest)
    ∧ Forall (le idx) (scan_marks heading_levels target paragraphs idx rest).
Proof.
  induction rest as [|p rest IH]; intros idx; simpl.
  { split; constructor. }
  destruct (IH (S idx)) as [Hs Hall].
  assert (Forall (le idx)
            (scan_marks heading_levels target paragraphs (S idx) rest))
    as Hall' by (eapply Forall_impl; [exact Hall|]; simpl; lia).
  assert (Forall (le (idx + 1))
            (scan_marks heading_levels target paragraphs (S idx) rest))
    as Hall1 by (eapply Forall_impl; [exact Hall|]; simpl; lia).
  destruct (marks_cases heading_levels target paragraphs idx p)
    as [-> | [-> | ->]]; simpl.
  - done.
  - split; by constructor.
  - split; repeat constructor; try done; lia.
Qed.

Lemma sorted_nodup_strict l :
  StronglySorted le l → NoDup l → StronglySorted lt l.
Proof.
  induction 1 as [|x l Hl IH Hx]; intros Hnd; [constructor|].
  apply NoDup_cons in Hnd as [Hin Hnd]. constructor; [by apply IH|].
  rewrite Forall_forall in Hx. apply Forall_forall. intros y Hy.
  assert (x ≠ y) by (by intros ->). specialize (Hx y Hy). lia.
Qed.

Lemma merge_sort_descending l :
  StronglySorted le l → merge_sort (flip le) l = reverse l.
Proof.
  intros Hs.
  assert (Transitive (flip le)) by (intros x y z; unfold flip; lia).
  assert (AntiSymm (=) (flip le)) by (intros x y; unfold flip; lia).
  assert (Total (flip le)) by (intros x y; unfold flip; lia).
  apply (Sorted_unique (flip le)).
  - by apply Sorted_merge_sort.
  - by apply Sorted_reverse, StronglySorted_Sorted.
  - by rewrite merge_sort_Permutation, reverse_Permutation.
Qed.

Lemma marked_heading_spec target level para :
  marked_heading target level para
  = (level <? target)%Z || Str.blank (text para).
Proof.
  unfold marked_heading.
  destruct (Z.ltb_spec level target), (Z.eqb_spec level target);
    simpl; try done; lia.
Qed.

Lemma elem_of_scan_marks heading_levels target paragraphs rest i :
  ∀ idx,
    i ∈ scan_marks heading_levels target paragraphs idx rest
    ↔ ∃ j p, rest !! j = Some p
             ∧ i ∈ marks heading_levels target paragraphs (idx + j) p.
Proof.
  induction rest as [|q rest IH]; intros idx; simpl.
  { split; [by intros ?%elem_of_nil | by intros (j & p & ? & _)]. }
  rewrite elem_of_app, IH. split.
  - intros [H|(j & p & Hj & Hi)].
    + exists 0, q. by rewrite Nat.add_0_r.
    + exists (S j), p. by rewrite Nat.add_succ_r.
  - intros ([|j] & p & Hj & Hi); simplify_eq/=.
    + left. by rewrite Nat.add_0_r in Hi.
    + right. exists j, p. by rewrite Nat.add_succ_r in Hi.
Qed.

Lemma scan_marks_spec heading_levels target paragraphs i :
  bool_decide (i ∈ scan_marks heading_levels target paragraphs 0 paragraphs)
  = spec_marked heading_levels target paragraphs i.
Proof.
  apply eq_true_iff_eq. rewrite bool_decide_eq_true, elem_of_scan_marks.
  unfold spec_marked, marks. split.
  - intros (j & p & Hj & Hi). simpl in Hi.
    destruct (get_heading_level heading_levels p) as [lv|] eqn:Hlv;
      [|by apply elem_of_nil in Hi].
    rewrite marked_heading_spec in Hi.
    destruct ((lv <? target)%Z || Str.blank (text p)) eqn:Hm;
      [|by apply elem_of_nil in Hi].
    apply elem_of_cons in Hi as [->|Hi].
    + by rewrite Hj, Hlv, Hm.
    + destruct (paragraphs !! (j + 1)) as [next|] eqn:Hnext;
        [|by apply elem_of_nil in Hi].
      destruct (Str.blank (text next)) eqn:Hb;
        [|by apply elem_of_nil in Hi].
      apply list_elem_of_singleton in Hi as ->.
      replace (j + 1) with (S j) in * by lia.
      rewrite Hj, Hlv, Hm, Hnext, Hb. simpl. apply orb_true_r.
  - intros [H|H]%orb_true_iff.
    + destruct (paragraphs !! i) as [p|] eqn:Hp; [|done].
      exists i, p. split; [done|]. simpl.
      destruct (get_heading_level heading_levels p); [|done].
      rewrite marked_heading_spec, H. left.
    + destruct i as [|j]; [done|].
      apply andb_true_iff in H as [H Hb].
      destruct (paragraphs !! j) as [p|] eqn:Hp; [|done].
      exists j, p. split; [done|]. simpl.
      destruct (get_heading_level heading_levels p); [|done].
      rewrite marked_heading_spec, H. replace (j + 1) with (S j) by lia.
      destruct (paragraphs !! S j) as [next|]; [|done].
      rewrite Hb. right. left.
Qed.

Lemma without_spec (marked : nat → bool) l paragraphs :
  (∀ i, bool_decide (i ∈ l) = marked i) →
  ∀ k, without l k paragraphs
       = List.map snd
           (List.filter (λ ip : nat * Paragraph, negb (marked ip.1))
              (imap (λ i p, (k + i, p)) paragraphs)).
Proof.
  intros Hm. induction paragraphs as [|p ps IH]; intros k; cbn [without];
    [done|]. simpl.
  rewrite Nat.add_0_r, Hm, (IH (S k)).
  assert (imap (λ i p, (S k + i, p)) ps
          = imap ((λ i p, (k + i, p)) ∘ S) ps) as ->.
  { apply imap_ext. intros i x _. simpl. f_equal. lia. }
  by destruct (marked k).
Qed.

(** The cleaning that nobody cancels is the cleaning of the
    specification when no index is marked twice. *)
Lemma clean_document_exact env target st :
  no_cancel env → cancel_requested st = false →
  NoDup (scan_marks (heading_levels st) target (doc st) 0 (doc st)) →
  doc (_clean_document env target st)
  = spec_clean (heading_levels st) target (doc st).
Proof.
  intros Henv Hc Hnd. rewrite clean_document_quiet by done. simpl.
  destruct (scan_marks_sorted (heading_levels st) target (doc st) (doc st) 0)
    as [Hs _].
  unfold remove_marked. rewrite merge_sort_descending by done.
  rewrite remove_descending by by apply sorted_nodup_strict.
  unfold spec_clean.
  by rewrite (without_spec (spec_marked (heading_levels st) target (doc st)))
    by apply scan_marks_spec.
Qed.

(** ** DocxSplitter.process_document *)

(** C9. When nobody cancels and parsing ends with no section,
    [process_document] returns [None], the value that also stands for a
    cancelled run, with the flag still unset; no file is written and no
    directory created. *)
Theorem process_document_none_without_cancel (env : Env)
    (output_dir : string) (target_level : Z) (create_zip : bool)
    (st st' : DocxSplitter) :
  no_cancel env → cancel_requested st = false → sections st = [] →
  parse_sections env target_level st = Some st' → sections st' = [] →
  process_document env output_dir target_level create_zip st
  = Some (st', None)
  ∧ cancel_requested st' = false
  ∧ files st' = files st
  ∧ dirs st' = dirs st.
Proof.
  intros Henv Hc Hs Hp Hs'.
  pose proof (parse_sections_quiet_flag _ _ _ _ Henv Hc Hp) as Hflag.
  pose proof (parse_sections_frame _ _ _ _ Hp) as (_ & _ & Hfiles & Hdirs).
  repeat split; try done.
  unfold process_document. rewrite Hs, Hp. simpl.
  destruct Henv as (_ & _ & _ & -> & _). rewrite poll_false.
  by rewrite Hflag, Hs'.
Qed.

Lemma quiet_no_cancel : no_cancel quiet.
Proof. by repeat split. Qed.

Lemma process_document_none_without_cancel_witness :
  ∃ st',
    parse_sections quiet 3 no_headings = Some st'
    ∧ process_document quiet "out" 3 true no_headings = Some (st', None)
    ∧ cancel_requested st' = false
    ∧ files st' = files no_headings
    ∧ dirs st' = dirs no_headings.
Proof.
  destruct (parse_sections quiet 3 no_headings) as [st'|] eqn:Hp;
    [|by vm_compute in Hp].
  exists st'. split; [done|].
  apply (process_document_none_without_cancel quiet "out" 3 true
           no_headings st' quiet_no_cancel eq_refl eq_refl Hp).
  vm_compute in Hp. by injection Hp as <-.
Defined.

(** ** Cancellation of parse_sections *)

Lemma cancelled_at_entry env target st :
  cancel_requested st = true → cancelled_before_partition env target st.
Proof. intros Hc. left. by apply clean_document_cancelled. Qed.

(** C8. When the flag is set before the partition loop reaches its first
    checkpoint, [parse_sections] ends with an empty section list; and a
    [cancel()] after [parse_sections] has returned leaves the section
    list as it is. *)
Theorem parse_sections_cancellation (env : Env) (target_level : Z)
    (st : DocxSplitter) :
  (cancelled_before_partition env target_level st →
   ∃ st', parse_sections env target_level st = Some st'
          ∧ sections st' = [] ∧ section_list st' = [])
  ∧ (∀ st', parse_sections env target_level st = Some st' →
            sections (cancel st') = sections st'
            ∧ section_list (cancel st') = section_list st').
Proof.
  split; [|done]. unfold cancelled_before_partition, parse_sections,
    parse_scan.
  set (st1 := _clean_document env target_level
                (status_callback (Parsing_sections target_level) st)).
  intros H. destruct (doc st1) as [|para rest]; simpl.
  - unfold parse_finish. simpl.
    rewrite poll_cancelled by done. by eexists.
  - replace (0 mod 50 =? 0) with true by done.
    rewrite poll_cancelled by done. simpl. by eexists.
Qed.

Lemma parse_sections_cancellation_witness :
  cancelled_before_partition cancel_at_once 3 a_blank_b
  ∧ ∃ st', parse_sections cancel_at_once 3 a_blank_b = Some st'
           ∧ sections st' = [] ∧ section_list st' = [].
Proof.
  assert (cancelled_before_partition cancel_at_once 3 a_blank_b) as H
    by (left; reflexivity).
  split; [exact H|].
  exact (proj1 (parse_sections_cancellation cancel_at_once 3 a_blank_b) H).
Defined.

(** ** The partition of a document that nobody cancels *)

Lemma scan_marks_app heading_levels target paragraphs l1 :
  ∀ idx l2,
    scan_marks heading_levels target paragraphs idx (l1 ++ l2)
    = scan_marks heading_levels target paragraphs idx l1
      ++ scan_marks heading_levels target paragraphs (idx + length l1) l2.
Proof.
  induction l1 as [|p l1 IH]; intros idx l2; simpl.
  - by rewrite Nat.add_0_r.
  - rewrite IH, <- app_assoc. do 3 f_equal. lia.
Qed.

Lemma marks_no_heading heading_levels target paragraphs idx para :
  get_heading_level heading_levels para = None →
  marks heading_levels target paragraphs idx para = [].
Proof. unfold marks. by intros ->. Qed.

Lemma marks_target_heading heading_levels target paragraphs idx para :
  get_heading_level heading_levels para = Some target →
  Str.blank (text para) = false →
  marks heading_levels target paragraphs idx para = [].
Proof.
  unfold marks, marked_heading. intros -> ->.
  by rewrite Z.ltb_irrefl.
Qed.

Lemma scan_marks_no_heading heading_levels target paragraphs l :
  Forall (λ p, get_heading_level heading_levels p = None) l →
  ∀ idx, scan_marks heading_levels target paragraphs idx l = [].
Proof.
  induction 1 as [|p l Hp Hl IH]; intros idx; simpl; [done|].
  by rewrite marks_no_heading, IH.
Qed.

Lemma body_no_heading heading_levels l :
  Forall (is_body heading_levels) l →
  Forall (λ p, get_heading_level heading_levels p = None) l.
Proof. intros H. eapply Forall_impl; [exact H|]. by intros p [? _]. Qed.

Lemma blank_body_no_heading heading_levels l :
  Forall (is_blank_body heading_levels) l →
  Forall (λ p, get_heading_level heading_levels p = None) l.
Proof. intros H. eapply Forall_impl; [exact H|]. by intros p [? _]. Qed.

Lemma no_heading_not_target heading_levels (target : Z) l :
  Forall (λ p, get_heading_level heading_levels p = None) l →
  Forall (λ p, get_heading_level heading_levels p ≠ Some target) l.
Proof. intros H. eapply Forall_impl; [exact H|]. by intros p ->. Qed.

Lemma remove_marked_one paragraphs idx :
  idx < length paragraphs →
  remove_marked paragraphs [idx] = delete idx paragraphs.
Proof.
  intros H. unfold remove_marked. simpl. unfold remove_paragraph.
  by destruct (Nat.ltb_spec idx (length paragraphs)); [|lia].
Qed.

Lemma parse_steps_app target l1 :
  ∀ idx l2 st loc,
    parse_steps target idx (l1 ++ l2) st loc
    = r ← parse_steps target idx l1 st loc;
      parse_steps target (idx + length l1) l2 r.1 r.2.
Proof.
  induction l1 as [|p l1 IH]; intros idx l2 st loc; simpl.
  - by rewrite Nat.add_0_r.
  - destruct (parse_step target idx p st loc) as [[st1 loc1]|]; simpl;
      [|done].
    rewrite IH. by replace (S idx + length l1) with (idx + S (length l1))
      by lia.
Qed.

Lemma extend_content_nil s : extend_content [] s = s.
Proof. destruct s. unfold extend_content. simpl. by rewrite app_nil_r. Qed.

Lemma extend_content_cons p l s :
  extend_content l (append_content p s) = extend_content (p :: l) s.
Proof.
  unfold extend_content, append_content. simpl.
  by rewrite <- app_assoc.
Qed.

(** Paragraphs that are no heading of the target level go to the content
    of the open section. *)
Lemma parse_steps_content target l :
  ∀ idx st loc cur s,
    Forall (λ p, get_heading_level (heading_levels st) p ≠ Some target) l →
    current_section loc = Some cur →
    heap st !! cur = Some s →
    parse_steps target idx l st loc
    = Some (set_heap (<[cur := extend_content l s]> (heap st)) st, loc).
Proof.
  induction l as [|p l IH]; intros idx st loc cur s Hall Hcur Hs; simpl.
  - rewrite extend_content_nil, list_insert_id by done. by destruct st.
  - inversion Hall as [|? ? Hp Hl]; subst. unfold parse_step.
    destruct (decide (get_heading_level (heading_levels st) p
                      = Some target)); [done|].
    rewrite Hcur, Hs. simpl.
    rewrite (IH _ _ _ cur (append_content p s)); try done.
    + simpl. by rewrite list_insert_insert_eq, extend_content_cons.
    + simpl. apply list_lookup_insert_eq. by eapply lookup_lt_Some.
Qed.

(** Without open section they are dropped. *)
Lemma parse_steps_dropped target l :
  ∀ idx st loc,
    Forall (λ p, get_heading_level (heading_levels st) p ≠ Some target) l →
    current_section loc = None →
    parse_steps target idx l st loc = Some (st, loc).
Proof.
  induction l as [|p l IH]; intros idx st loc Hall Hcur; simpl; [done|].
  inversion Hall as [|? ? Hp Hl]; subst. unfold parse_step.
  destruct (decide (get_heading_level (heading_levels st) p
                    = Some target)); [done|].
  rewrite Hcur. simpl. by apply IH.
Qed.

Lemma has_content_body heading_levels s l k :
  content s = l ++ k → Forall (is_body heading_levels) l → l ≠ [] →
  has_content s = true.
Proof.
  intros Hs Hall Hne. unfold has_content. rewrite Hs.
  destruct Hall as [|p l [_ Hp] _]; [done|]. simpl. by rewrite Hp.
Qed.

Lemma has_content_blank heading_levels s :
  Forall (is_blank_body heading_levels) (content s) →
  has_content s = false.
Proof.
  unfold has_content. induction 1 as [|p l [_ Hp] _ IH]; simpl; [done|].
  by rewrite Hp.
Qed.

#[local] Arguments ensure_unique : simpl never.
#[local] Arguments sanitize_filename : simpl never.
#[local] Arguments candidate : simpl never.
#[local] Arguments Str.blank : simpl never.
#[local] Arguments get_heading_level : simpl never.
#[local] Arguments parse_step : simpl never.
#[local] Arguments has_content : simpl never.
#[local] Arguments parse_loop : simpl never.
#[local] Arguments parse_steps : simpl never.

Lemma close_section_keep e cur st s :
  heap st !! cur = Some s → has_content s = true →
  close_section e cur st
  = Some (set_heap (<[cur := set_end_index e s]> (heap st)) st).
Proof. intros Hs Hc. unfold close_section. rewrite Hs. simpl. by rewrite Hc. Qed.

Lemma close_section_discard e cur st s l :
  heap st !! cur = Some s → has_content s = false →
  list_remove cur (sections st) = Some l →
  close_section e cur st
  = Some (set_sections l
            (set_heap (<[cur := set_end_index e s]> (heap st)) st)).
Proof.
  intros Hs Hc Hl. unfold close_section. rewrite Hs. simpl.
  rewrite Hc. simpl. by rewrite Hl.
Qed.

(** The iteration on a heading of the target level that has a title. *)
Lemma parse_step_heading target idx para st loc st1 unique_title used :
  get_heading_level (heading_levels st) para = Some target →
  Str.blank (text para) = false →
  close_current (Z.of_nat idx - 1) loc st = Some st1 →
  ensure_unique (sanitize_filename (text para)) (used_titles loc)
  = Some (unique_title, used) →
  parse_step target idx para st loc
  = Some (set_sections (sections st1 ++ [length (heap st1)])
            (set_heap
               (heap st1
                ++ [{| title := text para; safe_title := unique_title;
                       level := target; content := [];
                       start_index := Z.of_nat idx; end_index := None |}])
               st1),
          {| current_section := Some (length (heap st1));
             used_titles := used |}).
Proof.
  intros Hl Hb Hc Hu. unfold parse_step. rewrite Hl.
  destruct (decide (Some target = Some target)); [|done].
  rewrite Hc. simpl. rewrite Hb. simpl. by rewrite Hu.
Qed.

(** The marks of the document of C1: the blank heading alone. *)
Lemma scan_marks_a_blank_b heading_levels all hA hE hB e bodyA bodyE bodyB :
  get_heading_level heading_levels hA = Some 3%Z →
  Str.blank (text hA) = false →
  get_heading_level heading_levels hE = Some 3%Z →
  Str.blank (text hE) = true →
  get_heading_level heading_levels hB = Some 3%Z →
  Str.blank (text hB) = false →
  Forall (is_body heading_levels) bodyA →
  Forall (is_body heading_levels) (e :: bodyE) →
  Forall (is_body heading_levels) bodyB →
  all !! (S (S (length bodyA))) = Some e →
  scan_marks heading_levels 3 all 0
    (hA :: bodyA ++ hE :: (e :: bodyE) ++ hB :: bodyB)
  = [S (length bodyA)].
Proof.
  intros HA HAt HE HEt HB HBt HbA HbE HbB Hnext. simpl.
  rewrite (marks_target_heading _ _ _ _ hA) by done. simpl.
  rewrite scan_marks_app.
  rewrite scan_marks_no_heading by by apply body_no_heading. simpl.
  rewrite (marks_no_heading _ _ _ _ e)
    by (by inversion HbE as [|? ? [? ?] ?]).
  rewrite scan_marks_app.
  rewrite scan_marks_no_heading
    by (apply body_no_heading; by inversion HbE). simpl.
  rewrite (marks_target_heading _ _ _ _ hB) by done.
  rewrite scan_marks_no_heading by by apply body_no_heading. simpl.
  unfold marks, marked_heading. rewrite HE, HEt, orb_true_r.
  replace (S (length bodyA) + 1) with (S (S (length bodyA))) by lia.
  rewrite Hnext. inversion HbE as [|? ? [_ He] _]; subst. by rewrite He.
Qed.

Lemma parse_steps_cons target idx para rest st loc :
  parse_steps target idx (para :: rest) st loc
  = r ← parse_step target idx para st loc;
    parse_steps target (S idx) rest r.1 r.2.
Proof.
  unfold parse_steps at 1. fold parse_steps.
  by destruct (parse_step target idx para st loc) as [[? ?]|].
Qed.

(** The loop over a titled heading of the target level and the
    paragraphs up to the next one: the open section is closed, a new one
    is created and receives the paragraphs. *)
Lemma parse_steps_section target idx para body rest st loc st1
    unique_title used :
  get_heading_level (heading_levels st) para = Some target →
  Str.blank (text para) = false →
  close_current (Z.of_nat idx - 1) loc st = Some st1 →
  ensure_unique (sanitize_filename (text para)) (used_titles loc)
  = Some (unique_title, used) →
  Forall (λ p, get_heading_level (heading_levels st) p = None) body →
  parse_steps target idx (para :: body ++ rest) st loc
  = parse_steps target (S idx + length body) rest
      (set_sections (sections st1 ++ [length (heap st1)])
         (set_heap
            (heap st1
             ++ [{| title := text para; safe_title := unique_title;
                    level := target; content := body;
                    start_index := Z.of_nat idx; end_index := None |}])
            st1))
      {| current_section := Some (length (heap st1)); used_titles := used |}.
Proof.
  intros Hl Hb Hc Hu Hbody.
  rewrite parse_steps_cons, (parse_step_heading _ _ _ _ _ st1 _ _ Hl Hb Hc Hu).
  simpl. rewrite parse_steps_app.
  pose proof (close_current_kept _ _ _ _ Hc) as ((_ & Hhl & _) & _).
  rewrite (parse_steps_content target body _ _ _ (length (heap st1))
             {| title := text para; safe_title := unique_title;
                level := target; content := [];
                start_index := Z.of_nat idx; end_index := None |}).
  - simpl. by rewrite insert_app_r_alt, Nat.sub_diag by done.
  - simpl. rewrite Hhl. by apply no_heading_not_target.
  - done.
  - simpl. by apply list_lookup_middle.
Qed.

Lemma parse_steps_section_last target idx para body st loc st1
    unique_title used :
  get_heading_level (heading_levels st) para = Some target →
  Str.blank (text para) = false →
  close_current (Z.of_nat idx - 1) loc st = Some st1 →
  ensure_unique (sanitize_filename (text para)) (used_titles loc)
  = Some (unique_title, used) →
  Forall (λ p, get_heading_level (heading_levels st) p = None) body →
  parse_steps target idx (para :: body) st loc
  = Some
      (set_sections (sections st1 ++ [length (heap st1)])
         (set_heap
            (heap st1
             ++ [{| title := text para; safe_title := unique_title;
                    level := target; content := body;
                    start_index := Z.of_nat idx; end_index := None |}])
            st1),
       {| current_section := Some (length (heap st1));
          used_titles := used |}).
Proof.
  intros Hl Hb Hc Hu Hbody. rewrite <- (app_nil_r body) at 1.
  by rewrite (parse_steps_section _ _ _ _ _ _ _ st1 unique_title used).
Qed.

(** C1, as the code has it. A fresh splitter that nobody cancels, on the
    document of the level-3 headings A, blank, B, each followed by body
    text: paragraphs that have text and no heading level, so that the
    three headings are the only headings of the document. Cleaning
    removes the blank heading only, and parsing at level 3 gives exactly
    the two sections A and B; the body text that followed the blank
    heading is not dropped, it is the end of the content of A. *)
Theorem parse_sections_blank_heading (env : Env) (st : DocxSplitter)
    (hA hE hB : Paragraph) (bodyA bodyE bodyB : list Paragraph) :
  no_cancel env → cancel_requested st = false →
  heap st = [] → sections st = [] →
  doc st = hA :: bodyA ++ hE :: bodyE ++ hB :: bodyB →
  get_heading_level (heading_levels st) hA = Some 3%Z → text hA = "A" →
  get_heading_level (heading_levels st) hE = Some 3%Z →
  Str.blank (text hE) = true →
  get_heading_level (heading_levels st) hB = Some 3%Z → text hB = "B" →
  Forall (is_body (heading_levels st)) bodyA → bodyA ≠ [] →
  Forall (is_body (heading_levels st)) bodyE → bodyE ≠ [] →
  Forall (is_body (heading_levels st)) bodyB → bodyB ≠ [] →
  ∃ st',
    parse_sections env 3 st = Some st'
    ∧ doc st' = hA :: bodyA ++ bodyE ++ hB :: bodyB
    ∧ section_list st'
      = [ {| title := "A"; safe_title := "A"; level := 3;
             content := bodyA ++ bodyE; start_index := 0;
             end_index := Some (Z.of_nat (length bodyA + length bodyE)) |};
          {| title := "B"; safe_title := "B"; level := 3;
             content := bodyB;
             start_index := Z.of_nat (S (length bodyA + length bodyE));
             end_index :=
               Some (Z.of_nat (S (length bodyA + length bodyE)
                               + length bodyB)) |} ].
Proof.
  intros Henv Hc Hheap Hsec Hdoc HA HAt HE HEt HB HBt HbA HnA HbE HnE HbB HnB.
  destruct bodyE as [|e bodyE]; [done|].
  assert (Str.blank (text hA) = false) as HAb by (by rewrite HAt).
  assert (Str.blank (text hB) = false) as HBb by (by rewrite HBt).
  unfold parse_sections, parse_scan.
  rewrite clean_document_quiet by done. simpl. rewrite Hdoc.
  rewrite (scan_marks_a_blank_b _ _ hA hE hB e bodyA bodyE bodyB);
    try done.
  2:{ simpl. rewrite lookup_app_r by lia.
      by replace (S (length bodyA) - length bodyA) with 1 by lia. }
  rewrite remove_marked_one.
  2:{ simpl. rewrite length_app. simpl. lia. }
  simpl. rewrite delete_middle.
  rewrite parse_loop_quiet by done.
  change (bodyA ++ e :: bodyE ++ hB :: bodyB)
    with (bodyA ++ (e :: bodyE) ++ (hB :: bodyB)) at 1.
  rewrite app_assoc.
  set (st1 := set_doc _ _).
  assert (sanitize_filename "A" = "A") as HsA by (by vm_compute).
  assert (sanitize_filename "B" = "B") as HsB by (by vm_compute).
  rewrite (parse_steps_section 3 0 hA (bodyA ++ e :: bodyE)
             (hB :: bodyB) st1 fresh_locals st1 "A" ({["A"]} ∪ ∅));
    [|done|done|done| |].
  2:{ rewrite HAt, HsA. apply ensure_unique_fresh. set_solver. }
  2:{ apply body_no_heading, Forall_app. by split. }
  simpl. rewrite Hheap, Hsec. simpl.
  set (secA := {| title := text hA |}).
  set (st2 := set_sections [0] _).
  set (loc2 := {| current_section := Some 0 |}).
  assert (has_content secA = true) as HcA
    by (by apply (has_content_body (heading_levels st) secA bodyA
                    (e :: bodyE))).
  rewrite (parse_steps_section_last 3 _ hB bodyB st2 loc2
             (set_heap (<[0 := set_end_index
                                 (Z.of_nat (S (length (bodyA ++ e :: bodyE)))
                                  - 1) secA]> (heap st2)) st2)
             "B" ({["B"]} ∪ ({["A"]} ∪ ∅)));
    [|done|done| | |].
  2:{ by apply close_section_keep. }
  2:{ rewrite HBt, HsB. apply ensure_unique_fresh. set_solver. }
  2:{ by apply body_no_heading. }
  simpl. unfold parse_finish, close_current. simpl.
  set (secB := {| title := text hB |}).
  assert (has_content secB = true) as HcB
    by (apply (has_content_body (heading_levels st) secB bodyB []);
        [by rewrite app_nil_r | done | done]).
  erewrite close_section_keep; [|done|done]. simpl.
  destruct Henv as (_ & _ & -> & _). rewrite poll_false.
  subst st2 st1. simpl. rewrite Hc.
  eexists. split; [done|]. split; [done|].
  unfold section_list. simpl. subst secA secB. unfold set_end_index. simpl.
  rewrite HAt, HBt, !length_app. simpl. rewrite !length_app. simpl.
  repeat f_equal; lia.
Qed.

Lemma parse_sections_blank_heading_witness :
  ∃ st',
    parse_sections quiet 3 a_blank_b = Some st'
    ∧ doc st'
      = heading3 "A" :: [normal "a"] ++ [normal "e"]
        ++ heading3 "B" :: [normal "b"]
    ∧ section_list st'
      = [ {| title := "A"; safe_title := "A"; level := 3;
             content := [normal "a"] ++ [normal "e"]; start_index := 0;
             end_index := Some 2%Z |};
          {| title := "B"; safe_title := "B"; level := 3;
             content := [normal "b"]; start_index := 3;
             end_index := Some 4%Z |} ].
Proof.
  refine (parse_sections_blank_heading quiet a_blank_b
            (heading3 "A") (heading3 " ") (heading3 "B")
            [normal "a"] [normal "e"] [normal "b"]
            quiet_no_cancel eq_refl eq_refl eq_refl eq_refl
            _ eq_refl _ _ _ eq_refl _ _ _ _ _ _);
    try (by vm_compute); by repeat constructor.
Defined.

(** C1 fails as stated: in the document A, a, blank heading, e, B, b the
    paragraph e, which follows the blank heading, is in the content of
    the section A. *)
Lemma blank_heading_body_kept :
  ∃ st',
    parse_sections quiet 3 a_blank_b = Some st'
    ∧ ¬ (∀ s, s ∈ section_list st' → normal "e" ∉ content s).
Proof.
  eexists. split; [by vm_compute|]. intros H.
  apply (H {| title := "A"; safe_title := "A"; level := 3;
              content := [normal "a"; normal "e"]; start_index := 0;
              end_index := Some 2%Z |}).
  - vm_compute. left.
  - simpl. right. left.
Qed.

(** Why the bodies of C1 are free of headings: when a heading above the
    target level stands right before the blank heading, the index of the
    blank heading is marked twice, the removal loop deletes the paragraph
    after it as well, and that paragraph reaches no section. *)
Lemma blank_heading_after_part_heading :
  scan_marks (heading_levels part_before_blank) 3 (doc part_before_blank) 0
    (doc part_before_blank) = [2; 3; 3]
  ∧ ∃ st',
      parse_sections quiet 3 part_before_blank = Some st'
      ∧ doc st' = [heading3 "A"; normal "a"; heading3 "B"; normal "b"]
      ∧ content <$> section_list st' = [[normal "a"]; [normal "b"]].
Proof.
  split; [by vm_compute|].
  destruct (parse_sections quiet 3 part_before_blank) as [st'|] eqn:Hp;
    [|by vm_compute in Hp].
  exists st'. split; [done|]. vm_compute in Hp. by injection Hp as <-.
Qed.


(** ** Names of discarded sections *)

Lemma rsplit_last_none sep l : sep ∉ l → rsplit_last sep l = None.
Proof.
  induction l as [|c l IH]; intros H; simpl; [done|].
  apply not_elem_of_cons in H as [Hc Hl]. rewrite IH by done.
  destruct (Ascii.eqb_spec c sep); [by subst | done].
Qed.

Lemma candidate_no_dot base counter :
  "."%char ∉ Str.chars base →
  candidate base counter = base +:+ "_" +:+ pretty counter.
Proof.
  intros H. unfold candidate, rsplit1. by rewrite rsplit_last_none.
Qed.

Lemma ensure_unique_spec filename used name used' :
  ensure_unique filename used = Some (name, used') →
  name ∉ used ∧ used' = {[name]} ∪ used.
Proof.
  unfold ensure_unique. intros H.
  destruct (ensure_unique_loop _ _ _ _ _) as [n|] eqn:Hl; [|done].
  injection H as <- <-.
  split; [|done]. by apply ensure_unique_loop_spec in Hl as [? _].
Qed.

Lemma safe_titles_insert cur s s' (h : list Section) :
  h !! cur = Some s → safe_title s' = safe_title s →
  safe_title <$> <[cur := s']> h = safe_title <$> h.
Proof.
  intros Hs Heq. rewrite list_fmap_insert, Heq.
  apply list_insert_id. by rewrite list_lookup_fmap, Hs.
Qed.

Lemma close_current_titles e loc st st' :
  close_current e loc st = Some st' →
  safe_title <$> heap st' = safe_title <$> heap st.
Proof.
  unfold close_current, close_section. intros H.
  destruct (current_section loc) as [cur|]; simplify_eq/=; [|done].
  destruct (heap st !! cur) as [s|] eqn:Hs; simplify_eq/=.
  destruct (has_content s); simplify_eq/=.
  - by apply (safe_titles_insert cur s).
  - destruct (list_remove cur (sections st)); simplify_eq/=.
    by apply (safe_titles_insert cur s).
Qed.

Lemma names_used_titles st loc :
  names_used st loc
  ↔ (∀ x, x ∈ safe_title <$> heap st → x ∈ used_titles loc)
    ∧ NoDup (safe_title <$> heap st).
Proof.
  unfold names_used. split; intros [H1 H2]; (split; [|done]).
  - intros x (s & -> & Hs)%list_elem_of_fmap. by apply H1.
  - intros s Hs. apply H1, list_elem_of_fmap. by exists s.
Qed.

(** One iteration keeps the invariant, and the set of used names only
    grows. *)
Lemma parse_step_names target idx para st loc st' loc' :
  names_used st loc →
  parse_step target idx para st loc = Some (st', loc') →
  names_used st' loc' ∧ used_titles loc ⊆ used_titles loc'.
Proof.
  rewrite !names_used_titles. intros [Hin Hnd]. unfold parse_step. intros H.
  destruct (decide (get_heading_level (heading_levels st) para
                    = Some target)).
  - destruct (close_current _ loc st) as [st1|] eqn:Hcl; simplify_eq/=.
    apply close_current_titles in Hcl.
    destruct (Str.blank (text para)); simplify_eq/=.
    { by rewrite Hcl. }
    destruct (ensure_unique _ _) as [[u used]|] eqn:Hu; simplify_eq/=.
    apply ensure_unique_spec in Hu as [Hfresh ->].
    rewrite fmap_app, Hcl. simpl. split; [split|set_solver].
    + intros x [Hx|Hx%list_elem_of_singleton]%elem_of_app;
        [apply Hin in Hx|]; set_solver.
    + apply NoDup_app. split; [done|]. split; [|apply NoDup_singleton].
      intros x Hx ->%list_elem_of_singleton. by apply Hfresh, Hin.
  - destruct (current_section loc) as [cur|]; simplify_eq/=; [|done].
    destruct (heap st !! cur) as [s|] eqn:Hs; simplify_eq/=.
    by rewrite (safe_titles_insert cur s).
Qed.

Lemma parse_loop_names env target rest :
  ∀ idx st loc st' loc',
    names_used st loc →
    parse_loop env target idx rest st loc = Some (st', Some loc') →
    names_used st' loc' ∧ used_titles loc ⊆ used_titles loc'.
Proof.
  induction rest as [|para rest IH]; intros idx st loc st' loc' Hinv H;
    unfold parse_loop in H; fold parse_loop in H.
  { by simplify_eq. }
  set (st0 := if idx mod 50 =? 0 then poll (cancel_at_parse env idx) st
              else st) in *.
  assert (heap st0 = heap st) as Hheap.
  { unfold st0. destruct (idx mod 50 =? 0); [|done].
    by destruct (cancel_at_parse env idx). }
  destruct ((idx mod 50 =? 0) && cancel_requested st0); [by simplify_eq|].
  destruct (parse_step target idx para st0 loc) as [[st1 loc1]|] eqn:Hs;
    simplify_eq/=.
  apply parse_step_names in Hs as [Hinv1 Hsub1].
  - destruct (IH _ _ _ _ _ Hinv1 H) as [Hinv2 Hsub2].
    split; [done | set_solver].
  - unfold names_used in *. by rewrite Hheap.
Qed.

Lemma clean_scan_heap env target paragraphs rest :
  ∀ idx marked st,
    heap (clean_scan env target paragraphs idx rest marked st).1 = heap st.
Proof.
  induction rest as [|para rest IH]; intros idx marked st; simpl; [done|].
  destruct (idx mod 100 =? 0); simpl; [|apply IH].
  destruct (cancel_requested (poll (cancel_at_clean env idx) st)); simpl;
    [|rewrite IH]; by destruct (cancel_at_clean env idx).
Qed.

Lemma clean_document_heap env target st :
  heap (_clean_document env target st) = heap st.
Proof.
  unfold _clean_document.
  pose proof (clean_scan_heap env target (doc st) (doc st) 0 [] st) as H.
  by destruct (clean_scan env target (doc st) 0 (doc st) [] st)
    as [st' [m|]].
Qed.

(** The invariant at the end of the loop of a fresh splitter. *)
Lemma parse_scan_names env target st st' loc :
  heap st = [] →
  parse_scan env target st = Some (st', Some loc) →
  names_used st' loc.
Proof.
  intros Hheap H. unfold parse_scan in H.
  apply parse_loop_names in H as [H _]; [done|].
  split; rewrite clean_document_heap; simpl; rewrite Hheap.
  - by intros s ?%elem_of_nil.
  - constructor.
Qed.

(** C10. On a fresh splitter, every partition loop that runs to its end
    leaves the name of every section object it created, retained or
    discarded, in the set of used names, and these names are pairwise
    distinct. In particular, in a document that nobody cancels: a titled
    heading of the target level followed by blank paragraphs only, then a
    second titled heading whose title sanitizes to the same name [base],
    then body text. The first section is discarded when it is closed, its
    name stays in the set of used names, and the second section, the only
    one retained, is named [candidate base 1] (that is [base_1] when
    [base] has no dot), not [base]. *)
Theorem discarded_section_keeps_name (env : Env) (target : Z)
    (st : DocxSplitter) (h1 h2 : Paragraph) (blanks body : list Paragraph)
    (base : string) :
  heap st = [] →
  (∀ st1 loc,
     parse_scan env target st = Some (st1, Some loc) → names_used st1 loc)
  ∧ (no_cancel env → cancel_requested st = false → sections st = [] →
     doc st = h1 :: blanks ++ h2 :: body →
     get_heading_level (heading_levels st) h1 = Some target →
     Str.blank (text h1) = false →
     get_heading_level (heading_levels st) h2 = Some target →
     Str.blank (text h2) = false →
     sanitize_filename (text h1) = base →
     sanitize_filename (text h2) = base →
     Forall (is_blank_body (heading_levels st)) blanks →
     Forall (is_body (heading_levels st)) body → body ≠ [] →
     ∃ st1 loc st',
       parse_scan env target st = Some (st1, Some loc)
       ∧ base ∈ used_titles loc
       ∧ (∃ s, heap st1 !! 0 = Some s ∧ title s = text h1
               ∧ safe_title s = base)
       ∧ 0 ∉ sections st1
       ∧ parse_sections env target st = Some st'
       ∧ section_list st'
         = [ {| title := text h2; safe_title := candidate base 1;
                level := target; content := body;
                start_index := Z.of_nat (S (length blanks));
                end_index :=
                  Some (Z.of_nat (S (length blanks) + length body)) |} ]
       ∧ candidate base 1 ≠ base
       ∧ ("."%char ∉ Str.chars base → candidate base 1 = base +:+ "_1")).
Proof.
  intros Hheap. split; [intros st1 loc H; by eapply parse_scan_names|].
  intros Henv Hc Hsec Hdoc H1 H1b H2 H2b Hs1 Hs2 Hbl Hbody Hne.
  unfold parse_sections, parse_scan.
  rewrite clean_document_quiet by done. simpl. rewrite Hdoc.
  assert (scan_marks (heading_levels st) target
            (h1 :: blanks ++ h2 :: body) 0 (h1 :: blanks ++ h2 :: body) = [])
    as ->.
  { simpl. rewrite (marks_target_heading _ _ _ _ h1) by done.
    rewrite scan_marks_app.
    rewrite scan_marks_no_heading by by apply blank_body_no_heading.
    simpl. rewrite (marks_target_heading _ _ _ _ h2) by done.
    by rewrite scan_marks_no_heading by by apply body_no_heading. }
  change (remove_marked (h1 :: blanks ++ h2 :: body) [])
    with (h1 :: blanks ++ h2 :: body).
  rewrite parse_loop_quiet by done.
  set (st0 := set_doc _ _).
  rewrite (parse_steps_section target 0 h1 blanks (h2 :: body) st0
             fresh_locals st0 base ({[base]} ∪ ∅));
    [|done|done|done| |].
  2:{ rewrite Hs1. apply ensure_unique_fresh. set_solver. }
  2:{ by apply blank_body_no_heading. }
  simpl. rewrite Hheap, Hsec. simpl.
  set (sec1 := {| title := text h1 |}).
  set (st2 := set_sections [0] _).
  set (loc2 := {| current_section := Some 0 |}).
  assert (has_content sec1 = false) as Hc1
    by (by apply (has_content_blank (heading_levels st))).
  rewrite (parse_steps_section_last target _ h2 body st2 loc2
             (set_sections []
                (set_heap (<[0 := set_end_index
                                    (Z.of_nat (S (length blanks)) - 1)
                                    sec1]> (heap st2)) st2))
             (candidate base 1) (used_after base 1));
    [|done|done| | |].
  2:{ apply (close_section_discard _ _ _ sec1); [done | done|].
      simpl. by destruct (decide (0 = 0)). }
  2:{ rewrite Hs2. simpl.
      replace ({[base]} ∪ ∅ : gset string) with (used_after base 0)
        by (unfold used_after; set_solver).
      apply ensure_unique_next. }
  2:{ by apply body_no_heading. }
  simpl. eexists _, _, _. split; [done|].
  split; [unfold used_after; set_solver|].
  split; [by eexists|]. split; [set_solver|].
  unfold parse_finish, close_current. simpl.
  set (sec2 := {| title := text h2 |}).
  assert (has_content sec2 = true) as Hc2
    by (apply (has_content_body (heading_levels st) sec2 body []);
        [by rewrite app_nil_r | done | done]).
  erewrite close_section_keep; [|done|done]. simpl.
  destruct Henv as (_ & _ & -> & _). rewrite poll_false.
  subst st2 st0. simpl. rewrite Hc.
  split; [done|]. split.
  - unfold section_list. simpl. subst sec2. unfold set_end_index. simpl.
    rewrite !length_app. simpl. repeat f_equal; lia.
  - split; [apply candidate_ne_base|]. intros Hdot.
    by rewrite candidate_no_dot.
Qed.

Lemma discarded_section_keeps_name_witness :
  ∃ st1 loc st',
    parse_scan quiet 3 (example_splitter
                          [heading3 "A"; normal " "; heading3 "A";
                           normal "x"])
    = Some (st1, Some loc)
    ∧ "A" ∈ used_titles loc
    ∧ (∃ s, heap st1 !! 0 = Some s ∧ title s = "A" ∧ safe_title s = "A")
    ∧ 0 ∉ sections st1
    ∧ parse_sections quiet 3 (example_splitter
                                [heading3 "A"; normal " "; heading3 "A";
                                 normal "x"])
      = Some st'
    ∧ section_list st'
      = [ {| title := "A"; safe_title := candidate "A" 1; level := 3;
             content := [normal "x"]; start_index := 2;
             end_index := Some 3%Z |} ]
    ∧ candidate "A" 1 ≠ "A"
    ∧ ("."%char ∉ Str.chars "A" → candidate "A" 1 = "A_1").
Proof.
  refine (proj2 (discarded_section_keeps_name quiet 3
                   (example_splitter
                      [heading3 "A"; normal " "; heading3 "A"; normal "x"])
                   (heading3 "A") (heading3 "A") [normal " "] [normal "x"]
                   "A" eq_refl)
            quiet_no_cancel eq_refl eq_refl eq_refl
            _ _ _ _ _ _ _ _ _);
    try (by vm_compute); by repeat constructor.
Defined.

(** * Further properties of the code *)

(** ** FilenameManager: shape and fixed points of sanitize_filename *)

Lemma chars_length s : length (Str.chars s) = String.length s.
Proof. induction s as [|c s IH]; simpl; [done | by rewrite IH]. Qed.

(** X1. For every title and every [max_length] that is not negative,
    the sanitized name has at most [max_length] characters, no whitespace
    character and no two dots in a row, and sanitizing it again with the
    same [max_length] gives it back. *)
Theorem sanitize_filename_len_shape (title : string) (max_length : Z) :
  (0 ≤ max_length)%Z →
  (Z.of_nat (String.length (sanitize_filename_len title max_length))
   ≤ max_length)%Z
  ∧ Forall (λ c, Str.is_space c = false)
      (Str.chars (sanitize_filename_len title max_length))
  ∧ Str.no_adj is_dot (Str.chars (sanitize_filename_len title max_length))
  ∧ sanitize_filename_len (sanitize_filename_len title max_length)
      max_length
    = sanitize_filename_len title max_length.
Proof.
  intros Hm. rewrite <- (Z2Nat.id max_length) by done.
  unfold sanitize_filename_len. rewrite <- chars_length, !chars_of_chars.
  pose proof (sanitize_chars_sanitized (Z.to_nat max_length)
                (Str.chars title)) as Hs.
  rewrite (sanitize_chars_fixed _ _ Hs).
  destruct Hs. split; [lia|done].
Qed.

Lemma sanitize_filename_len_shape_witness :
  (Z.of_nat (String.length (sanitize_filename_len "a  b..c d.txt" 6)) ≤ 6)%Z
  ∧ Forall (λ c, Str.is_space c = false)
      (Str.chars (sanitize_filename_len "a  b..c d.txt" 6))
  ∧ Str.no_adj is_dot (Str.chars (sanitize_filename_len "a  b..c d.txt" 6))
  ∧ sanitize_filename_len (sanitize_filename_len "a  b..c d.txt" 6) 6
    = sanitize_filename_len "a  b..c d.txt" 6.
Proof.
  apply (sanitize_filename_len_shape "a  b..c d.txt" 6). lia.
Defined.

(** X2. The names [sanitize_filename] leaves unchanged are exactly those
    without forbidden character, without whitespace, without two dots in
    a row, of at most 240 characters, that neither begin nor end with a
    dot or an underscore. *)
Theorem sanitize_filename_fixed_points (x : string) :
  sanitize_filename x = x ↔ sanitized 240 (Str.chars x).
Proof.
  unfold sanitize_filename, sanitize_filename_len.
  change 240%Z with (Z.of_nat 240). split.
  - intros H. rewrite <- H at 1. rewrite chars_of_chars.
    apply sanitize_chars_sanitized.
  - intros H. rewrite sanitize_chars_fixed by done. apply of_chars_chars.
Qed.

Lemma lstrip_all p l : Forall (λ c, p c = true) l → Str.lstrip p l = [].
Proof. induction 1 as [|c l Hc Hl IH]; simpl; [done|]. by rewrite Hc. Qed.

(** X3. A title made only of forbidden characters, whitespace, dots and
    underscores is sanitized to the empty name, whatever [max_length]. *)
Theorem sanitize_filename_len_empty (title : string) (max_length : Z) :
  Forall (λ c, invalid_char c || Str.is_space c || edge_char c = true)
    (Str.chars title) →
  sanitize_filename_len title max_length = "".
Proof.
  intros H. unfold sanitize_filename_len, sanitize_chars.
  set (l1 := Str.delete_chars invalid_char (Str.chars title)).
  assert (Forall (λ c, Str.is_space c || edge_char c = true) l1) as H1.
  { unfold l1. induction H as [|c l Hc Hl IH]; simpl; [done|].
    destruct (invalid_char c) eqn:Hi; simpl; [done|].
    constructor; [exact Hc | done]. }
  set (l2 := Str.sub_runs Str.is_space "_" false l1).
  assert (∀ b, Forall (λ c, edge_char c = true)
                 (Str.sub_runs Str.is_space "_" b l1)) as H2'.
  { induction H1 as [|c l Hc Hl IH]; intros b; simpl; [done|].
    destruct (Str.is_space c) eqn:Hsp.
    - destruct b; [apply IH | constructor; [done | apply IH]].
    - constructor; [exact Hc | apply IH]. }
  pose proof (H2' false) as H2. fold l2 in H2.
  set (l3 := Str.sub_runs is_dot "." false l2).
  assert (Forall (λ c, edge_char c = true) l3) as H3
    by (by apply sub_runs_Forall).
  destruct (slice_to_take max_length l3) as [k ->].
  unfold Str.strip. rewrite lstrip_all; [done|]. by apply Forall_take.
Qed.

Lemma sanitize_filename_len_empty_witness :
  sanitize_filename_len "?? .._" 240 = "".
Proof.
  apply (sanitize_filename_len_empty "?? .._" 240).
  repeat constructor.
Defined.

(** ** FilenameManager: what ensure_unique returns *)

(** X4. [ensure_unique] always returns. The name returned was not in the
    set, and the set afterwards is the old one plus that name. An unused
    name is returned as it is; for a used one the result is the candidate
    of the smallest counter, from 1 on, that is not in the set. *)
Theorem ensure_unique_result (filename : string) (used : gset string) :
  ∃ name,
    ensure_unique filename used = Some (name, {[name]} ∪ used)
    ∧ name ∉ used
    ∧ (filename ∉ used → name = filename)
    ∧ (filename ∈ used →
       ∃ j, 1 ≤ j ∧ name = candidate filename j
            ∧ ∀ i, 1 ≤ i < j → candidate filename i ∈ used).
Proof.
  unfold ensure_unique.
  destruct (ensure_unique_loop_total filename used) as [name Hn].
  exists name. rewrite Hn. split; [done|].
  destruct (ensure_unique_loop_spec _ _ _ _ _ _ Hn)
    as [Hnot [->|(Hin & j & Hj & -> & Hall)]].
  - split; [done|]. split; [done|]. by intros ?.
  - split; [done|]. split; [by intros ?|]. intros _. by exists j.
Qed.

Lemma rsplit_last_tail sep l h t :
  rsplit_last sep l = Some (h, t) → sep ∉ t.
Proof.
  revert h t. induction l as [|c l IH]; intros h t; simpl; [done|].
  destruct (rsplit_last sep l) as [[h' t']|] eqn:Hl.
  - intros [= <- <-]. by eapply IH.
  - destruct (Ascii.eqb c sep); [|done]. intros [= <- <-].
    intros Hin. clear IH. revert Hl Hin.
    induction l as [|d l IH]; simpl; [by intros _ ?%elem_of_nil|].
    destruct (rsplit_last sep l) as [[? ?]|]; [done|].
    destruct (Ascii.eqb_spec d sep); [done|].
    intros _ [->|?]%elem_of_cons; [done | by apply IH].
Qed.

Lemma rsplit_last_app sep h t :
  sep ∉ t → rsplit_last sep (h ++ sep :: t) = Some (h, t).
Proof.
  intros Ht. induction h as [|c h IH]; simpl.
  - by rewrite rsplit_last_none, Ascii.eqb_refl.
  - by rewrite IH.
Qed.

Lemma pretty_nat_digits (k : nat) :
  Forall (λ c, is_Some (digit_value c)) (Str.chars (pretty k)).
Proof.
  unfold pretty, pretty_nat, pretty, pretty_N.
  destruct (decide (N.of_nat k = 0%N)) as [|_].
  { repeat constructor. by eexists. }
  destruct (pretty_N_go_digits (N.of_nat k) "") as (d & Hd & Hall & _).
  simpl in Hd. rewrite app_nil_r in Hd. by rewrite Hd.
Qed.

(** X5. The counter goes before the last dot: when the name splits into
    a stem and an extension at its last dot, the candidate splits into
    the stem followed by [_counter] and the same extension. *)
Theorem candidate_keeps_extension (base stem ext : string) (counter : nat) :
  rsplit1 "." base = [stem; ext] →
  rsplit1 "." (candidate base counter)
  = [stem +:+ "_" +:+ pretty counter; ext].
Proof.
  unfold candidate, rsplit1.
  destruct (rsplit_last "." (Str.chars base)) as [[h t]|] eqn:Hs; [|done].
  intros [= <- <-].
  rewrite !chars_app, !chars_of_chars.
  change (h ++ Str.chars "_" ++ Str.chars (pretty counter)
          ++ Str.chars "." ++ t)
    with (h ++ ("_"%char :: Str.chars (pretty counter)) ++ "."%char :: t).
  rewrite app_assoc, rsplit_last_app by by eapply rsplit_last_tail.
  f_equal. apply chars_inj. by rewrite !chars_app, !chars_of_chars.
Qed.

Lemma candidate_keeps_extension_witness :
  rsplit1 "." (candidate "report.v2.docx" 7) = ["report.v2_7"; "docx"].
Proof.
  exact (candidate_keeps_extension "report.v2.docx" "report.v2" "docx" 7
           eq_refl).
Defined.

(** X6. Successive calls of [ensure_unique] with any names on one shared
    set return pairwise distinct names, none of which was in the set
    before, and the set ends as the old one plus the names returned. *)
Theorem ensure_unique_all_distinct (filenames : list string)
    (used : gset string) :
  ∃ names used',
    ensure_unique_all filenames used = Some (names, used')
    ∧ length names = length filenames
    ∧ NoDup names
    ∧ (∀ x, x ∈ names → x ∉ used)
    ∧ used' = list_to_set names ∪ used.
Proof.
  revert used. induction filenames as [|f fs IH]; intros used; simpl.
  { exists [], used. split; [done|]. split; [done|].
    split; [constructor|]. set_solver. }
  destruct (ensure_unique_total f used) as [[name used1] Hu]. rewrite Hu.
  apply ensure_unique_spec in Hu as [Hfresh ->]. simpl.
  destruct (IH ({[name]} ∪ used)) as (names & used' & -> & Hlen & Hnd & Hout
                                      & ->).
  simpl. exists (name :: names), (list_to_set names ∪ ({[name]} ∪ used)).
  split; [done|]. split; [simpl; by f_equal|]. split; [|split].
  - constructor; [|done]. intros Hin%Hout. set_solver.
  - intros x [->|Hx%Hout]%elem_of_cons; set_solver.
  - set_solver.
Qed.

(** ** StyleProcessor: which styles get a level *)

Lemma split_go_last cur l w :
  w ≠ [] → Forall (λ c, Str.is_space c = false) w →
  last (split_go cur (l ++ " "%char :: w)) = Some w.
Proof.
  intros Hne Hw. revert cur. induction l as [|a l IH]; intros cur.
  - destruct w as [|c w]; [done|]. inversion Hw as [|? ? Hc Hw']; subst.
    cbn [app split_go]. change (Str.is_space " "%char) with true.
    cbn match. rewrite Hc, split_go_word by done. by destruct cur.
  - cbn [app split_go]. destruct (Str.is_space a); [|apply IH].
    destruct cur; [|apply IH]. by rewrite last_cons, IH.
Qed.

Lemma split_go_blank l :
  Forall (λ c, Str.is_space c = true) l → split_go None l = [].
Proof. induction 1 as [|c l Hc _ IH]; simpl; [done|]. by rewrite Hc. Qed.

(** The decimal numeral of an integer is one token, which [int] reads
    back. *)
Lemma pretty_Z_token (k : Z) :
  ∃ w, Str.chars (pretty k) = w ∧ w ≠ []
    ∧ Forall (λ c, Str.is_space c = false) w
    ∧ int (Str.of_chars w) = Some k.
Proof.
  destruct k as [|p|p].
  - exists ["0"%char]. split; [done|]. split; [done|].
    split; [by repeat constructor|done].
  - destruct (pretty_positive_digits p) as (c & d & Hk & Hall & Hint).
    assert (Forall (λ c, Str.is_space c = false) (c :: d)) as Hsp.
    { eapply Forall_impl; [exact Hall|]. intros x [v Hv].
      by eapply digit_not_space. }
    exists (c :: d). split; [exact Hk|]. split; [done|]. split; [done|].
    unfold int. rewrite chars_of_chars, strip_space_id by done.
    inversion Hall as [|? ? [v Hv] _]; subst.
    destruct (digit_not_sign _ _ Hv) as [-> ->]. exact Hint.
  - destruct (pretty_positive_digits p) as (c & d & Hk & Hall & Hint).
    assert (Forall (λ c, Str.is_space c = false) ("-"%char :: c :: d))
      as Hsp.
    { constructor; [done|]. eapply Forall_impl; [exact Hall|].
      intros x [v Hv]. by eapply digit_not_space. }
    exists ("-"%char :: c :: d).
    split. { change (pretty (Z.neg p)) with ("-" +:+ pretty p).
             by rewrite chars_app, Hk. }
    split; [done|]. split; [done|].
    unfold int. rewrite chars_of_chars, strip_space_id by done.
    change (Ascii.eqb "-" "-") with true. cbn match. by rewrite Hint.
Qed.

Lemma trailing_level_last_token (rest : string) (k : Z) :
  trailing_level (rest +:+ " " +:+ pretty k) = Some k.
Proof.
  destruct (pretty_Z_token k) as (w & Hw & Hne & Hsp & Hint).
  unfold trailing_level, split. rewrite !chars_app, Hw.
  change (Str.chars " " ++ w) with (" "%char :: w).
  by rewrite fmap_last, split_go_last by done.
Qed.

Lemma process_style_entry heading_levels style name level :
  process_style heading_levels style !! name = Some level →
  heading_levels !! name = Some level
  ∨ (style_name style = name ∧ style_type style = PARAGRAPH
     ∧ if String.prefix "Heading " name
       then trailing_level name = Some level
       else ∃ b, base_style style = Some b
                 ∧ String.prefix "Heading " b = true
                 ∧ trailing_level b = Some level).
Proof.
  unfold process_style.
  destruct (decide (style_type style ≠ PARAGRAPH)) as [|Hty]; [by left|].
  apply dec_stable in Hty.
  destruct (decide (style_name style = name)) as [<-|Hne].
  - destruct (String.prefix "Heading " (style_name style)) eqn:Hp.
    + destruct (trailing_level (style_name style)) eqn:Ht; [|by left].
      rewrite lookup_insert_eq. intros [= <-]. by right.
    + destruct (base_style style) as [b|] eqn:Hb; [|by left].
      destruct (String.prefix "Heading " b) eqn:Hpb; [|by left].
      destruct (trailing_level b) eqn:Ht; [|by left].
      rewrite lookup_insert_eq. intros [= <-]. right.
      split; [done|]. split; [done|]. by exists b.
  - intros H. left. revert H.
    repeat (case_match; try done); by rewrite lookup_insert_ne.
Qed.

(** X7. Among styles with unique names, a paragraph style whose name
    begins with [Heading ] and ends in a space followed by the decimal
    numeral of an integer [k] gets level [k], whatever stands in between
    and whatever its base style is. *)
Theorem process_styles_last_token (styles : list Style) (style : Style)
    (rest : string) (k : Z) :
  NoDup (style_name <$> styles) → style ∈ styles →
  style_type style = PARAGRAPH →
  String.prefix "Heading " (style_name style) = true →
  style_name style = rest +:+ " " +:+ pretty k →
  _process_styles styles !! style_name style = Some k.
Proof.
  intros Hnd Hin Hty Hp Hn.
  assert (trailing_level (style_name style) = Some k) as Ht.
  { rewrite Hn. apply trailing_level_last_token. }
  destruct (process_styles_lookup styles style Hnd Hin) as (m & Hm & ->).
  unfold process_style. rewrite Hty, Hp, Ht.
  destruct (decide (PARAGRAPH ≠ PARAGRAPH)) as [?|_]; [done|].
  by rewrite lookup_insert_eq.
Qed.

Lemma process_styles_last_token_witness :
  _process_styles [heading2; heading_sub4] !! "Heading Sub 4" = Some 4%Z.
Proof.
  refine (process_styles_last_token [heading2; heading_sub4] heading_sub4
            "Heading Sub" 4 _ _ eq_refl eq_refl eq_refl).
  - by apply (bool_decide_unpack _).
  - repeat constructor.
Defined.

(** X8. Every entry of the level table comes from a paragraph style of
    that name: its own name begins with [Heading ] and its last token
    reads as the level, or else it has a base style whose name begins with
    [Heading ] and whose last token reads as the level. *)
Theorem process_styles_entries (styles : list Style) (name : string)
    (level : Z) :
  _process_styles styles !! name = Some level →
  ∃ style, style ∈ styles ∧ style_name style = name
    ∧ style_type style = PARAGRAPH
    ∧ if String.prefix "Heading " name
      then trailing_level name = Some level
      else ∃ b, base_style style = Some b
                ∧ String.prefix "Heading " b = true
                ∧ trailing_level b = Some level.
Proof.
  unfold _process_styles.
  assert (∀ m, foldl process_style m styles !! name = Some level →
               m !! name = Some level
               ∨ ∃ style, style ∈ styles ∧ style_name style = name
                   ∧ style_type style = PARAGRAPH
                   ∧ if String.prefix "Heading " name
                     then trailing_level name = Some level
                     else ∃ b, base_style style = Some b
                               ∧ String.prefix "Heading " b = true
                               ∧ trailing_level b = Some level) as H.
  { induction styles as [|s styles IH]; intros m; simpl; [by left|].
    intros [Hm|(style & Hin & Hrest)]%IH.
    - apply process_style_entry in Hm as [Hm|(Hn & Hty & Hl)]; [by left|].
      right. exists s. split; [left|done].
    - right. exists style. split; [by right|done]. }
  intros [Hm|Hs]%H; [by rewrite lookup_empty in Hm | done].
Qed.

Lemma process_styles_entries_witness :
  ∃ style, style ∈ [heading2; block_title]
    ∧ style_name style = "Block Title"
    ∧ style_type style = PARAGRAPH
    ∧ ∃ b, base_style style = Some b
           ∧ String.prefix "Heading " b = true
           ∧ trailing_level b = Some 2%Z.
Proof.
  exact (process_styles_entries [heading2; block_title] "Block Title" 2
           eq_refl).
Defined.

(** X9. Among styles with unique names, a style gets no level when it is
    not a paragraph style, and when neither its own name nor the name of
    its base style begins with [Heading ]: a level is inherited from the
    base style only, not from the base of the base. *)
Theorem process_styles_no_entry (styles : list Style) (style : Style) :
  NoDup (style_name <$> styles) → style ∈ styles →
  style_type style ≠ PARAGRAPH
  ∨ (String.prefix "Heading " (style_name style) = false
     ∧ ∀ b, base_style style = Some b → String.prefix "Heading " b = false) →
  _process_styles styles !! style_name style = None.
Proof.
  intros Hnd Hin Hcase.
  destruct (process_styles_lookup styles style Hnd Hin) as (m & Hm & ->).
  unfold process_style.
  destruct (decide (style_type style ≠ PARAGRAPH)) as [|Hty]; [done|].
  destruct Hcase as [?|[-> Hb]]; [done|].
  destruct (base_style style) as [b|]; [|done].
  by rewrite (Hb b eq_refl).
Qed.

Lemma process_styles_no_entry_witness :
  _process_styles [heading2; heading2_char; block_title; sub_block]
    !! "Block Title" = Some 2%Z
  ∧ _process_styles [heading2; heading2_char; block_title; sub_block]
      !! "Sub Block" = None
  ∧ _process_styles [heading2; heading2_char; block_title; sub_block]
      !! "Heading 2 Char" = None.
Proof.
  split; [reflexivity|]. split.
  - refine (process_styles_no_entry
              [heading2; heading2_char; block_title; sub_block] sub_block
              _ _ _).
    + by apply (bool_decide_unpack _).
    + repeat constructor.
    + right. split; [reflexivity|]. by intros b [= <-].
  - refine (process_styles_no_entry
              [heading2; heading2_char; block_title; sub_block]
              heading2_char _ _ _).
    + by apply (bool_decide_unpack _).
    + repeat constructor.
    + by left.
Defined.

(** ** DocSplitterDialog.get_heading_level *)

(** X10. The level the dialog reads off the selection [Heading k] is [k],
    and it is the level the style table gives to the paragraphs of the
    paragraph style of that name: the selection and the styles of the
    document are read by the same rule. *)
Theorem dialog_level_matches_style (styles : list Style) (style : Style)
    (para : Paragraph) (k : Z) :
  NoDup (style_name <$> styles) → style ∈ styles →
  style_type style = PARAGRAPH →
  style_name style = "Heading " +:+ pretty k →
  para_style para = Some (style_name style) →
  DocSplitterDialog.get_heading_level (style_name style) = k
  ∧ get_heading_level (_process_styles styles) para
    = Some (DocSplitterDialog.get_heading_level (style_name style)).
Proof.
  intros Hnd Hin Hty Hn Hp.
  assert (trailing_level (style_name style) = Some k) as Ht.
  { rewrite Hn. apply (trailing_level_last_token "Heading" k). }
  unfold DocSplitterDialog.get_heading_level. rewrite Ht. split; [done|].
  unfold get_heading_level. rewrite Hp.
  destruct (decide (style_name style = "")) as [He|_].
  { by rewrite Hn in He. }
  destruct (process_styles_lookup styles style Hnd Hin) as (m & Hm & ->).
  unfold process_style. rewrite Hty.
  destruct (decide (PARAGRAPH ≠ PARAGRAPH)) as [?|_]; [done|].
  assert (String.prefix "Heading " (style_name style) = true) as ->.
  { rewrite Hn. apply prefix_heading. }
  by rewrite Ht, lookup_insert_eq.
Qed.

Lemma dialog_level_matches_style_witness :
  DocSplitterDialog.get_heading_level "Heading 3" = 3%Z
  ∧ get_heading_level (_process_styles [normal_style; heading3_style])
      (heading3 "A")
    = Some (DocSplitterDialog.get_heading_level "Heading 3").
Proof.
  refine (dialog_level_matches_style [normal_style; heading3_style]
            heading3_style (heading3 "A") 3 _ _ eq_refl eq_refl eq_refl).
  - by apply (bool_decide_unpack _).
  - repeat constructor.
Defined.

(** X11. A selection that is empty or all whitespace has no last token,
    and the dialog falls back to level 3. *)
Theorem dialog_level_default (heading_text : string) :
  Forall (λ c, Str.is_space c = true) (Str.chars heading_text) →
  DocSplitterDialog.get_heading_level heading_text = 3%Z.
Proof.
  intros H. unfold DocSplitterDialog.get_heading_level, trailing_level, split.
  by rewrite split_go_blank.
Qed.

Lemma dialog_level_default_witness :
  DocSplitterDialog.get_heading_level "  " = 3%Z.
Proof.
  apply (dialog_level_default "  "). by repeat constructor.
Defined.

(** ** DocxSplitter._clean_document: cancellation and repeated marks *)

(** A scan either stops at a checkpoint, with the flag set and no mark
    list, or runs to its end without any change to the splitter. *)
Lemma clean_scan_cases env target paragraphs rest :
  ∀ idx marked st,
    (∃ st',
       clean_scan env target paragraphs idx rest marked st = (st', None)
       ∧ cancel_requested st' = true ∧ doc st' = doc st
       ∧ heap st' = heap st ∧ sections st' = sections st)
    ∨ clean_scan env target paragraphs idx rest marked st
      = (st, Some (marked
                   ++ scan_marks (heading_levels st) target paragraphs idx
                        rest)).
Proof.
  induction rest as [|para rest IH]; intros idx marked st; simpl.
  { right. by rewrite app_nil_r. }
  destruct (idx mod 100 =? 0); simpl.
  - destruct (cancel_at_clean env idx); simpl.
    { left. by eexists. }
    destruct (cancel_requested st) eqn:Hc.
    { left. by eexists. }
    destruct (IH (S idx)
                (marked ++ marks (heading_levels st) target paragraphs idx
                             para) st) as [H| ->]; [by left|].
    right. by rewrite <- app_assoc.
  - destruct (IH (S idx)
                (marked ++ marks (heading_levels st) target paragraphs idx
                             para) st) as [H| ->]; [by left|].
    right. by rewrite <- app_assoc.
Qed.

Lemma clean_document_cases env target st :
  (cancel_requested (_clean_document env target st) = true
   ∧ doc (_clean_document env target st) = doc st
   ∧ heap (_clean_document env target st) = heap st
   ∧ sections (_clean_document env target st) = sections st)
  ∨ (cancel_requested st = false
     ∧ _clean_document env target st
       = set_doc
           (remove_marked (doc st)
              (scan_marks (heading_levels st) target (doc st) 0 (doc st)))
           st).
Proof.
  unfold _clean_document.
  destruct (clean_scan_cases env target (doc st) (doc st) 0 [] st)
    as [(st' & -> & Hc & Hd & Hh & Hs)| Hscan]; [by left|].
  rewrite Hscan. simpl.
  destruct (cancel_requested st) eqn:Hc; [|by right].
  left. destruct (doc st) as [|para rest] eqn:Hdoc; [done|].
  simpl in Hscan. rewrite poll_cancelled in Hscan by auto. done.
Qed.

Lemma remove_paragraph_sublist paragraphs idx :
  remove_paragraph paragraphs idx `sublist_of` paragraphs.
Proof.
  unfold remove_paragraph. case_match; [apply sublist_delete | done].
Qed.

Lemma remove_all_sublist l :
  ∀ paragraphs, foldl remove_paragraph paragraphs l `sublist_of` paragraphs.
Proof.
  induction l as [|i l IH]; intros paragraphs; simpl; [done|].
  etrans; [apply IH | apply remove_paragraph_sublist].
Qed.

Lemma delete_app_lt {A} (l1 l2 : list A) i :
  i < length l1 → delete i (l1 ++ l2) = delete i l1 ++ l2.
Proof.
  revert i. induction l1 as [|x l1 IH]; intros [|i] Hi; simpl in *;
    try lia; [done|].
  f_equal. apply IH. lia.
Qed.

Lemma delete_app_length {A} (l1 l2 : list A) :
  delete (length l1) (l1 ++ l2) = l1 ++ delete 0 l2.
Proof. induction l1 as [|x l1 IH]; simpl; [done|]. by f_equal. Qed.

Lemma sorted_hd_le d l :
  StronglySorted le l → Forall (le (hd d l)) l.
Proof.
  destruct 1 as [|i l Hl Hi]; simpl; [constructor|].
  constructor; [done|exact Hi].
Qed.

(** Removing by descending indices removes every marked paragraph, also
    when an index is marked more than once: each paragraph that is left
    had an index that is not marked. *)
Lemma remove_descending_marked paragraphs l :
  StronglySorted le l →
  ∃ T,
    foldl remove_paragraph paragraphs (reverse l)
    = take (hd (length paragraphs) l `min` length paragraphs) paragraphs
      ++ T
    ∧ ∀ x, x ∈ T →
        ∃ j, hd (length paragraphs) l `min` length paragraphs ≤ j
             ∧ paragraphs !! j = Some x ∧ j ∉ l.
Proof.
  induction 1 as [|i l Hl IH Hi].
  { exists []. simpl. rewrite Nat.min_id, take_ge by done.
    split; [by rewrite app_nil_r|]. by intros x ?%elem_of_nil. }
  destruct IH as (T' & HR & HT').
  pose proof (sorted_hd_le (length paragraphs) l Hl) as Hhd.
  set (m' := hd (length paragraphs) l `min` length paragraphs) in *.
  assert (Forall (le m') l) as Hm'.
  { eapply Forall_impl; [exact Hhd|]. simpl. intros; unfold m'; lia. }
  rewrite Forall_forall in Hm'.
  rewrite reverse_cons, foldl_snoc, HR. cbn [hd].
  destruct (decide (length paragraphs ≤ i)) as [Hge|Hlt].
  - (* the safety check fails: nothing is removed *)
    assert (m' = length paragraphs) as Hm.
    { unfold m'. destruct l as [|n l]; simpl; [lia|].
      inversion Hi; subst. lia. }
    assert (T' = []) as ->.
    { destruct T' as [|x T']; [done|].
      destruct (HT' x) as (j & Hj & Hx%lookup_lt_Some & _); [left|lia]. }
    exists []. rewrite Nat.min_r by done. rewrite Hm.
    split; [|by intros x ?%elem_of_nil].
    unfold remove_paragraph.
    rewrite app_nil_r, take_ge by done.
    by rewrite (proj2 (Nat.ltb_ge _ _)) by done.
  - rewrite Nat.min_l by lia.
    assert (i ≤ m' ∧ m' ≤ length paragraphs) as [Him Hml].
    { unfold m'. destruct l as [|n l]; simpl; [lia|].
      inversion Hi; subst. lia. }
    destruct (decide (i = m')) as [Heq|Hne].
    + (* the index was removed before *)
      assert (i ∈ l) as Hil.
      { unfold m' in Heq. destruct l as [|n l]; simpl in Heq; [lia|].
        replace i with n by lia. left. }
      rewrite <- Heq in *.
      exists (if i <? length (take i paragraphs ++ T')
              then delete 0 T' else T').
      split.
      * unfold remove_paragraph.
        destruct (i <? length (take i paragraphs ++ T')); [|done].
        rewrite <- (length_take_le paragraphs i) at 1 by lia.
        apply delete_app_length.
      * intros x Hx.
        assert (x ∈ T') as HxT.
        { destruct (i <? length (take i paragraphs ++ T')); [|done].
          eapply elem_of_sublist; [exact Hx | apply sublist_delete]. }
        destruct (HT' x HxT) as (j & Hj & Hpx & Hjl).
        exists j. split; [done|]. split; [done|].
        intros [->|?]%elem_of_cons; done.
    + exists (drop (S i) (take m' paragraphs) ++ T'). split.
      * unfold remove_paragraph.
        rewrite (proj2 (Nat.ltb_lt _ _))
          by (rewrite length_app, length_take_le by lia; lia).
        rewrite delete_app_lt by (rewrite length_take_le by lia; lia).
        rewrite delete_take_drop, take_take, Nat.min_l by lia.
        by rewrite <- app_assoc.
      * intros x [Hx|Hx]%elem_of_app.
        -- apply list_elem_of_lookup in Hx as [k Hk].
           rewrite lookup_drop in Hk.
           apply lookup_take_Some in Hk as [Hk Hlt'].
           exists (S i + k). split; [lia|]. split; [done|].
           intros [?|Hin%Hm']%elem_of_cons; lia.
        -- destruct (HT' x Hx) as (j & Hj & Hpx & Hjl).
           exists j. split; [lia|]. split; [done|].
           intros [->|?]%elem_of_cons; [lia|done].
Qed.

Lemma remove_marked_elements heading_levels target paragraphs x :
  x ∈ remove_marked paragraphs
        (scan_marks heading_levels target paragraphs 0 paragraphs) →
  ∃ j, paragraphs !! j = Some x
       ∧ j ∉ scan_marks heading_levels target paragraphs 0 paragraphs.
Proof.
  unfold remove_marked.
  destruct (scan_marks_sorted heading_levels target paragraphs paragraphs 0)
    as [Hs _].
  rewrite merge_sort_descending by done.
  destruct (remove_descending_marked paragraphs _ Hs) as (T & -> & HT).
  pose proof (sorted_hd_le (length paragraphs) _ Hs) as Hhd.
  rewrite Forall_forall in Hhd.
  intros [Hx|Hx]%elem_of_app.
  - apply elem_of_take in Hx as (j & Hj & Hlt).
    exists j. split; [done|]. intros Hin%Hhd. lia.
  - destruct (HT x Hx) as (j & _ & Hj & Hin). by exists j.
Qed.

(** X12. For every environment, cleaning only removes paragraphs: the
    cleaned document is a sublist of the original one, and sections,
    section objects, files and directories are as before. A cleaning that
    reports that it was cancelled has removed nothing. *)
Theorem clean_document_only_removes (env : Env) (target_level : Z)
    (st : DocxSplitter) :
  let st' := _clean_document env target_level st in
  doc st' `sublist_of` doc st
  ∧ heap st' = heap st ∧ sections st' = sections st
  ∧ files st' = files st ∧ dirs st' = dirs st
  ∧ ∀ reported,
      log st' = log st ++ reported →
      Status Canceled_during_cleaning ∈ reported →
      doc st' = doc st.
Proof.
  intros st'. unfold st'.
  destruct (clean_document_frame env target_level st) as (_ & _ & Hf & Hd).
  destruct (clean_document_cases env target_level st)
    as [(Hc & Hdoc & Hh & Hs)|[Hc ->]].
  - rewrite Hdoc. by repeat split.
  - simpl. split; [apply remove_all_sublist|]. repeat split.
    intros reported Hlog Hin.
    rewrite <- (app_nil_r (log st)) in Hlog at 1.
    apply app_inv_head in Hlog as <-. by apply elem_of_nil in Hin.
Qed.

(** What a cleaning that ran to its end leaves. *)
Lemma clean_document_complete (env : Env) (target_level : Z)
    (st : DocxSplitter) :
  cancel_requested (_clean_document env target_level st) = false →
  Forall
    (λ para, ∀ level,
       get_heading_level (heading_levels st) para = Some level →
       (target_level ≤ level)%Z ∧ Str.blank (text para) = false)
    (doc (_clean_document env target_level st)).
Proof.
  intros Hflag.
  destruct (clean_document_cases env target_level st)
    as [(Hc & _)|[Hc Heq]]; [congruence|].
  rewrite Heq. simpl. apply Forall_forall. intros x Hx level Hlevel.
  apply remove_marked_elements in Hx as (j & Hj & Hnot).
  assert (marks (heading_levels st) target_level (doc st) j x = []) as Hm.
  { destruct (marks (heading_levels st) target_level (doc st) j x)
      as [|i ms] eqn:Hm; [done|].
    exfalso. apply Hnot. apply elem_of_scan_marks.
    exists j, x. split; [done|]. simpl.
    destruct (marks_cases (heading_levels st) target_level (doc st) j x)
      as [H|[H|H]]; rewrite H in Hm; simplify_eq; rewrite H; left. }
  unfold marks in Hm. rewrite Hlevel in Hm.
  destruct (marked_heading target_level level x) eqn:Hmh; [done|].
  rewrite marked_heading_spec in Hmh.
  apply orb_false_iff in Hmh as [Hlt%Z.ltb_ge Hb]. done.
Qed.


(** X13. A cleaning that ends with the cancellation flag unset leaves no
    heading above the target level and no heading with blank text, also
    when the scan marks an index twice. *)
Theorem clean_document_no_marked_heading (env : Env) (target_level : Z)
    (st : DocxSplitter) :
  cancel_requested (_clean_document env target_level st) = false →
  Forall
    (λ para, ∀ level,
       get_heading_level (heading_levels st) para = Some level →
       (target_level ≤ level)%Z ∧ Str.blank (text para) = false)
    (doc (_clean_document env target_level st)).
Proof. apply clean_document_complete. Qed.

Lemma clean_document_no_marked_heading_witness :
  Forall
    (λ para, ∀ level,
       get_heading_level (heading_levels a_blank_b) para = Some level →
       (3 ≤ level)%Z ∧ Str.blank (text para) = false)
    (doc (_clean_document quiet 3 a_blank_b)).
Proof.
  exact (clean_document_no_marked_heading quiet 3 a_blank_b eq_refl).
Defined.

(** ** DocxSplitter.parse_sections: no exception, and what it returns *)

Lemma list_remove_total x l : x ∈ l → is_Some (list_remove x l).
Proof.
  induction l as [|y l IH]; [by intros ?%elem_of_nil|]. simpl.
  destruct (decide (x = y)); [by eexists|].
  intros [?|Hin]%elem_of_cons; [done|].
  destruct (IH Hin) as [l' ->]. by eexists.
Qed.

Lemma list_remove_NoDup x l l' :
  NoDup l → list_remove x l = Some l' →
  NoDup l' ∧ ∀ r, r ∈ l' ↔ r ∈ l ∧ r ≠ x.
Proof.
  revert l'. induction l as [|y l IH]; intros l' Hnd; simpl; [done|].
  inversion Hnd as [|? ? Hy Hnd']; subst.
  destruct (decide (x = y)) as [->|Hne].
  - intros [= <-]. split; [done|]. intros r. rewrite elem_of_cons. split.
    + intros Hr. split; [by right|]. by intros ->.
    + by intros [[->|?] ?].
  - destruct (list_remove x l) as [l0|] eqn:Hl; [|done]. simpl.
    intros [= <-]. destruct (IH l0 Hnd' eq_refl) as [Hnd0 Hiff]. split.
    + constructor; [|done]. rewrite Hiff. by intros [? ?].
    + intros r. rewrite !elem_of_cons, Hiff. split.
      * intros [->|[? ?]]; split; auto.
      * intros [[->|?] ?]; auto.
Qed.

Lemma poll_sections b st : sections (poll b st) = sections st.
Proof. by destruct b. Qed.

Lemma poll_heap b st : heap (poll b st) = heap st.
Proof. by destruct b. Qed.

Lemma poll_doc b st : doc (poll b st) = doc st.
Proof. by destruct b. Qed.

Lemma poll_heading_levels b st :
  heading_levels (poll b st) = heading_levels st.
Proof. by destruct b. Qed.

Lemma close_current_open e loc st :
  open_listed st loc → is_Some (close_current e loc st).
Proof.
  unfold close_current, open_listed.
  destruct (current_section loc) as [cur|]; [|by eexists].
  intros H. destruct (H cur eq_refl) as [Hin [s Hs]].
  unfold close_section. rewrite Hs. simpl.
  destruct (has_content s); [by eexists|].
  destruct (list_remove_total cur (sections st) Hin) as [l Hl].
  rewrite Hl. by eexists.
Qed.

Lemma parse_step_open target idx para st loc :
  open_listed st loc →
  (get_heading_level (heading_levels st) para = Some target →
   Str.blank (text para) = false) →
  ∃ st' loc',
    parse_step target idx para st loc = Some (st', loc')
    ∧ open_listed st' loc'.
Proof.
  intros Hopen Hb. unfold parse_step.
  destruct (decide (get_heading_level (heading_levels st) para
                    = Some target)) as [Hl|Hl].
  - destruct (close_current_open (Z.of_nat idx - 1) loc st Hopen)
      as [st1 ->]. simpl. rewrite (Hb Hl). simpl.
    destruct (ensure_unique_total (sanitize_filename (text para))
                (used_titles loc)) as [[name used] ->]. simpl.
    eexists _, _. split; [done|]. intros cur [= <-]. simpl. split.
    + apply elem_of_app. right. left.
    + apply lookup_lt_is_Some. rewrite length_app. simpl. lia.
  - destruct (current_section loc) as [cur|] eqn:Hcur.
    + destruct (Hopen cur Hcur) as [Hin [s Hs]]. rewrite Hs. simpl.
      eexists _, _. split; [done|]. intros cur' Hcur'.
      rewrite Hcur in Hcur'. injection Hcur' as <-. simpl.
      split; [done|]. rewrite list_lookup_insert_is_Some. by eexists.
    + eexists _, _. split; [done|]. intros cur Hc. congruence.
Qed.

Lemma parse_loop_open env target rest :
  ∀ idx st loc,
    open_listed st loc →
    Forall (λ para,
              get_heading_level (heading_levels st) para = Some target →
              Str.blank (text para) = false) rest →
    ∃ st' oloc,
      parse_loop env target idx rest st loc = Some (st', oloc)
      ∧ ∀ loc', oloc = Some loc' → open_listed st' loc'.
Proof.
  induction rest as [|para rest IH]; intros idx st loc Hopen Hall;
    unfold parse_loop; fold parse_loop.
  { eexists _, _. split; [done|]. by intros loc' [= <-]. }
  inversion Hall as [|? ? Hpara Hrest]; subst.
  set (st0 := if idx mod 50 =? 0 then poll (cancel_at_parse env idx) st
              else st).
  assert (heap st0 = heap st ∧ sections st0 = sections st
          ∧ heading_levels st0 = heading_levels st) as (Hh & Hs & Hhl).
  { unfold st0. destruct (idx mod 50 =? 0); [|done].
    by rewrite poll_heap, poll_sections, poll_heading_levels. }
  destruct ((idx mod 50 =? 0) && cancel_requested st0).
  { eexists _, _. split; [done|]. by intros loc' ?. }
  destruct (parse_step_open target idx para st0 loc)
    as (st1 & loc1 & Hstep & Hopen1).
  - intros cur Hc. rewrite Hh, Hs. by apply Hopen.
  - by rewrite Hhl.
  - rewrite Hstep. simpl. apply IH; [done|].
    destruct (parse_step_kept _ _ _ _ _ _ _ Hstep) as [(_ & -> & _) _].
    by rewrite Hhl.
Qed.

Lemma parse_finish_open env target st loc :
  open_listed st loc → is_Some (parse_finish env target st loc).
Proof.
  intros Hopen. unfold parse_finish.
  destruct (close_current_open (Z.of_nat (length (doc st)) - 1) loc st Hopen)
    as [st1 ->]. simpl.
  destruct (cancel_requested (poll (cancel_at_parse_end env) st1));
    by eexists.
Qed.

Lemma fresh_locals_open st : open_listed st fresh_locals.
Proof. by intros cur ?. Qed.

(** The loop of a state whose flag is set stops at its first checkpoint. *)
Lemma parse_loop_cancelled env target para rest st loc :
  cancel_requested st = true →
  parse_loop env target 0 (para :: rest) st loc
  = Some (set_sections []
            (status_callback Canceled_during_parsing
               (poll (cancel_at_parse env 0) st)), None).
Proof.
  intros Hc. unfold parse_loop; fold parse_loop.
  change (0 mod 50 =? 0) with true. cbn match.
  by rewrite poll_cancelled by auto.
Qed.

Lemma parse_sections_total env target st :
  is_Some (parse_sections env target st).
Proof.
  unfold parse_sections, parse_scan.
  set (st0 := status_callback (Parsing_sections target) st).
  destruct (clean_document_cases env target st0)
    as [(Hc & Hdoc & _)|[Hc Heq]].
  - destruct (doc (_clean_document env target st0)) as [|para rest] eqn:Hd.
    + unfold parse_loop. simpl.
      apply parse_finish_open, fresh_locals_open.
    + rewrite parse_loop_cancelled by done. simpl. by eexists.
  - pose proof (clean_document_complete env target st0) as Hpost.
    destruct (parse_loop_open env target
                (doc (_clean_document env target st0)) 0
                (_clean_document env target st0) fresh_locals)
      as (st1 & oloc & -> & Hopen).
    + apply fresh_locals_open.
    + destruct (clean_document_frame env target st0) as (_ & -> & _).
      eapply Forall_impl; [apply Hpost; by rewrite Heq|].
      simpl. intros para H Hl. by destruct (H _ Hl).
    + simpl. destruct oloc as [loc|]; [|by eexists].
      by apply parse_finish_open, Hopen.
Qed.

Lemma ensure_unique_name filename used name used' :
  ensure_unique filename used = Some (name, used') →
  name = filename ∨ ∃ j, 1 ≤ j ∧ name = candidate filename j.
Proof.
  unfold ensure_unique. intros H.
  destruct (ensure_unique_loop _ _ _ _ _) as [n|] eqn:Hl; [|done].
  injection H as <- <-.
  apply ensure_unique_loop_spec in Hl as [_ [->|(_ & j & Hj & -> & _)]];
    [by left|]. right. by exists j.
Qed.

Lemma close_current_partitioned hl target ps e loc st :
  partitioned hl target ps st loc →
  ∃ st1,
    close_current e loc st = Some st1
    ∧ partitioned hl target ps st1
        {| current_section := None; used_titles := used_titles loc |}.
Proof.
  intros (Hnd & Hcur & Hall). unfold close_current.
  destruct (current_section loc) as [cur|] eqn:Hc.
  - destruct (Hall cur (Hcur cur eq_refl)) as (s & Hs & Hsec & _).
    unfold close_section. rewrite Hs. simpl.
    destruct (has_content s) eqn:Hcont.
    + eexists. split; [done|]. split; [done|]. split; [done|]. simpl.
      intros r Hr. destruct (decide (r = cur)) as [->|Hne].
      * exists (set_end_index e s).
        rewrite list_lookup_insert_eq by (by eapply lookup_lt_Some).
        split; [done|]. split; [exact Hsec|]. intros _.
        split; [exact Hcont | by eexists].
      * destruct (Hall r Hr) as (s' & Hs' & Hsec' & Hcl). exists s'.
        rewrite list_lookup_insert_ne by done. split; [done|].
        split; [done|]. intros _. apply Hcl. congruence.
    + destruct (list_remove_total cur (sections st) (Hcur cur eq_refl))
        as [l Hl]. rewrite Hl. simpl.
      destruct (list_remove_NoDup _ _ _ Hnd Hl) as [Hndl Hiff].
      eexists. split; [done|]. split; [done|]. split; [done|]. simpl.
      intros r [Hr Hne]%Hiff.
      destruct (Hall r Hr) as (s' & Hs' & Hsec' & Hcl). exists s'.
      rewrite list_lookup_insert_ne by done. split; [done|].
      split; [done|]. intros _. apply Hcl. congruence.
  - eexists. split; [done|]. split; [done|]. split; [done|].
    intros r Hr. destruct (Hall r Hr) as (s & Hs & Hsec & Hcl).
    exists s. split; [done|]. split; [done|]. intros _. by apply Hcl.
Qed.

Lemma parse_step_partitioned hl target ps idx para st loc :
  heading_levels st = hl →
  partitioned hl target ps st loc →
  para ∈ ps →
  (get_heading_level hl para = Some target →
   Str.blank (text para) = false) →
  ∃ st' loc',
    parse_step target idx para st loc = Some (st', loc')
    ∧ partitioned hl target ps st' loc'.
Proof.
  intros Hhl Hinv Hin Hb. unfold parse_step. rewrite Hhl.
  destruct (decide (get_heading_level hl para = Some target)) as [Hl|Hl].
  - destruct (close_current_partitioned hl target ps (Z.of_nat idx - 1)
                loc st Hinv) as (st1 & -> & Hnd & _ & Hall). simpl.
    rewrite (Hb Hl). simpl.
    destruct (ensure_unique_total (sanitize_filename (text para))
                (used_titles loc)) as [[name used] Hu]. rewrite Hu. simpl.
    apply ensure_unique_name in Hu.
    eexists _, _. split; [done|]. split; [|split]; simpl.
    + apply NoDup_app. split; [done|]. split; [|apply NoDup_singleton].
      intros r Hr ->%list_elem_of_singleton.
      destruct (Hall _ Hr) as (s & Hs%lookup_lt_Some & _). lia.
    + intros cur [= <-]. apply elem_of_app. right. left.
    + intros r [Hr| ->%list_elem_of_singleton]%elem_of_app.
      * destruct (Hall r Hr) as (s & Hs & Hsec & Hcl). exists s.
        rewrite lookup_app_l by (by eapply lookup_lt_Some).
        split; [done|]. split; [done|]. intros _. by apply Hcl.
      * eexists. rewrite lookup_app_r, Nat.sub_diag by done.
        split; [done|]. split.
        -- split; [done|]. split; [by apply Hb|].
           split; [by exists para|]. split; [exact Hu|]. constructor.
        -- intros Hne. by destruct Hne.
  - destruct Hinv as (Hnd & Hcur & Hall).
    destruct (current_section loc) as [cur|] eqn:Hc.
    + destruct (Hall cur (Hcur cur eq_refl)) as (s & Hs & Hsec & _).
      rewrite Hs. simpl. eexists _, _. split; [done|].
      split; [done|]. split; simpl.
      { intros cur' Hc'. apply Hcur. congruence. }
      intros r Hr. destruct (decide (r = cur)) as [->|Hne].
      * exists (append_content para s).
        rewrite list_lookup_insert_eq by (by eapply lookup_lt_Some).
        split; [done|]. split.
        -- destruct Hsec as (H1 & H2 & H3 & H4 & H5).
           split; [done|]. split; [done|]. split; [done|].
           split; [done|]. simpl.
           apply Forall_app. split; [done|]. by repeat constructor.
        -- intros Hne. by destruct Hne.
      * destruct (Hall r Hr) as (s' & Hs' & Hsec' & Hcl). exists s'.
        rewrite list_lookup_insert_ne by done. split; [done|].
        split; [done|]. intros _. apply Hcl. congruence.
    + eexists _, _. split; [done|]. split; [done|]. split.
      * intros cur Hc'. congruence.
      * intros r Hr. rewrite Hc. by apply Hall.
Qed.

Lemma parse_loop_partitioned env target hl ps rest :
  ∀ idx st loc,
    heading_levels st = hl →
    partitioned hl target ps st loc →
    Forall (λ para,
              para ∈ ps
              ∧ (get_heading_level hl para = Some target →
                 Str.blank (text para) = false)) rest →
    ∃ st' oloc,
      parse_loop env target idx rest st loc = Some (st', oloc)
      ∧ match oloc with
        | Some loc' => partitioned hl target ps st' loc'
        | None => sections st' = []
        end.
Proof.
  induction rest as [|para rest IH]; intros idx st loc Hhl Hinv Hall;
    unfold parse_loop; fold parse_loop.
  { by eexists _, _. }
  inversion Hall as [|? ? [Hin Hpara] Hrest]; subst.
  set (st0 := if idx mod 50 =? 0 then poll (cancel_at_parse env idx) st
              else st).
  assert (heap st0 = heap st ∧ sections st0 = sections st
          ∧ heading_levels st0 = heading_levels st) as (Hh & Hs & Hhl).
  { unfold st0. destruct (idx mod 50 =? 0); [|done].
    by rewrite poll_heap, poll_sections, poll_heading_levels. }
  destruct ((idx mod 50 =? 0) && cancel_requested st0).
  { by eexists _, _. }
  destruct (parse_step_partitioned (heading_levels st) target ps idx para
              st0 loc) as (st1 & loc1 & Hstep & Hinv1); [done| |done|done|].
  { unfold partitioned. rewrite Hh, Hs. exact Hinv. }
  rewrite Hstep. simpl. apply IH; [|done|done].
  destruct (parse_step_kept _ _ _ _ _ _ _ Hstep) as [(_ & -> & _) _].
  done.
Qed.

Lemma parse_finish_partitioned env target hl ps st loc :
  partitioned hl target ps st loc →
  ∃ st',
    parse_finish env target st loc = Some st'
    ∧ NoDup (sections st')
    ∧ (∀ r, r ∈ sections st' →
         ∃ s, heap st' !! r = Some s ∧ section_of hl target ps s
              ∧ closed s)
    ∧ (sections st' = []
       ∨ safe_title <$> heap st' = safe_title <$> heap st).
Proof.
  intros Hinv. unfold parse_finish.
  destruct (close_current_partitioned hl target ps
              (Z.of_nat (length (doc st)) - 1) loc st Hinv)
    as (st1 & Hcl & Hnd & _ & Hall).
  rewrite Hcl. simpl. apply close_current_titles in Hcl.
  destruct (cancel_requested (poll (cancel_at_parse_end env) st1)).
  - eexists. split; [done|]. simpl. split; [constructor|].
    split; [by intros r ?%elem_of_nil | by left].
  - eexists. split; [done|]. simpl.
    rewrite poll_sections, poll_heap. split; [done|]. split; [|by right].
    intros r Hr. destruct (Hall r Hr) as (s & Hs & Hsec & Hc).
    exists s. split; [done|]. split; [done|]. by apply Hc.
Qed.

(** The partition of a splitter without sections: no exception, and the
    sections kept are distinct closed sections of the partition. *)
Lemma parse_sections_partition env target st :
  sections st = [] →
  ∃ st',
    parse_sections env target st = Some st'
    ∧ NoDup (sections st')
    ∧ (∀ r, r ∈ sections st' →
         ∃ s, heap st' !! r = Some s
              ∧ section_of (heading_levels st) target (doc st) s
              ∧ closed s)
    ∧ (heap st = [] → sections st' = [] ∨ NoDup (safe_title <$> heap st')).
Proof.
  intros Hsec. unfold parse_sections.
  destruct (parse_scan env target st) as [[st1 oloc]|] eqn:Hscan.
  2: { pose proof (parse_sections_total env target st) as [st' H].
       unfold parse_sections in H. by rewrite Hscan in H. }
  simpl. pose proof Hscan as Hscan'. unfold parse_scan in Hscan.
  set (st0 := status_callback (Parsing_sections target) st) in *.
  assert (partitioned (heading_levels st) target (doc st)
            (_clean_document env target st0) fresh_locals) as Hinit.
  { destruct (clean_document_cases env target st0)
      as [(_ & _ & _ & Hs)|[_ ->]].
    - split; [|split].
      + rewrite Hs. simpl. rewrite Hsec. constructor.
      + by intros cur ?.
      + rewrite Hs. simpl. rewrite Hsec. by intros r ?%elem_of_nil.
    - split; [|split]; simpl.
      + rewrite Hsec. constructor.
      + by intros cur ?.
      + rewrite Hsec. by intros r ?%elem_of_nil. }
  assert (match oloc with
          | Some loc' =>
              partitioned (heading_levels st) target (doc st) st1 loc'
          | None => sections st1 = []
          end) as Hend.
  { destruct (clean_document_cases env target st0)
      as [(Hc & Hdoc & _)|[Hc Heq]].
    - destruct (doc (_clean_document env target st0)) as [|para rest]
        eqn:Hd.
      + unfold parse_loop in Hscan. by simplify_eq.
      + rewrite parse_loop_cancelled in Hscan by done. by simplify_eq.
    - destruct (parse_loop_partitioned env target (heading_levels st)
                  (doc st) (doc (_clean_document env target st0)) 0
                  (_clean_document env target st0) fresh_locals)
        as (st2 & oloc2 & Hl & Hres); [| done | | ].
      + by destruct (clean_document_frame env target st0) as (_ & -> & _).
      + pose proof (clean_document_complete env target st0) as Hpost.
        rewrite Heq in Hpost at 1. specialize (Hpost Hc).
        rewrite Forall_forall in Hpost. apply Forall_forall.
        intros para Hpara. split.
        * eapply elem_of_sublist; [exact Hpara|]. rewrite Heq. simpl.
          apply remove_all_sublist.
        * intros Hl. by destruct (Hpost para Hpara _ Hl).
      + rewrite Hl in Hscan. by simplify_eq. }
  destruct oloc as [loc|].
  - destruct (parse_finish_partitioned env target _ _ st1 loc Hend)
      as (st' & -> & Hnd & Hall & Hnames).
    exists st'. split; [done|]. split; [done|]. split; [done|].
    intros Hheap. destruct Hnames as [?|Hnames]; [by left|]. right.
    rewrite Hnames.
    by destruct (parse_scan_names env target st st1 loc Hheap Hscan').
  - exists st1. split; [done|]. rewrite Hend. split; [constructor|].
    split; [by intros r ?%elem_of_nil | by left].
Qed.

Lemma section_list_titles (h : list Section) (refs : list nat) :
  NoDup (safe_title <$> h) → NoDup refs →
  NoDup (safe_title <$> omap (λ r, h !! r) refs).
Proof.
  intros Hh. induction 1 as [|r refs Hr Hnd IH]; simpl; [constructor|].
  destruct (h !! r) as [s|] eqn:Hs; [|done]. simpl.
  constructor; [|done].
  intros (s' & Heq & (r' & Hr' & Hs')%list_elem_of_omap)%list_elem_of_fmap.
  assert (r = r'); [|by subst].
  eapply (NoDup_lookup _ _ _ (safe_title s) Hh);
    rewrite list_lookup_fmap; [by rewrite Hs | by rewrite Hs', Heq].
Qed.

(** X14. [parse_sections] raises no exception, whatever the state of the
    splitter, the target level and the timing of cancellation: when a
    section is closed without content, [self.sections.remove] finds it in
    the list. *)
Theorem parse_sections_never_raises (env : Env) (target_level : Z)
    (st : DocxSplitter) :
  is_Some (parse_sections env target_level st).
Proof. apply parse_sections_total. Qed.

(** X15. The sections [parse_sections] leaves in [self.sections] of a
    splitter that had none: each is a section object of the target level
    whose title is the text, not blank, of a heading of the target level
    in the document, whose name is the sanitized title or a candidate of
    it, whose content is made of paragraphs of the document that are no
    headings of the target level and has text, and whose end index is
    set. *)
Theorem parse_sections_sections (env : Env) (target_level : Z)
    (st : DocxSplitter) :
  sections st = [] →
  ∃ st',
    parse_sections env target_level st = Some st'
    ∧ length (section_list st') = length (sections st')
    ∧ ∀ s, s ∈ section_list st' →
        section_of (heading_levels st) target_level (doc st) s ∧ closed s.
Proof.
  intros Hsec.
  destruct (parse_sections_partition env target_level st Hsec)
    as (st' & Hp & Hnd & Hall & _).
  exists st'. split; [done|]. unfold section_list. split.
  - clear Hnd. induction (sections st') as [|r l IH]; simpl; [done|].
    destruct (Hall r) as (s & -> & _); [left|]. simpl. f_equal.
    apply IH. intros r' Hr'. apply Hall. by right.
  - intros s (r & Hr & Hs)%list_elem_of_omap.
    destruct (Hall r Hr) as (s' & Hs' & Hsec' & Hcl). by simplify_eq.
Qed.

Lemma parse_sections_sections_witness :
  ∃ st',
    parse_sections quiet 3 a_blank_b = Some st'
    ∧ length (section_list st') = length (sections st')
    ∧ ∀ s, s ∈ section_list st' →
        section_of (heading_levels a_blank_b) 3 (doc a_blank_b) s
        ∧ closed s.
Proof. exact (parse_sections_sections quiet 3 a_blank_b eq_refl). Defined.

(** X16. The sections a fresh splitter is left with have pairwise
    distinct names. *)
Theorem parse_sections_distinct_names (env : Env) (target_level : Z)
    (st st' : DocxSplitter) :
  heap st = [] → sections st = [] →
  parse_sections env target_level st = Some st' →
  NoDup (safe_title <$> section_list st').
Proof.
  intros Hheap Hsec Hp.
  destruct (parse_sections_partition env target_level st Hsec)
    as (st1 & Hp1 & Hnd & _ & Hnames).
  rewrite Hp in Hp1. injection Hp1 as <-. unfold section_list.
  destruct (Hnames Hheap) as [->|Hh]; [constructor|].
  by apply section_list_titles.
Qed.

Lemma parse_sections_distinct_names_witness :
  ∃ st',
    parse_sections quiet 3 same_title_twice = Some st'
    ∧ NoDup (safe_title <$> section_list st').
Proof.
  destruct (parse_sections quiet 3 same_title_twice) as [st'|] eqn:Hp;
    [|by vm_compute in Hp].
  exists st'. split; [done|].
  exact (parse_sections_distinct_names quiet 3 same_title_twice st'
           eq_refl eq_refl Hp).
Defined.

(** ** DocxSplitter.process_document: runs that produce nothing *)

Lemma poll_files b st : files (poll b st) = files st.
Proof. by destruct b. Qed.

Lemma poll_dirs b st : dirs (poll b st) = dirs st.
Proof. by destruct b. Qed.

Lemma poll_input_stem b st : input_stem (poll b st) = input_stem st.
Proof. by destruct b. Qed.

(** Without a heading of the target level there is nothing to do. *)
Lemma process_document_nothing (env : Env)
    (output_dir : string) (target_level : Z) (create_zip : bool)
    (st : DocxSplitter) :
  sections st = [] →
  Forall (λ para,
            get_heading_level (heading_levels st) para ≠ Some target_level)
    (doc st) →
  ∃ st' st2,
    parse_sections env target_level st = Some st' ∧ sections st' = []
    ∧ process_document env output_dir target_level create_zip st
      = Some (st2, None)
    ∧ files st2 = files st ∧ dirs st2 = dirs st.
Proof.
  intros Hsec Hall.
  destruct (parse_sections_partition env target_level st Hsec)
    as (st' & Hp & _ & Hsections & _).
  assert (sections st' = []) as Hnone.
  { destruct (sections st') as [|r l]; [done|].
    destruct (Hsections r) as (s & _ & (_ & _ & (para & Hin & Hl & _) & _)
                               & _); [left|].
    rewrite Forall_forall in Hall. by destruct (Hall para Hin). }
  exists st', (poll (cancel_at_process env) st').
  split; [done|]. split; [done|].
  destruct (parse_sections_frame _ _ _ _ Hp) as (_ & _ & Hf & Hd).
  rewrite poll_files, poll_dirs. split; [|done].
  unfold process_document. rewrite Hsec, Hp. simpl.
  by rewrite poll_sections, Hnone, orb_true_r.
Qed.

(** X17. A document without a heading of the target level gives no
    section, whatever the timing of cancellation, and [process_document]
    returns [None] without creating a directory or a file. *)
Theorem process_document_no_target_heading (env : Env)
    (output_dir : string) (target_level : Z) (create_zip : bool)
    (st : DocxSplitter) :
  sections st = [] →
  Forall (λ para,
            get_heading_level (heading_levels st) para ≠ Some target_level)
    (doc st) →
  ∃ st' st2,
    parse_sections env target_level st = Some st' ∧ sections st' = []
    ∧ process_document env output_dir target_level create_zip st
      = Some (st2, None)
    ∧ files st2 = files st ∧ dirs st2 = dirs st.
Proof. apply process_document_nothing. Qed.

Lemma process_document_no_target_heading_witness :
  ∃ st' st2,
    parse_sections cancel_at_second 3 no_headings = Some st'
    ∧ sections st' = []
    ∧ process_document cancel_at_second "out" 3 true no_headings
      = Some (st2, None)
    ∧ files st2 = files no_headings ∧ dirs st2 = dirs no_headings.
Proof.
  apply (process_document_no_target_heading cancel_at_second "out" 3 true
           no_headings eq_refl).
  repeat constructor; by vm_compute.
Defined.

Lemma parse_sections_cancelled env target st :
  cancel_requested st = true →
  ∃ st',
    parse_sections env target st = Some st'
    ∧ sections st' = [] ∧ doc st' = doc st ∧ heap st' = heap st
    ∧ cancel_requested st' = true.
Proof.
  intros Hc. unfold parse_sections, parse_scan.
  set (st0 := status_callback (Parsing_sections target) st).
  destruct (clean_document_cases env target st0)
    as [(Hc' & Hdoc & Hh & Hs)|[Hc' _]];
    [|unfold st0 in Hc'; simpl in Hc'; congruence].
  destruct (doc (_clean_document env target st0)) as [|para rest] eqn:Hd.
  - unfold parse_loop. simpl. unfold parse_finish. simpl.
    rewrite poll_cancelled by auto. eexists. split; [done|]. simpl.
    rewrite poll_doc, poll_heap, Hd, Hh.
    split; [done|]. split; [done|]. split; [done|].
    apply poll_cancelled. auto.
  - rewrite parse_loop_cancelled by done. simpl. eexists. split; [done|].
    simpl. rewrite poll_doc, poll_heap, Hd, Hh.
    split; [done|]. split; [done|]. split; [done|].
    apply poll_cancelled. auto.
Qed.

(** X18. When the cancellation flag is set before [process_document] is
    called, it returns [None], the flag stays set, and the document, the
    sections, the files and the directories are as before: nothing is
    cleaned, parsed or written. *)
Theorem process_document_cancelled_at_entry (env : Env)
    (output_dir : string) (target_level : Z) (create_zip : bool)
    (st : DocxSplitter) :
  cancel_requested st = true →
  ∃ st',
    process_document env output_dir target_level create_zip st
    = Some (st', None)
    ∧ cancel_requested st' = true
    ∧ doc st' = doc st ∧ sections st' = sections st
    ∧ files st' = files st ∧ dirs st' = dirs st.
Proof.
  intros Hc. unfold process_document.
  destruct (sections st) as [|r l] eqn:Hsec.
  - destruct (parse_sections_cancelled env target_level st Hc)
      as (st1 & Hp & Hs & Hd & _ & Hc1).
    destruct (parse_sections_frame _ _ _ _ Hp) as (_ & _ & Hf & Hdirs).
    rewrite Hp. simpl. rewrite poll_cancelled by auto. simpl.
    eexists. split; [done|].
    rewrite poll_doc, poll_sections, poll_files, poll_dirs.
    split; [apply poll_cancelled; auto|]. done.
  - simpl. rewrite poll_cancelled by auto. simpl.
    eexists. split; [done|].
    rewrite poll_doc, poll_sections, poll_files, poll_dirs.
    split; [apply poll_cancelled; auto|]. done.
Qed.

Lemma process_document_cancelled_at_entry_witness :
  ∃ st',
    process_document quiet "out" 3 true cancelled_a_blank_b
    = Some (st', None)
    ∧ cancel_requested st' = true
    ∧ doc st' = doc cancelled_a_blank_b
    ∧ sections st' = sections cancelled_a_blank_b
    ∧ files st' = files cancelled_a_blank_b
    ∧ dirs st' = dirs cancelled_a_blank_b.
Proof.
  exact (process_document_cancelled_at_entry quiet "out" 3 true
           cancelled_a_blank_b eq_refl).
Defined.

(** ** Packaging: the files written *)

Lemma files_archive_write path entry st entries :
  files st !! path = Some (ZipFile entries) →
  files (archive_write path entry st)
  = <[path := ZipFile (entries ++ [entry])]> (files st).
Proof. intros H. unfold archive_write. by rewrite H. Qed.

Lemma dirs_archive_write path entry st :
  dirs (archive_write path entry st) = dirs st.
Proof. unfold archive_write. by repeat case_match. Qed.

(** The archive loop changes the archive only: it appends the entries of
    the sections it processes. *)
Lemma zip_loop_files env path total rest :
  ∀ idx st entries,
    files st !! path = Some (ZipFile entries) →
    ∃ k, k ≤ length rest
      ∧ files (zip_loop env path total idx rest st).1
        = <[path := ZipFile (entries ++ written env idx (take k rest))]>
            (files st)
      ∧ dirs (zip_loop env path total idx rest st).1 = dirs st
      ∧ ((zip_loop env path total idx rest st).2 = false →
         k = length rest).
Proof.
  induction rest as [|section rest IH]; intros idx st entries Hf; simpl.
  { exists 0. split; [done|]. simpl. rewrite app_nil_r, insert_id by done.
    done. }
  destruct (cancel_requested (poll (cancel_at_package env idx) st)).
  { exists 0. split; [lia|]. simpl.
    rewrite poll_files, poll_dirs, app_nil_r, insert_id by done. done. }
  destruct (section_raises env idx) eqn:Hraise.
  - destruct (IH (S idx)
                (status_callback (Error_processing (safe_title section))
                   (poll (cancel_at_package env idx) st)) entries)
      as (k & Hk & Hfiles & Hdirs & Hdone).
    { simpl. by rewrite poll_files. }
    exists (S k). split; [lia|]. simpl. rewrite Hraise. simpl.
    rewrite Hfiles, Hdirs. simpl. rewrite poll_files, poll_dirs.
    split; [done|]. split; [done|]. intros H. by rewrite Hdone.
  - match goal with
    | |- context [zip_loop env path total (S idx) rest ?s] =>
        destruct (IH (S idx) s
                    (entries
                     ++ [(safe_title section +:+ ".docx",
                          _create_section_document section)]))
          as (k & Hk & Hfiles & Hdirs & Hdone)
    end.
    { simpl. rewrite (files_archive_write _ _ _ entries)
        by (by rewrite poll_files).
      by rewrite lookup_insert_eq. }
    exists (S k). split; [lia|]. simpl. rewrite Hraise.
    rewrite Hfiles, Hdirs. simpl.
    rewrite (files_archive_write _ _ _ entries) by (by rewrite poll_files).
    rewrite dirs_archive_write, poll_files, poll_dirs, insert_insert_eq.
    rewrite <- app_assoc. simpl.
    split; [done|]. split; [done|]. intros H. by rewrite Hdone.
Qed.

(** What [_create_zip_archive] leaves. *)
Lemma create_zip_archive_spec (env : Env) (output_dir : string)
    (st : DocxSplitter) :
  ∃ k, k ≤ length (section_list st)
    ∧ files (_create_zip_archive env output_dir st).1
      = <[zip_path output_dir st
          := ZipFile (written env 1 (take k (section_list st)))]> (files st)
    ∧ dirs (_create_zip_archive env output_dir st).1 = dirs st
    ∧ ((_create_zip_archive env output_dir st).2 ≠ None →
       (_create_zip_archive env output_dir st).2
       = Some (zip_path output_dir st)
       ∧ k = length (section_list st)).
Proof.
  unfold _create_zip_archive.
  destruct (zip_loop_files env (zip_path output_dir st)
              (length (section_list st)) (section_list st) 1
              (set_files (<[zip_path output_dir st:=ZipFile []]> (files st))
                 st) [])
    as (k & Hk & Hfiles & Hdirs & Hdone).
  { simpl. by rewrite lookup_insert_eq. }
  exists k. split; [done|].
  destruct (zip_loop env _ _ 1 (section_list st) _) as [st' c].
  simpl in Hfiles, Hdirs, Hdone. rewrite insert_insert_eq in Hfiles.
  destruct c; simpl.
  { split; [done|]. split; [done|]. by intros ?. }
  destruct (cancel_requested (poll (cancel_at_package_end env) st')); simpl;
    rewrite poll_files, poll_dirs.
  - split; [done|]. split; [done|]. by intros ?.
  - split; [done|]. split; [done|]. intros _. split; [done|]. by apply Hdone.
Qed.


Lemma save_loop_files env output_dir total rest :
  ∀ idx st,
    ∃ k, k ≤ length rest
      ∧ files (save_loop env output_dir total idx rest st).1
        = saved output_dir (written env idx (take k rest)) (files st)
      ∧ dirs (save_loop env output_dir total idx rest st).1 = dirs st
      ∧ ((save_loop env output_dir total idx rest st).2 = false →
         k = length rest).
Proof.
  induction rest as [|section rest IH]; intros idx st; simpl.
  { by exists 0. }
  destruct (cancel_requested (poll (cancel_at_package env idx) st)).
  { exists 0. split; [lia|]. simpl. by rewrite poll_files, poll_dirs. }
  destruct (section_raises env idx) eqn:Hraise.
  - destruct (IH (S idx)
                (status_callback (Error_processing (safe_title section))
                   (poll (cancel_at_package env idx) st)))
      as (k & Hk & Hfiles & Hdirs & Hdone).
    exists (S k). split; [lia|]. simpl. rewrite Hraise. simpl.
    rewrite Hfiles, Hdirs. simpl. rewrite poll_files, poll_dirs.
    split; [done|]. split; [done|]. intros H. by rewrite Hdone.
  - match goal with
    | |- context [save_loop env output_dir total (S idx) rest ?s] =>
        destruct (IH (S idx) s) as (k & Hk & Hfiles & Hdirs & Hdone)
    end.
    exists (S k). split; [lia|]. simpl. rewrite Hraise. split; [|split].
    + rewrite Hfiles. unfold saved. simpl. by rewrite poll_files.
    + rewrite Hdirs. simpl. by rewrite poll_dirs.
    + intros H. f_equal. by apply Hdone.
Qed.

Lemma append_docx_inj (a b : string) :
  a +:+ ".docx" = b +:+ ".docx" → a = b.
Proof.
  intros H. apply (f_equal Str.chars) in H. rewrite !chars_app in H.
  apply app_inv_tail in H. by apply chars_inj.
Qed.

Lemma path_join_inj output_dir (a b : string) :
  path_join output_dir a = path_join output_dir b → a = b.
Proof.
  unfold path_join. intros H. apply (f_equal Str.chars) in H.
  rewrite !chars_app in H. do 2 apply app_inv_head in H.
  by apply chars_inj.
Qed.

Lemma saved_lookup_ne output_dir entries :
  ∀ files p,
    (∀ e, e ∈ entries → path_join output_dir e.1 ≠ p) →
    saved output_dir entries files !! p = files !! p.
Proof.
  unfold saved. induction entries as [|e entries IH]; intros f p H; simpl;
    [done|].
  rewrite IH by (intros e' He'; apply H; by right).
  apply lookup_insert_ne, H. left.
Qed.

Lemma saved_lookup output_dir entries :
  ∀ files name d,
    NoDup entries.*1 → (name, d) ∈ entries →
    saved output_dir entries files !! path_join output_dir name
    = Some (DocxFile d).
Proof.
  induction entries as [|e entries IH]; intros f name d Hnd Hin;
    [by apply elem_of_nil in Hin|].
  rewrite fmap_cons in Hnd. inversion Hnd as [|? ? He Hnd']; subst.
  apply elem_of_cons in Hin as [<-|Hin].
  - change (saved output_dir ((name, d) :: entries) f)
      with (saved output_dir entries
              (<[path_join output_dir name := DocxFile d]> f)).
    rewrite saved_lookup_ne; [by rewrite lookup_insert_eq|].
    intros e' He' Heq%path_join_inj. apply He.
    apply list_elem_of_fmap. by exists e'.
  - change (saved output_dir (e :: entries) f)
      with (saved output_dir entries
              (<[path_join output_dir e.1 := DocxFile e.2]> f)).
    by apply IH.
Qed.

Lemma written_names env l :
  ∀ idx,
    (written env idx l).*1
    `sublist_of` ((λ s, safe_title s +:+ ".docx") <$> l).
Proof.
  induction l as [|s l IH]; intros idx; simpl; [done|].
  destruct (section_raises env idx); simpl.
  - apply sublist_cons, IH.
  - apply sublist_skip, IH.
Qed.

Lemma written_NoDup env idx l :
  NoDup (safe_title <$> l) → NoDup (written env idx l).*1.
Proof.
  intros Hnd. eapply sublist_NoDup; [|apply written_names].
  rewrite (list_fmap_compose safe_title (λ n, n +:+ ".docx")).
  apply NoDup_fmap_2_strong; [|done].
  intros a b _ _. apply append_docx_inj.
Qed.

Lemma written_elem env l :
  ∀ idx i s,
    l !! i = Some s → section_raises env (idx + i) = false →
    (safe_title s +:+ ".docx", _create_section_document s)
    ∈ written env idx l.
Proof.
  induction l as [|s' l IH]; intros idx [|i] s Hs Hr; simplify_eq/=.
  - rewrite Nat.add_0_r in Hr. rewrite Hr. left.
  - apply elem_of_app. right. apply (IH (S idx) i); [done|].
    by replace (S idx + i) with (idx + S i) by lia.
Qed.

Lemma written_paths env l :
  ∀ idx e, e ∈ written env idx l →
    ∃ s, s ∈ l ∧ e.1 = safe_title s +:+ ".docx".
Proof.
  induction l as [|s l IH]; intros idx e; simpl;
    [by intros ?%elem_of_nil|].
  intros [He|He]%elem_of_app.
  - destruct (section_raises env idx); [by apply elem_of_nil in He|].
    apply list_elem_of_singleton in He as ->. exists s. split; [left|done].
  - destruct (IH _ _ He) as (s' & Hs' & Heq). exists s'.
    split; [by right|done].
Qed.

(** What [_save_individual_files] leaves. *)
Lemma save_individual_files_spec env output_dir st :
  let r := _save_individual_files env output_dir st in
  dirs r.1 = dirs st
  ∧ (∀ p, (∀ s, s ∈ section_list st →
             p ≠ path_join output_dir (safe_title s +:+ ".docx")) →
          files r.1 !! p = files st !! p)
  ∧ (r.2 ≠ None →
     r.2 = Some output_dir
     ∧ (NoDup (safe_title <$> section_list st) →
        ∀ i s, section_list st !! i = Some s →
          section_raises env (S i) = false →
          files r.1 !! path_join output_dir (safe_title s +:+ ".docx")
          = Some (DocxFile (_create_section_document s)))).
Proof.
  intros r. unfold r, _save_individual_files.
  destruct (save_loop_files env output_dir (length (section_list st))
              (section_list st) 1 st) as (k & Hk & Hfiles & Hdirs & Hdone).
  destruct (save_loop env _ _ 1 (section_list st) st) as [st' c].
  simpl in Hfiles, Hdirs, Hdone.
  assert (∀ p, (∀ s, s ∈ section_list st →
                  p ≠ path_join output_dir (safe_title s +:+ ".docx")) →
               files st' !! p = files st !! p) as Hframe.
  { intros p Hp. rewrite Hfiles. apply saved_lookup_ne.
    intros e (s & Hs & ->)%written_paths Heq.
    apply (Hp s); [|done].
    eapply elem_of_sublist; [exact Hs | apply sublist_take]. }
  destruct c; simpl.
  { split; [done|]. split; [done|]. by intros ?. }
  destruct (cancel_requested (poll (cancel_at_package_end env) st')); simpl;
    rewrite poll_files, poll_dirs.
  { split; [done|]. split; [done|]. by intros ?. }
  split; [done|]. split; [done|]. intros _. split; [done|].
  intros Hnd i s Hs Hr. rewrite Hfiles, (Hdone eq_refl), firstn_all.
  apply saved_lookup; [by apply written_NoDup|].
  by apply (written_elem env (section_list st) 1 i).
Qed.

(** X20. In every run of [_save_individual_files] no directory is
    created and no file changes but those named after a section in the
    output directory. When the call returns a path, it is the output
    directory, and if the sections have pairwise distinct names, the file
    of every section whose processing did not raise holds the document of
    that section. *)
Theorem save_individual_files_result (env : Env) (output_dir : string)
    (st : DocxSplitter) :
  let r := _save_individual_files env output_dir st in
  dirs r.1 = dirs st
  ∧ (∀ p, (∀ s, s ∈ section_list st →
             p ≠ path_join output_dir (safe_title s +:+ ".docx")) →
          files r.1 !! p = files st !! p)
  ∧ (r.2 ≠ None →
     r.2 = Some output_dir
     ∧ (NoDup (safe_title <$> section_list st) →
        ∀ i s, section_list st !! i = Some s →
          section_raises env (S i) = false →
          files r.1 !! path_join output_dir (safe_title s +:+ ".docx")
          = Some (DocxFile (_create_section_document s)))).
Proof. apply save_individual_files_spec. Qed.

(** ** DocxSplitter.process_document: runs that return a path *)

(** A call that returns a path has parsed some sections, created the
    output directory and run the packaging on them. *)
Lemma process_document_packaging env output_dir target create_zip st st2 r :
  sections st = [] →
  process_document env output_dir target create_zip st
  = Some (st2, Some r) →
  ∃ st1 stp,
    parse_sections env target st = Some st1
    ∧ sections st1 ≠ []
    ∧ sections stp = sections st1
    ∧ section_list stp = section_list st1
    ∧ input_stem stp = input_stem st
    ∧ files stp = files st
    ∧ dirs stp = {[output_dir]} ∪ dirs st
    ∧ (if create_zip then _create_zip_archive env output_dir stp
       else _save_individual_files env output_dir stp) = (st2, Some r).
Proof.
  intros Hsec H. unfold process_document in H. rewrite Hsec in H.
  destruct (parse_sections env target st) as [st1|] eqn:Hp; [|done].
  simpl in H.
  destruct (cancel_requested (poll (cancel_at_process env) st1)
            || bool_decide (sections (poll (cancel_at_process env) st1)
                            = [])) eqn:Hstop; [done|].
  apply orb_false_iff in Hstop as [_ Hne%bool_decide_eq_false].
  rewrite poll_sections in Hne.
  destruct (parse_sections_frame _ _ _ _ Hp) as (Hstem & _ & Hf & Hd).
  eexists st1, _. split; [done|]. split; [done|].
  split; [|split; [|split; [|split; [|split; [|by injection H]]]]]; simpl.
  - by rewrite poll_sections.
  - unfold section_list. simpl. by rewrite poll_heap, poll_sections.
  - by rewrite poll_input_stem.
  - by rewrite poll_files.
  - by rewrite poll_dirs, Hd.
Qed.

(** X21. When [process_document] on a fresh splitter returns a path in
    file mode, the path is the output directory, which has been created,
    and for every section that was parsed and whose processing did not
    raise, the file named after the section in that directory holds the
    document of that section: no section's file is overwritten by another
    section's. *)
Theorem process_document_saves_sections (env : Env) (output_dir : string)
    (target_level : Z) (st st2 : DocxSplitter) (r : string) :
  heap st = [] → sections st = [] →
  process_document env output_dir target_level false st
  = Some (st2, Some r) →
  r = output_dir
  ∧ dirs st2 = {[output_dir]} ∪ dirs st
  ∧ ∃ st1,
      parse_sections env target_level st = Some st1
      ∧ sections st1 ≠ []
      ∧ ∀ i s, section_list st1 !! i = Some s →
          section_raises env (S i) = false →
          files st2 !! path_join output_dir (safe_title s +:+ ".docx")
          = Some (DocxFile (_create_section_document s)).
Proof.
  intros Hheap Hsec H.
  destruct (process_document_packaging _ _ _ _ _ _ _ Hsec H)
    as (st1 & stp & Hp & Hne & _ & Hlist & _ & _ & Hdirs & Hpack).
  destruct (save_individual_files_spec env output_dir stp)
    as (Hd & _ & Hres).
  rewrite Hpack in Hd, Hres. simpl in Hd, Hres.
  destruct Hres as [[= ->] Hfiles]; [done|].
  split; [done|]. split; [by rewrite Hd|].
  exists st1. split; [done|]. split; [done|]. rewrite <- Hlist.
  apply Hfiles. rewrite Hlist.
  destruct (parse_sections_partition env target_level st Hsec)
    as (st1' & Hp' & Hnd & _ & Hnames).
  rewrite Hp in Hp'. injection Hp' as <-. unfold section_list.
  destruct (Hnames Hheap) as [Hnil|Hh]; [done|].
  by apply section_list_titles.
Qed.

Lemma process_document_saves_sections_witness :
  ∃ st2 r,
    process_document quiet "out" 3 false same_title_twice
    = Some (st2, Some r)
    ∧ r = "out"
    ∧ dirs st2 = {["out"]} ∪ dirs same_title_twice
    ∧ ∃ st1,
        parse_sections quiet 3 same_title_twice = Some st1
        ∧ sections st1 ≠ []
        ∧ ∀ i s, section_list st1 !! i = Some s →
            section_raises quiet (S i) = false →
            files st2 !! path_join "out" (safe_title s +:+ ".docx")
            = Some (DocxFile (_create_section_document s)).
Proof.
  destruct (process_document quiet "out" 3 false same_title_twice)
    as [[st2 [r|]]|] eqn:Hp; [|by vm_compute in Hp..].
  exists st2, r. split; [done|].
  exact (process_document_saves_sections quiet "out" 3 same_title_twice
           st2 r eq_refl eq_refl Hp).
Defined.



(** ** DocxSplitter._create_section_document on the parsed sections *)

Lemma list_filter_sublist {A} (f : A → bool) (l : list A) :
  List.filter f l `sublist_of` l.
Proof.
  induction l as [|a l IH]; simpl; [done|].
  destruct (f a); [by apply sublist_skip | by apply sublist_cons].
Qed.

Lemma list_filter_elem {A} (f : A → bool) (l : list A) x :
  x ∈ List.filter f l → x ∈ l ∧ f x = true.
Proof.
  induction l as [|a l IH]; simpl; [by intros ?%elem_of_nil|].
  destruct (f a) eqn:Hfa.
  - intros [->|Hx]%elem_of_cons; [split; [left|done]|].
    destruct (IH Hx). split; [by right|done].
  - intros Hx. destruct (IH Hx). split; [by right|done].
Qed.

(** X23. The document built for a parsed section has the title and the
    target level as its heading, and its body is a sublist of the content
    of the section: paragraphs of the input document, none of them blank,
    a heading of the target level, or equal in text to the title of the
    section. *)
Theorem section_documents_from_input (env : Env) (target_level : Z)
    (st : DocxSplitter) :
  sections st = [] →
  ∃ st',
    parse_sections env target_level st = Some st'
    ∧ ∀ s, s ∈ section_list st' →
        out_heading (_create_section_document s) = (title s, target_level)
        ∧ out_body (_create_section_document s) `sublist_of` content s
        ∧ Forall
            (λ para,
               para ∈ doc st
               ∧ Str.blank (text para) = false
               ∧ text para ≠ title s
               ∧ get_heading_level (heading_levels st) para
                 ≠ Some target_level)
            (out_body (_create_section_document s)).
Proof.
  intros Hsec.
  destruct (parse_sections_partition env target_level st Hsec)
    as (st' & Hp & _ & Hall & _).
  exists st'. split; [done|].
  intros s (r & Hr & Hs)%list_elem_of_omap.
  destruct (Hall r Hr) as (s' & Hs' & (Hlevel & _ & _ & _ & Hcontent) & _).
  rewrite Hs in Hs'. injection Hs' as <-.
  unfold _create_section_document. simpl.
  split; [by rewrite Hlevel|]. split; [apply list_filter_sublist|].
  rewrite Forall_forall in Hcontent. apply Forall_forall.
  intros para [Hin Hf]%list_filter_elem.
  destruct (Hcontent para Hin) as [Hdoc Hl].
  apply andb_true_iff in Hf as [Hne Hb].
  split; [done|]. split; [|split; [|done]].
  - by destruct (Str.blank (text para)).
  - intros Heq. by rewrite Heq, String.eqb_refl in Hne.
Qed.

Lemma section_documents_from_input_witness :
  ∃ st',
    parse_sections quiet 3 a_blank_b = Some st'
    ∧ ∀ s, s ∈ section_list st' →
        out_heading (_create_section_document s) = (title s, 3%Z)
        ∧ out_body (_create_section_document s) `sublist_of` content s
        ∧ Forall
            (λ para,
               para ∈ doc a_blank_b
               ∧ Str.blank (text para) = false
               ∧ text para ≠ title s
               ∧ get_heading_level (heading_levels a_blank_b) para
                 ≠ Some 3%Z)
            (out_body (_create_section_document s)).
Proof. exact (section_documents_from_input quiet 3 a_blank_b eq_refl). Defined.

(** ** DocSplitterDialog._process_document_thread *)

Lemma sections_archive_write path entry st :
  sections (archive_write path entry st) = sections st.
Proof. unfold archive_write. by repeat case_match. Qed.

Lemma zip_loop_sections env path total rest :
  ∀ idx st, sections (zip_loop env path total idx rest st).1 = sections st.
Proof.
  induction rest as [|section rest IH]; intros idx st; simpl; [done|].
  destruct (cancel_requested (poll (cancel_at_package env idx) st)); simpl.
  { by rewrite poll_sections. }
  destruct (section_raises env idx); rewrite IH; simpl;
    by rewrite ?sections_archive_write, poll_sections.
Qed.

Lemma save_loop_sections env output_dir total rest :
  ∀ idx st,
    sections (save_loop env output_dir total idx rest st).1 = sections st.
Proof.
  induction rest as [|section rest IH]; intros idx st; simpl; [done|].
  destruct (cancel_requested (poll (cancel_at_package env idx) st)); simpl.
  { by rewrite poll_sections. }
  destruct (section_raises env idx); rewrite IH; simpl;
    by rewrite poll_sections.
Qed.

Lemma packaging_sections env output_dir st :
  sections (_create_zip_archive env output_dir st).1 = sections st
  ∧ sections (_save_individual_files env output_dir st).1 = sections st.
Proof.
  split.
  - unfold _create_zip_archive.
    pose proof (zip_loop_sections env (zip_path output_dir st)
                  (length (section_list st)) (section_list st) 1
                  (set_files
                     (<[zip_path output_dir st:=ZipFile []]> (files st)) st))
      as H.
    destruct (zip_loop env _ _ 1 (section_list st) _) as [st' c].
    simpl in H. destruct c; simpl; [done|].
    destruct (cancel_requested (poll (cancel_at_package_end env) st'));
      simpl; by rewrite poll_sections.
  - unfold _save_individual_files.
    pose proof (save_loop_sections env output_dir
                  (length (section_list st)) (section_list st) 1 st) as H.
    destruct (save_loop env _ _ 1 (section_list st) st) as [st' c].
    simpl in H. destruct c; simpl; [done|].
    destruct (cancel_requested (poll (cancel_at_package_end env) st'));
      simpl; by rewrite poll_sections.
Qed.


(** X24. A document that has no heading of the selected level is
    reported like a cancelled run, whether or not anybody cancels: the
    worker thread ends in [_cleanup_canceled_operation], not in a
    completion or an error message. *)
Theorem thread_reports_cancel_without_headings (env : Env)
    (level_var : string) (zip_var : bool) (output_dir stem : string)
    (styles : list Style) (paragraphs : list Paragraph) :
  Forall
    (λ para,
       get_heading_level (_process_styles styles) para
       ≠ Some (DocSplitterDialog.get_heading_level level_var))
    paragraphs →
  DocSplitterDialog._process_document_thread env level_var zip_var
    output_dir (Some (stem, styles, paragraphs))
  = [DocSplitterDialog._cleanup_canceled_operation].
Proof.
  intros Hall. unfold DocSplitterDialog._process_document_thread.
  destruct (process_document_nothing env output_dir
              (DocSplitterDialog.get_heading_level level_var) zip_var
              (new_splitter stem styles paragraphs) eq_refl Hall)
    as (st' & st2 & _ & _ & -> & _).
  done.
Qed.

Lemma thread_reports_cancel_without_headings_witness :
  DocSplitterDialog._process_document_thread quiet "Heading 3" true "out"
    (Some ("input", [normal_style; heading3_style], [normal "x"]))
  = [DocSplitterDialog._cleanup_canceled_operation].
Proof.
  apply (thread_reports_cancel_without_headings quiet "Heading 3" true
           "out" "input" [normal_style; heading3_style] [normal "x"]).
  repeat constructor; by vm_compute.
Defined.

(** X25. When the worker thread shows the completion message, it has
    set the progress to 100 just before, the path shown is the archive
    path (archive mode) or the output directory (file mode), the section
    count is at least one, and the level is the one selected. *)
Theorem thread_completion_message (env : Env) (level_var : string)
    (zip_var : bool) (output_dir stem : string) (styles : list Style)
    (paragraphs : list Paragraph) (r : string) (n : nat) (h : Z) :
  DocSplitterDialog._show_completion_message r n h
  ∈ DocSplitterDialog._process_document_thread env level_var zip_var
      output_dir (Some (stem, styles, paragraphs)) →
  DocSplitterDialog._process_document_thread env level_var zip_var
    output_dir (Some (stem, styles, paragraphs))
  = [DocSplitterDialog.update_progress 100;
     DocSplitterDialog._show_completion_message r n h]
  ∧ r = (if zip_var then path_join output_dir (stem +:+ "_sections.zip")
         else output_dir)
  ∧ 1 ≤ n
  ∧ h = DocSplitterDialog.get_heading_level level_var.
Proof.
  unfold DocSplitterDialog._process_document_thread.
  set (h' := DocSplitterDialog.get_heading_level level_var).
  destruct (process_document env output_dir h' zip_var
              (new_splitter stem styles paragraphs))
    as [[st2 [r'|]]|] eqn:Hpd.
  2, 3: by intros [?|?%elem_of_nil]%elem_of_cons.
  intros [?|[Heq|[]%elem_of_nil]%elem_of_cons]%elem_of_cons; [done|].
  injection Heq as -> -> ->. split; [done|].
  destruct (process_document_packaging env output_dir h' zip_var
              (new_splitter stem styles paragraphs) st2 r' eq_refl Hpd)
    as (st1 & stp & Hp & Hne & Hsec & _ & Hstem & _ & _ & Hpack).
  assert (sections st2 = sections stp) as Hs2.
  { destruct (packaging_sections env output_dir stp) as [Hz Hs].
    destruct zip_var; rewrite Hpack in *; [exact Hz | exact Hs]. }
  split; [|split; [|done]].
  - destruct zip_var.
    + destruct (create_zip_archive_spec env output_dir stp)
        as (k & _ & _ & _ & Hres).
      rewrite Hpack in Hres. simpl in Hres.
      destruct Hres as [[= ->] _]; [done|].
      unfold zip_path. by rewrite Hstem.
    + destruct (save_individual_files_spec env output_dir stp)
        as (_ & _ & Hres).
      rewrite Hpack in Hres. simpl in Hres.
      by destruct Hres as [[= ->] _].
  - rewrite Hs2, Hsec. destruct (sections st1); [done|simpl; lia].
Qed.

Lemma thread_completion_message_witness :
  DocSplitterDialog._process_document_thread quiet "Heading 3" true "out"
    (Some ("input", [normal_style; heading3_style], doc same_title_twice))
  = [DocSplitterDialog.update_progress 100;
     DocSplitterDialog._show_completion_message "out/input_sections.zip"
       2 3]
  ∧ "out/input_sections.zip" = path_join "out" ("input" +:+ "_sections.zip")
  ∧ 1 ≤ 2
  ∧ 3%Z = DocSplitterDialog.get_heading_level "Heading 3".
Proof.
  apply (thread_completion_message quiet "Heading 3" true "out" "input"
           [normal_style; heading3_style] (doc same_title_twice)
           "out/input_sections.zip" 2 3).
  assert (DocSplitterDialog._process_document_thread quiet "Heading 3" true
            "out"
            (Some ("input", [normal_style; heading3_style],
                   doc same_title_twice))
          = [DocSplitterDialog.update_progress 100;
             DocSplitterDialog._show_completion_message
               "out/input_sections.zip" 2 3]) as -> by (by vm_compute).
  right. left.
Defined.



(** ** JSONToWordConverter.search_files *)

Section search.
Import JSONToWordConverter.

Lemma is_space_lower c : Str.is_space (lower_char c) = Str.is_space c.
Proof. by destruct c as [[] [] [] [] [] [] [] []]. Qed.

Lemma lower_char_idemp c : lower_char (lower_char c) = lower_char c.
Proof. by destruct c as [[] [] [] [] [] [] [] []]. Qed.

Lemma lower_of_chars l : lower (Str.of_chars l) = Str.of_chars (lower_char <$> l).
Proof. unfold lower. by rewrite chars_of_chars. Qed.

Lemma chars_lower s : Str.chars (lower s) = lower_char <$> Str.chars s.
Proof. unfold lower. by rewrite chars_of_chars. Qed.

Lemma lower_idemp s : lower (lower s) = lower s.
Proof.
  unfold lower. rewrite chars_of_chars, <- list_fmap_compose. f_equal.
  apply list_fmap_ext. intros _ c _. apply lower_char_idemp.
Qed.

Lemma lstrip_lower l :
  Str.lstrip Str.is_space (lower_char <$> l)
  = lower_char <$> Str.lstrip Str.is_space l.
Proof.
  induction l as [|c l IH]; [done|].
  rewrite fmap_cons. cbn [Str.lstrip]. rewrite is_space_lower, IH.
  by destruct (Str.is_space c).
Qed.

Lemma rstrip_lower l :
  Str.rstrip Str.is_space (lower_char <$> l)
  = lower_char <$> Str.rstrip Str.is_space l.
Proof.
  induction l as [|c l IH]; [done|].
  rewrite fmap_cons. cbn [Str.rstrip]. rewrite IH, is_space_lower.
  destruct (Str.rstrip Str.is_space l); simpl; [|done].
  by destruct (Str.is_space c).
Qed.

Lemma strip_lower l :
  Str.strip Str.is_space (lower_char <$> l)
  = lower_char <$> Str.strip Str.is_space l.
Proof. unfold Str.strip. by rewrite lstrip_lower, rstrip_lower. Qed.

Lemma split_go_lower (l : list ascii) :
  ∀ cur : option (list ascii),
    split_go (fmap (M:=list) lower_char <$> cur) (lower_char <$> l)
    = fmap (M:=list) lower_char <$> split_go cur l.
Proof.
  induction l as [|c l IH]; intros cur.
  { by destruct cur. }
  rewrite fmap_cons. cbn [split_go]. rewrite is_space_lower.
  pose proof (IH None) as HN.
  change (fmap (M:=list) lower_char <$> None) with (@None (list ascii))
    in HN.
  destruct (Str.is_space c).
  - destruct cur as [w|]; cbn [fmap option_fmap option_map];
      by rewrite HN.
  - rewrite <- IH. f_equal. destruct cur as [w|];
      cbn [fmap option_fmap option_map default]; [|done].
    by rewrite fmap_app.
Qed.

Lemma split_lower s : split (lower s) = lower <$> split s.
Proof.
  unfold split. rewrite chars_lower, (split_go_lower _ None).
  rewrite <- !list_fmap_compose. apply list_fmap_ext.
  intros _ w _. simpl. by rewrite lower_of_chars.
Qed.

(** The tokens of [split] are not empty. *)
Lemma split_go_nonempty l :
  ∀ cur, (∀ w, cur = Some w → w ≠ []) →
    Forall (λ w, w ≠ []) (split_go cur l).
Proof.
  induction l as [|c l IH]; intros cur Hcur; simpl.
  { destruct cur; [|done]. repeat constructor. by apply Hcur. }
  destruct (Str.is_space c).
  - destruct cur; [constructor; [by apply Hcur|]|]; by apply IH.
  - apply IH. intros w [= <-]. by destruct (default [] cur).
Qed.

Lemma filter_tokens (ws : list (list ascii)) :
  Forall (λ w, w ≠ []) ws →
  List.filter (λ term, negb (String.eqb term "")) (Str.of_chars <$> ws)
  = Str.of_chars <$> ws.
Proof.
  induction 1 as [|w ws Hw _ IH]; [done|].
  rewrite fmap_cons. cbn [List.filter]. rewrite IH.
  by destruct w.
Qed.

Lemma search_terms_split search_var :
  search_terms search_var
  = lower
      <$> split (Str.of_chars (Str.strip Str.is_space (Str.chars search_var))).
Proof.
  unfold search_terms. f_equal. unfold split.
  apply filter_tokens, split_go_nonempty. by intros w ?.
Qed.

(** The search terms depend on the search text in lower case only. *)
Lemma search_terms_lower search_var :
  search_terms search_var
  = split (Str.of_chars (Str.strip Str.is_space (Str.chars (lower search_var)))).
Proof.
  rewrite search_terms_split, <- split_lower, lower_of_chars.
  by rewrite chars_lower, strip_lower.
Qed.










(** X27. The search does not look at the case of letters: two search
    texts that agree in lower case list the same files, and a file is
    listed or not by its name in lower case. *)
Theorem search_ignores_case (search_var search_var' : string)
    (filename filename' : string) :
  lower search_var = lower search_var' →
  lower filename = lower filename' →
  shown search_var filename = shown search_var' filename'.
Proof.
  intros Hs Hf. unfold shown.
  by rewrite !search_terms_lower, Hs, Hf.
Qed.

Lemma search_ignores_case_witness :
  shown "Tax REPORT" "2024 report (Tax).JSON"
  = shown "tax report" "2024 REPORT (tax).json".
Proof.
  exact (search_ignores_case "Tax REPORT" "tax report"
           "2024 report (Tax).JSON" "2024 REPORT (tax).json"
           eq_refl eq_refl).
Defined.








End search.
